(** * PDFExcelExtract: the table-detection engine of [PDFProcessor]

    A shallow embedding of the table-detection code of the [PDFProcessor]
    class: the layout detector [detectTablesByLayout], the text-pattern
    detector [detectTables] with [isTableLine], [parseTable],
    [detectSeparator], [splitTableLine], [detectHeaders] and
    [calculateTableConfidence], and the cascade of [processJob] with its
    single-column fallback.  The text-pattern code is the same in
    [server/pdf-processor.ts]; an older variant of the class differs in
    [calculateTableConfidence], which it clamps at 0 ([NonOcrVariant]).

    Around it: the text sources [extractTextFromPDF] and
    [combineTextSources], the in-memory store [MemStorage], [processJob] as
    it drives the store (for the class with the layout detector and for the
    class of [server/pdf-processor.ts], module [Server]), the reprocess
    route, [processPdfFile] of the batch run, and [calculateColumnWidths]
    and the sheet names of the Excel generator.

    Conventions of the embedding:
    - a JavaScript string is the list of its UTF-16 code units ([jsstring]);
    - a JavaScript number that holds a coordinate, a ratio or a threshold is
      an exact rational ([Q]): rounding errors of the floating-point
      arithmetic are not modelled; a score, which can come out of a division
      by zero, lives in [jsnum], which adds [NaN] and the two infinities;
    - array lengths and indices are [nat];
    - a regular expression literal is a [pattern]: a [regex] term together
      with the two anchors [^] and [$]; [test] asks whether some substring
      (or prefix, or the whole string, according to the anchors) belongs to
      the language of the term;
    - the text items of a page are those [pdfjs] returns; a document that
      cannot be opened is [None], and every page of an opened document is
      taken to be readable;
    - a [Map] is the list of its entries in insertion order, a [Set] the
      list of its members;
    - [randomUUID()] and [new Date()] are read from two supplies, the
      processor counting the values drawn; the OCR is a function that
      returns a text or throws;
    - an [async] function is followed from its call to the settlement of
      its promise: no other request runs in between. *)

From Stdlib Require Import List Bool Arith ZArith NArith QArith Qround Qabs.
From Stdlib Require Import String Ascii Lia Lqa DecimalString DecimalNat.
From Stdlib Require Import Permutation.
From Stdlib Require Import Sorting.Sorted.
Import ListNotations.

Close Scope Q_scope.
Local Open Scope nat_scope.
Local Open Scope list_scope.

(* ================================================================== *)
(** ** JavaScript strings *)
(* ================================================================== *)

Definition code_unit := N.
Definition jsstring := list code_unit.

(** An ASCII literal of the source as a [jsstring]. *)
Definition lit (s : string) : jsstring :=
  map N_of_ascii (list_ascii_of_string s).

Definition jsstring_eqb (a b : jsstring) : bool :=
  if list_eq_dec N.eq_dec a b then true else false.

Module Char.
Local Open Scope N_scope.

Definition pipe : code_unit := 124.
Definition tab : code_unit := 9.
Definition newline : code_unit := 10.
Definition space : code_unit := 32.
Definition dollar : code_unit := 36.
Definition percent : code_unit := 37.
Definition comma : code_unit := 44.

Definition eq (k : code_unit) (c : code_unit) : bool := c =? k.

(** LineTerminator of ECMAScript: what [.] refuses. *)
Definition isLineTerminator (c : code_unit) : bool :=
  (c =? 10) || (c =? 13) || (c =? 8232) || (c =? 8233).

(** WhiteSpace and LineTerminator of ECMAScript: the class [\s], and what
    [String.prototype.trim] strips. *)
Definition isSpace (c : code_unit) : bool :=
  (c =? 9) || (c =? 10) || (c =? 11) || (c =? 12) || (c =? 13) ||
  (c =? 32) || (c =? 160) || (c =? 5760) ||
  ((8192 <=? c) && (c <=? 8202)) ||
  (c =? 8232) || (c =? 8233) || (c =? 8239) || (c =? 8287) ||
  (c =? 12288) || (c =? 65279).

(** [\d] *)
Definition isDigit (c : code_unit) : bool := (48 <=? c) && (c <=? 57).
(** [[A-Z]] *)
Definition isUpper (c : code_unit) : bool := (65 <=? c) && (c <=? 90).
Definition isLower (c : code_unit) : bool := (97 <=? c) && (c <=? 122).
(** [\w] *)
Definition isWord (c : code_unit) : bool :=
  isUpper c || isLower c || isDigit c || (c =? 95).
(** [.] *)
Definition isDot (c : code_unit) : bool := negb (isLineTerminator c).
(** [[\$\d,]] *)
Definition isMoneyish (c : code_unit) : bool :=
  (c =? dollar) || isDigit c || (c =? comma).
(** [[\d$%]] *)
Definition isNumericMark (c : code_unit) : bool :=
  isDigit c || (c =? dollar) || (c =? percent).
(** [[\$\u00A3\u20AC\u00A5]]: dollar, pound, euro, yen *)
Definition isCurrency (c : code_unit) : bool :=
  (c =? dollar) || (c =? 163) || (c =? 8364) || (c =? 165).
End Char.

(** [String.prototype.trim] *)
Fixpoint dropSpaces (s : jsstring) : jsstring :=
  match s with
  | [] => []
  | c :: s' => if Char.isSpace c then dropSpaces s' else s
  end.

Definition trim (s : jsstring) : jsstring :=
  rev (dropSpaces (rev (dropSpaces s))).

(** [s.split(sep)] for a separator of one code unit. *)
Fixpoint split (sep : code_unit) (s : jsstring) : list jsstring :=
  match s with
  | [] => [[]]
  | c :: s' =>
      if N.eqb c sep then [] :: split sep s'
      else match split sep s' with
           | p :: ps => (c :: p) :: ps
           | [] => [[c]]
           end
  end.

(** [s.split(/\s{2,}/)]: the separators are the maximal runs of at least
    two [\s] code units ([inRun] holds while such a run is being skipped). *)
Fixpoint splitSpaceRuns (inRun : bool) (s : jsstring) : list jsstring :=
  match s with
  | [] => [[]]
  | c :: s' =>
      if inRun && Char.isSpace c then splitSpaceRuns true s'
      else if Char.isSpace c &&
              match s' with d :: _ => Char.isSpace d | [] => false end
           then [] :: splitSpaceRuns true s'
      else match splitSpaceRuns false s' with
           | p :: ps => (c :: p) :: ps
           | [] => [[c]]
           end
  end.

(** [arr.join(sep)] *)
Fixpoint join (sep : jsstring) (l : list jsstring) : jsstring :=
  match l with
  | [] => []
  | [a] => a
  | a :: l' => a ++ sep ++ join sep l'
  end.

(* ================================================================== *)
(** ** Regular expressions *)
(* ================================================================== *)

Inductive regex : Type :=
| Void
| Eps
| Class (p : code_unit -> bool)
| Cat (r1 r2 : regex)
| Alt (r1 r2 : regex)
| Star (r : regex).

(** [r+] and [r{n,}] *)
Definition Plus (r : regex) : regex := Cat r (Star r).
Fixpoint AtLeast (n : nat) (r : regex) : regex :=
  match n with
  | O => Star r
  | S k => Cat r (AtLeast k r)
  end.

(** The strings a regular expression generates. *)
Inductive Lang : regex -> jsstring -> Prop :=
| LEps : Lang Eps []
| LClass p c : p c = true -> Lang (Class p) [c]
| LCat r1 r2 s1 s2 : Lang r1 s1 -> Lang r2 s2 -> Lang (Cat r1 r2) (s1 ++ s2)
| LAltL r1 r2 s : Lang r1 s -> Lang (Alt r1 r2) s
| LAltR r1 r2 s : Lang r2 s -> Lang (Alt r1 r2) s
| LStarNil r : Lang (Star r) []
| LStarApp r s1 s2 : Lang r s1 -> Lang (Star r) s2 -> Lang (Star r) (s1 ++ s2).

Fixpoint nullable (r : regex) : bool :=
  match r with
  | Void => false
  | Eps => true
  | Class _ => false
  | Cat r1 r2 => nullable r1 && nullable r2
  | Alt r1 r2 => nullable r1 || nullable r2
  | Star _ => true
  end.

Definition cat (r1 r2 : regex) : regex :=
  match r1, r2 with
  | Void, _ => Void
  | _, Void => Void
  | Eps, _ => r2
  | _, _ => Cat r1 r2
  end.

Definition alt (r1 r2 : regex) : regex :=
  match r1, r2 with
  | Void, _ => r2
  | _, Void => r1
  | _, _ => Alt r1 r2
  end.

(** Brzozowski derivative. *)
Fixpoint deriv (c : code_unit) (r : regex) : regex :=
  match r with
  | Void => Void
  | Eps => Void
  | Class p => if p c then Eps else Void
  | Cat r1 r2 =>
      alt (cat (deriv c r1) r2) (if nullable r1 then deriv c r2 else Void)
  | Alt r1 r2 => alt (deriv c r1) (deriv c r2)
  | Star r1 => cat (deriv c r1) (Star r1)
  end.

(** The whole of [s] is generated by [r]. *)
Fixpoint matches (r : regex) (s : jsstring) : bool :=
  match s with
  | [] => nullable r
  | c :: s' => matches (deriv c r) s'
  end.

(** Some prefix of [s] is generated by [r]. *)
Fixpoint matchesPrefix (r : regex) (s : jsstring) : bool :=
  nullable r ||
  match s with
  | [] => false
  | c :: s' => matchesPrefix (deriv c r) s'
  end.

(** Some suffix of [s] is generated by [r]. *)
Fixpoint matchesSuffix (r : regex) (s : jsstring) : bool :=
  matches r s ||
  match s with
  | [] => false
  | _ :: s' => matchesSuffix r s'
  end.

(** Some substring of [s] is generated by [r]. *)
Fixpoint search (r : regex) (s : jsstring) : bool :=
  matchesPrefix r s ||
  match s with
  | [] => false
  | _ :: s' => search r s'
  end.

(** A regular expression literal without flags: [/^body$/], [/^body/],
    [/body$/] or [/body/]. *)
Record pattern : Type := mkPattern {
  fromStart : bool;
  body : regex;
  toEnd : bool
}.

Definition re (r : regex) : pattern := mkPattern false r false.
Definition reWhole (r : regex) : pattern := mkPattern true r true.
Definition reStart (r : regex) : pattern := mkPattern true r false.

(** [pattern.test(s)] *)
Definition test (p : pattern) (s : jsstring) : bool :=
  match fromStart p, toEnd p with
  | true, true => matches (body p) s
  | true, false => matchesPrefix (body p) s
  | false, true => matchesSuffix (body p) s
  | false, false => search (body p) s
  end.

(** [(s.match(/c/g) || []).length] for a pattern of one literal code unit. *)
Definition countChar (k : code_unit) (s : jsstring) : nat :=
  List.length (filter (N.eqb k) s).

(** [(s.match(p) || []).length] for a pattern without the [g] flag and
    without capture groups: the match array holds the matched text only. *)
Definition matchLength (p : pattern) (s : jsstring) : nat :=
  if test p s then 1 else 0.

(* ================================================================== *)
(** ** JavaScript numbers *)
(* ================================================================== *)

Definition Qnat (n : nat) : Q := inject_Z (Z.of_nat n).
Definition Qltb (a b : Q) : bool := negb (Qle_bool b a).

(** [Math.round] on a finite number: the nearest integer, halves upwards. *)
Definition mathRound (q : Q) : Q := inject_Z (Qfloor (q + (1 # 2))).

(** A number that may have gone through a division: finite, infinite or
    [NaN]. *)
Inductive jsnum : Type :=
| Fin (q : Q)
| PosInf
| NegInf
| NaN.

Module Num.
(** [a / b] for two array lengths. *)
Definition divLengths (a b : nat) : jsnum :=
  match b with
  | O => match a with O => NaN | S _ => PosInf end
  | S _ => Fin (Qnat a / Qnat b)
  end.

(** [x * k] for a constant [k > 0]. *)
Definition scale (x : jsnum) (k : Q) : jsnum :=
  match x with
  | Fin q => Fin (q * k)
  | other => other
  end.

Definition round (x : jsnum) : jsnum :=
  match x with
  | Fin q => Fin (mathRound q)
  | other => other
  end.

Definition add (a b : jsnum) : jsnum :=
  match a, b with
  | NaN, _ | _, NaN => NaN
  | Fin p, Fin q => Fin (p + q)
  | PosInf, NegInf | NegInf, PosInf => NaN
  | PosInf, _ | _, PosInf => PosInf
  | NegInf, _ | _, NegInf => NegInf
  end.

Definition neg (a : jsnum) : jsnum :=
  match a with
  | Fin q => Fin (- q)
  | PosInf => NegInf
  | NegInf => PosInf
  | NaN => NaN
  end.

Definition sub (a b : jsnum) : jsnum := add a (neg b).

(** [a < b]; false as soon as one side is [NaN]. *)
Definition ltb (a b : jsnum) : bool :=
  match a, b with
  | NaN, _ | _, NaN => false
  | Fin p, Fin q => Qltb p q
  | _, NegInf => false
  | NegInf, _ => true
  | PosInf, _ => false
  | _, PosInf => true
  end.

(** [a >= b]; false as soon as one side is [NaN]. *)
Definition geb (a b : jsnum) : bool :=
  match a, b with
  | NaN, _ | _, NaN => false
  | _, _ => negb (ltb a b)
  end.

(** [Math.min(a, b)] and [Math.max(a, b)] *)
Definition min (a b : jsnum) : jsnum :=
  match a, b with
  | NaN, _ | _, NaN => NaN
  | _, _ => if ltb b a then b else a
  end.

Definition max (a b : jsnum) : jsnum :=
  match a, b with
  | NaN, _ | _, NaN => NaN
  | _, _ => if ltb a b then b else a
  end.

(** The number is finite and lies in [[lo, hi]]. *)
Definition within (lo hi : Q) (x : jsnum) : Prop :=
  match x with
  | Fin q => (lo <= q /\ q <= hi)%Q
  | _ => False
  end.
End Num.

(** [`${n}`] for an array index. *)
Definition natToString (n : nat) : jsstring :=
  lit (NilZero.string_of_uint (Nat.to_uint n)).

(* ================================================================== *)
(** ** The result type *)
(* ================================================================== *)

Record BoundingBox : Type := mkBox {
  box_x : Q;
  box_y : Q;
  box_width : Q;
  box_height : Q
}.

Record TableDetectionResult : Type := mkTable {
  tableIndex : nat;
  headers : list jsstring;
  data : list (list jsstring);
  confidence : jsnum;
  boundingBox : BoundingBox
}.

Inductive Sensitivity : Type := low | medium | high.

Record ProcessingOptions : Type := mkOptions {
  confidenceThreshold : option Q;
  tableDetectionSensitivity : option Sensitivity
}.

(** [`Column ${i + 1}`] *)
Definition columnName (i : nat) : jsstring :=
  lit "Column " ++ natToString (i + 1).

(** [Array.from({ length: n }, (_, i) => `Column ${i + 1}`)] *)
Definition genericHeaders (n : nat) : list jsstring :=
  map columnName (seq 0 n).

Definition nonEmpty (s : jsstring) : bool := (0 <? List.length s)%nat.

(* ================================================================== *)
(** ** Text-pattern detection: [isTableLine] ... [detectTables] *)
(* ================================================================== *)

Declare Scope regex_scope.
Delimit Scope regex_scope with re.
Infix "@@" := Cat (at level 60, right associativity) : regex_scope.

Definition chr (k : code_unit) : regex := Class (Char.eq k).
Definition dotStar : regex := Star (Class Char.isDot).
Definition anySpace : regex := Class Char.isSpace.
Definition anyDigit : regex := Class Char.isDigit.
Definition anyWord : regex := Class Char.isWord.

Module Pat.
Local Open Scope regex_scope.
Import Char.

(** [/\|.*\|.*\|/] and [/\t.*\t.*\t/] *)
Definition pipe3 :=
  re (chr pipe @@ dotStar @@ chr pipe @@ dotStar @@ chr pipe).
Definition tab3 := re (chr tab @@ dotStar @@ chr tab @@ dotStar @@ chr tab).
(** [/\|.*\|/] and [/\t.*\t/] *)
Definition pipe2 := re (chr pipe @@ dotStar @@ chr pipe).
Definition tab2 := re (chr tab @@ dotStar @@ chr tab).
(** [/\s{3,}.*\s{3,}/] *)
Definition spaces3 :=
  re (AtLeast 3 anySpace @@ dotStar @@ AtLeast 3 anySpace).
(** [/[\$\d,]+.*[\$\d,]+/] *)
Definition numbers2 :=
  re (Plus (Class isMoneyish) @@ dotStar @@ Plus (Class isMoneyish)).
(** [/\|/] and [/\t/] *)
Definition pipe1 := re (chr pipe).
Definition tab1 := re (chr tab).
(** [/\s{2,}.*\s{2,}/] *)
Definition spaces2 :=
  re (AtLeast 2 anySpace @@ dotStar @@ AtLeast 2 anySpace).
(** [/.*\d+.*%/] *)
Definition percentage :=
  re (dotStar @@ Plus anyDigit @@ dotStar @@ chr percent).
(** [/.*\$.*\d/] *)
Definition currency := re (dotStar @@ chr dollar @@ dotStar @@ anyDigit).
(** [/^\w+\s+\w+.*\w+$/] *)
Definition words :=
  reWhole (Plus anyWord @@ Plus anySpace @@ Plus anyWord @@ dotStar
           @@ Plus anyWord).

(** [/\s{2,}/] *)
Definition spaceRun := re (AtLeast 2 anySpace).
(** [/[\d$%]/], [/\d/], [/[\$\u00A3\u20AC\u00A5]/], [/%/], [/^[A-Z]/],
    [/^\d+$/] *)
Definition numericMark := re (Class isNumericMark).
Definition digit := re anyDigit.
Definition currencySign := re (Class isCurrency).
Definition percentSign := re (chr percent).
Definition capital := reStart (Class isUpper).
Definition allDigits := reWhole (Plus anyDigit).
End Pat.

Definition patterns (sensitivity : Sensitivity) : list pattern :=
  match sensitivity with
  | low => [Pat.pipe3; Pat.tab3]
  | medium => [Pat.pipe2; Pat.tab2; Pat.spaces3; Pat.numbers2]
  | high => [Pat.pipe1; Pat.tab1; Pat.spaces2; Pat.percentage; Pat.currency;
             Pat.words]
  end.

Definition isTableLine (line : jsstring) (sensitivity : Sensitivity) : bool :=
  existsb (fun p => test p line) (patterns sensitivity).

(** The candidates of [detectSeparator]: two strings and one regular
    expression. *)
Inductive Separator : Type :=
| SepString (c : code_unit)
| SepRegExp (p : pattern).

Definition separators : list Separator :=
  [SepString Char.pipe; SepString Char.tab; SepRegExp Pat.spaceRun].

(** The [matches] of one line in [detectSeparator]: a string candidate is
    turned into a global pattern, the regular expression is used as it is. *)
Definition separatorMatches (sep : Separator) (line : jsstring) : nat :=
  match sep with
  | SepString c => countChar c line
  | SepRegExp p => matchLength p line
  end.

Definition separatorScore (sep : Separator) (lines : list jsstring) : nat :=
  fold_left (fun total line => total + separatorMatches sep line) lines 0.

(** [typeof sep === 'string' ? sep : ' '] *)
Definition separatorName (sep : Separator) : jsstring :=
  match sep with
  | SepString c => [c]
  | SepRegExp _ => lit " "
  end.

Definition detectSeparatorStep (lines : list jsstring)
    (best : jsstring * nat) (sep : Separator) : jsstring * nat :=
  let score := separatorScore sep lines in
  if (snd best <? score)%nat then (separatorName sep, score) else best.

Definition detectSeparator (lines : list jsstring) : jsstring :=
  fst (fold_left (detectSeparatorStep lines) separators (lit "|", 0)).

Definition splitTableLine (line separator : jsstring) : list jsstring :=
  if jsstring_eqb separator (lit "|") then
    filter nonEmpty (map trim (split Char.pipe line))
  else if jsstring_eqb separator [Char.tab] then
    map trim (split Char.tab line)
  else
    filter nonEmpty (map trim (splitSpaceRuns false line)).

Definition headerIndicator (cell : jsstring) : bool :=
  let hasNumbers := test Pat.digit cell in
  let hasCurrency := test Pat.currencySign cell in
  let hasPercent := test Pat.percentSign cell in
  let isShort := (List.length cell <? 20)%nat in
  let hasCapitalization := test Pat.capital cell in
  negb hasNumbers && negb hasCurrency && negb hasPercent && isShort
  && hasCapitalization.

Definition detectHeaders (row : list jsstring) : bool :=
  let indicators := map headerIndicator row in
  Qle_bool (Qnat (List.length indicators) * (6 # 10))
           (Qnat (List.length (filter (fun b : bool => b) indicators))).

Definition meaningfulHeader (header : jsstring) : bool :=
  (2 <? List.length header)%nat && (List.length header <? 30)%nat
  && negb (test Pat.allDigits header).

Definition bump (cond : bool) (k : Q) (c : jsnum) : jsnum :=
  if cond then Num.add c (Fin k) else c.

Definition calculateTableConfidence (headers : list jsstring)
    (data : list (list jsstring)) : jsnum :=
  let confidence := Fin 50 in
  let confidence := bump (2 <=? List.length headers)%nat 10 confidence in
  let confidence := bump (2 <=? List.length data)%nat 10 confidence in
  let rowLengths := map (@List.length jsstring) data in
  let consistentLength :=
    forallb (fun len => Nat.eqb len (List.length headers)) rowLengths in
  let confidence := bump consistentLength 15 confidence in
  let headerQuality :=
    Num.divLengths (List.length (filter meaningfulHeader headers))
                   (List.length headers) in
  let confidence :=
    Num.add confidence (Num.round (Num.scale headerQuality 10)) in
  let hasNumericData :=
    existsb (fun row => existsb (test Pat.numericMark) row) data in
  let confidence := bump hasNumericData 10 confidence in
  let emptyCells :=
    List.length
      (filter (fun cell => negb (nonEmpty (trim cell))) (List.concat data)) in
  let totalCells := (List.length data * List.length headers)%nat in
  let emptyRatio := Num.divLengths emptyCells totalCells in
  let confidence :=
    Num.sub confidence (Num.round (Num.scale emptyRatio 30)) in
  Num.max (Fin 30) (Num.min (Fin 100) confidence).

(** The second [PDFProcessor] class of the repository (the one that reads
    the text with [pdf-parse]): the same score without the header-quality
    term and with the floor at 0. *)
Module NonOcrVariant.
Definition calculateTableConfidence (headers : list jsstring)
    (data : list (list jsstring)) : jsnum :=
  let confidence := Fin 50 in
  let confidence := bump (2 <=? List.length headers)%nat 10 confidence in
  let confidence := bump (2 <=? List.length data)%nat 10 confidence in
  let rowLengths := map (@List.length jsstring) data in
  let consistentLength :=
    forallb (fun len => Nat.eqb len (List.length headers)) rowLengths in
  let confidence := bump consistentLength 15 confidence in
  let hasNumericData :=
    existsb (fun row => existsb (test Pat.numericMark) row) data in
  let confidence := bump hasNumericData 10 confidence in
  let emptyCells :=
    List.length
      (filter (fun cell => negb (nonEmpty (trim cell))) (List.concat data)) in
  let totalCells := (List.length data * List.length headers)%nat in
  let emptyRatio := Num.divLengths emptyCells totalCells in
  let confidence :=
    Num.sub confidence (Num.round (Num.scale emptyRatio 30)) in
  Num.max (Fin 0) (Num.min (Fin 100) confidence).
End NonOcrVariant.

(** The [while] loop of the row normalisation: push [''] while the row is
    shorter than [maxColumns]; [fuel] bounds the number of turns. *)
Fixpoint padRow (fuel maxColumns : nat) (normalized : list jsstring)
  : list jsstring :=
  match fuel with
  | O => normalized
  | S fuel' =>
      if (List.length normalized <? maxColumns)%nat
      then padRow fuel' maxColumns (normalized ++ [[]])
      else normalized
  end.

(** [normalized.slice(0, maxColumns)] after the loop. *)
Definition normalizeRow (maxColumns : nat) (row : list jsstring)
  : list jsstring :=
  firstn maxColumns (padRow maxColumns maxColumns row).

Definition parseTable (lines : list jsstring) (tableIndex : nat)
    (confidenceThreshold : Q) : option TableDetectionResult :=
  if (List.length lines <? 2)%nat then None else
  let separator := detectSeparator lines in
  let rows := map (fun line => splitTableLine line separator) lines in
  let validRows := filter (fun row => (2 <=? List.length row)%nat) rows in
  if (List.length validRows <? 2)%nat then None else
  let hasHeaders := detectHeaders (hd [] validRows) in
  let headers :=
    if hasHeaders then hd [] validRows
    else genericHeaders (list_max (map (@List.length jsstring) validRows)) in
  let data := if hasHeaders then tl validRows else validRows in
  let maxColumns := List.length headers in
  let data := map (normalizeRow maxColumns) data in
  let confidence := calculateTableConfidence headers data in
  if Num.ltb confidence (Fin confidenceThreshold) then None else
  Some (mkTable tableIndex headers data confidence
          (mkBox 0 (Qnat tableIndex * 100) 100 (Qnat (List.length data) * 20))).

(** The local variables of [detectTables]. *)
Record DetectState : Type := mkState {
  tables : list TableDetectionResult;
  currentTable : list jsstring;
  nextIndex : nat;
  inTable : bool
}.

(** [parseTable] followed by the caller's own test of the threshold. *)
Definition accepted (block : list jsstring) (index : nat)
    (confidenceThreshold : Q) : option TableDetectionResult :=
  match parseTable block index confidenceThreshold with
  | Some extractedTable =>
      if Num.geb (confidence extractedTable) (Fin confidenceThreshold)
      then Some extractedTable else None
  | None => None
  end.

(** One turn of the loop over the lines. *)
Definition detectStep (confidenceThreshold : Q) (sensitivity : Sensitivity)
    (st : DetectState) (line : jsstring) : DetectState :=
  let hasTablePattern := isTableLine line sensitivity in
  if hasTablePattern && negb (inTable st) then
    mkState (tables st) [line] (nextIndex st) true
  else if hasTablePattern && inTable st then
    mkState (tables st) (currentTable st ++ [line]) (nextIndex st) true
  else if negb hasTablePattern && inTable st
          && (1 <? List.length (currentTable st))%nat then
    match accepted (currentTable st) (nextIndex st) confidenceThreshold with
    | Some extractedTable =>
        mkState (tables st ++ [extractedTable]) [] (S (nextIndex st)) false
    | None => mkState (tables st) [] (nextIndex st) false
    end
  else if negb hasTablePattern then
    mkState (tables st) [] (nextIndex st) false
  else st.

(** The table still open when the text ends. *)
Definition detectFinish (confidenceThreshold : Q) (st : DetectState)
  : list TableDetectionResult :=
  if inTable st && (1 <? List.length (currentTable st))%nat then
    match accepted (currentTable st) (nextIndex st) confidenceThreshold with
    | Some extractedTable => tables st ++ [extractedTable]
    | None => tables st
    end
  else tables st.

(** [text.split('\n').map(line => line.trim())
        .filter(line => line.length > 0)] *)
Definition textLines (text : jsstring) : list jsstring :=
  filter nonEmpty (map trim (split Char.newline text)).

Definition detectLines (lines : list jsstring) (confidenceThreshold : Q)
    (sensitivity : Sensitivity) : list TableDetectionResult :=
  detectFinish confidenceThreshold
    (fold_left (detectStep confidenceThreshold sensitivity) lines
       (mkState [] [] 0 false)).

Definition detectTables (text : jsstring) (confidenceThreshold : Q)
    (sensitivity : Sensitivity) : list TableDetectionResult :=
  detectLines (textLines text) confidenceThreshold sensitivity.

(* ================================================================== *)
(** ** Layout detection: [detectTablesByLayout] *)
(* ================================================================== *)

(** A text item of a page: [str], [transform[4]] and [transform[5]]. *)
Record Item : Type := mkItem {
  it_str : jsstring;
  it_x : Q;
  it_y : Q
}.

Record Row : Type := mkRow {
  row_y : Q;
  row_items : list Item
}.

Record Column : Type := mkColumn {
  minX : Q;
  maxX : Q
}.

(** [Math.round(v * 100) / 100], the product and the quotient taken
    exactly (the code rounds both to doubles). *)
Definition round2 (v : Q) : Q := (mathRound (v * 100) / 100)%Q.

Definition yTolerance : Q := 3.
Definition gapThreshold : Q := 20.

(** One turn of the clustering loop: the item joins the first row whose [y]
    is within the tolerance, or opens a new row at the end.  The difference
    [r.y - y] is exact here, a double in the code. *)
Fixpoint addToRows (y : Q) (it : Item) (rows : list Row) : list Row :=
  match rows with
  | [] => [mkRow y [it]]
  | r :: rows' =>
      if Qle_bool (Qabs (row_y r - y)) yTolerance
      then mkRow (row_y r) (row_items r ++ [it]) :: rows'
      else r :: addToRows y it rows'
  end.

Definition clusterRows (items : list Item) : list Row :=
  fold_left (fun rows it => addToRows (round2 (it_y it)) it rows) items [].

(** [Array.prototype.sort] with a comparator: a stable sort; [le a b] holds
    when the comparator does not put [b] before [a]. *)
Fixpoint insertBy {A : Type} (le : A -> A -> bool) (a : A) (l : list A)
  : list A :=
  match l with
  | [] => [a]
  | b :: l' => if le a b then a :: l else b :: insertBy le a l'
  end.

Definition sortBy {A : Type} (le : A -> A -> bool) (l : list A) : list A :=
  fold_right (insertBy le) [] l.

(** [rows.sort((a, b) => b.y - a.y)], then each row's items by [x]. *)
Definition sortRows (rows : list Row) : list Row :=
  map (fun r =>
         mkRow (row_y r)
               (sortBy (fun a b => Qle_bool (it_x a) (it_x b)) (row_items r)))
      (sortBy (fun a b => Qle_bool (row_y b) (row_y a)) rows).

Definition xPositions (rows : list Row) : list Q :=
  sortBy Qle_bool
    (flat_map (fun r => map (fun it => round2 (it_x it)) (row_items r)) rows).

(** The loop over [i >= 1]: [prev] is [xPositions[i - 1]].  The gap
    [x - prev] is exact here, a double in the code. *)
Fixpoint cutsFrom (prev : Q) (xs : list Q) : list Q :=
  match xs with
  | [] => []
  | x :: xs' =>
      if Qltb gapThreshold (x - prev) then x :: cutsFrom x xs'
      else cutsFrom x xs'
  end.

Definition cuts (xPositions : list Q) : list Q :=
  match xPositions with
  | [] => []
  | x0 :: xs => cutsFrom x0 xs
  end.

(** [[minX, ...cuts, maxX + 1]], the sum exact (in doubles [maxX + 1] is
    [maxX] from 2^53 on). *)
Definition bins (xPositions : list Q) : list Q :=
  let lo := hd 0%Q xPositions in
  let hi := last xPositions 0%Q in
  [lo] ++ cuts xPositions ++ [(hi + 1)%Q].

(** One column per pair of consecutive bins. *)
Fixpoint columnsOf (bins : list Q) : list Column :=
  match bins with
  | a :: (b :: _) as rest => mkColumn a b :: columnsOf rest
  | _ => []
  end.

Definition inColumn (x : Q) (c : Column) : bool :=
  Qle_bool (minX c) x && Qltb x (maxX c).

(** [Array.prototype.findIndex]: [-1] when nothing qualifies. *)
Fixpoint findIndex {A : Type} (f : A -> bool) (l : list A) : Z :=
  match l with
  | [] => (-1)%Z
  | a :: l' =>
      if f a then 0%Z
      else match findIndex f l' with
           | Z.neg _ => (-1)%Z
           | i => (i + 1)%Z
           end
  end.

(** [Math.max(0, columns.findIndex(c => x >= c.minX && x < c.maxX))] *)
Definition colIndex (columns : list Column) (x : Q) : nat :=
  Z.to_nat (Z.max 0 (findIndex (inColumn x) columns)).

(** [l[i] = v] for an index inside the array. *)
Fixpoint setNth {A : Type} (i : nat) (v : A) (l : list A) : list A :=
  match l, i with
  | [], _ => []
  | _ :: l', O => v :: l'
  | a :: l', S i' => a :: setNth i' v l'
  end.

(** [grid[ri][ci] = (grid[ri][ci] ? grid[ri][ci] + ' ' : '') + it.str.trim()] *)
Definition placeItem (columns : list Column) (ri : nat)
    (grid : list (list jsstring)) (it : Item) : list (list jsstring) :=
  let ci := colIndex columns (it_x it) in
  let old := nth ci (nth ri grid []) [] in
  let cell :=
    (if nonEmpty old then old ++ lit " " else []) ++ trim (it_str it) in
  setNth ri (setNth ci cell (nth ri grid [])) grid.

Definition buildGrid (rows : list Row) (columns : list Column)
  : list (list jsstring) :=
  fold_left
    (fun grid '(ri, r) => fold_left (placeItem columns ri) (row_items r) grid)
    (combine (seq 0 (List.length rows)) rows)
    (map (fun _ => repeat ([] : jsstring) (List.length columns)) rows).

(** [r.filter((_, c) => keep[c])]; an index beyond [keep] is dropped. *)
Definition filterByIndex {A : Type} (keep : list bool) (r : list A) : list A :=
  map snd
    (filter (fun p => nth (fst p) keep false)
            (combine (seq 0 (List.length r)) r)).

Definition hasContent (cell : jsstring) : bool := nonEmpty (trim cell).

Definition cleanGrid (grid : list (list jsstring)) : list (list jsstring) :=
  let nonEmptyRows := filter (existsb hasContent) grid in
  let colCount := list_max (map (@List.length jsstring) nonEmptyRows) in
  let nonEmptyCols :=
    map (fun c => existsb (fun r => hasContent (nth c r [])) nonEmptyRows)
        (seq 0 colCount) in
  map (filterByIndex nonEmptyCols) nonEmptyRows.

(** The header test of the layout path:
    [cells without [\d$%]] >= [Math.ceil(headerRow.length * 0.6)]. *)
Definition layoutIsHeader (headerRow : list jsstring) : bool :=
  (Qceiling (Qnat (List.length headerRow) * (6 # 10))
   <=? Z.of_nat
         (List.length
            (filter (fun cell => negb (test Pat.numericMark cell))
                    headerRow)))%Z.

Definition layoutConfidence (headers : list jsstring)
    (data : list (list jsstring)) : jsnum :=
  let confidence := Fin 60 in
  let consistentCols :=
    forallb (fun r => Nat.eqb (List.length r) (List.length headers)) data in
  let confidence := bump consistentCols 20 confidence in
  let nonEmptyCount := List.length (filter hasContent (List.concat data)) in
  bump (List.length data <? nonEmptyCount) 10 confidence.

(** The body of the loop over the pages: the table of one page, if any. *)
Definition layoutPage (pageItems : list Item) (tableCounter : nat)
  : option TableDetectionResult :=
  let items := filter (fun i => hasContent (it_str i)) pageItems in
  match items with
  | [] => None
  | _ =>
    let rows := sortRows (clusterRows items) in
    let xs := xPositions rows in
    let columns := columnsOf (bins xs) in
    if (List.length columns <? 2) || (12 <? List.length columns) then None
    else
      let grid := buildGrid rows columns in
      let cleaned := cleanGrid grid in
      match cleaned with
      | [] => None
      | headerRow :: rest =>
        let isHeader := layoutIsHeader headerRow in
        let headers :=
          if isHeader
          then map (fun h => if nonEmpty h then h else lit "Column") headerRow
          else genericHeaders (List.length headerRow) in
        let data := map (map trim) (if isHeader then rest else cleaned) in
        let confidence := layoutConfidence headers data in
        Some (mkTable tableCounter headers data confidence
                (mkBox (minX (hd (mkColumn 0 0) columns))
                       (row_y (hd (mkRow 0 []) rows))
                       (maxX (last columns (mkColumn 0 0))
                        - minX (hd (mkColumn 0 0) columns))
                       (Qnat (List.length rows) * 12)))
      end
  end.

(** The loop over the first ten pages, with its running counter. *)
Fixpoint layoutPages (pages : list (list Item)) (tableCounter : nat)
  : list TableDetectionResult :=
  match pages with
  | [] => []
  | page :: pages' =>
      match layoutPage page tableCounter with
      | Some t => t :: layoutPages pages' (S tableCounter)
      | None => layoutPages pages' tableCounter
      end
  end.

(** [pdf] is [None] when the document cannot be opened: the [catch] branch
    returns the empty list. *)
Definition detectTablesByLayout (pdf : option (list (list Item)))
  : list TableDetectionResult :=
  match pdf with
  | None => []
  | Some pages => layoutPages (firstn 10 pages) 0
  end.

(* ================================================================== *)
(** ** The cascade of [processJob] *)
(* ================================================================== *)

(** [options.confidenceThreshold || 70]: absent and [0] both give 70. *)
Definition thresholdOf (options : ProcessingOptions) : Q :=
  match confidenceThreshold options with
  | Some q => if Qeq_bool q 0 then 70%Q else q
  | None => 70%Q
  end.

Definition sensitivityOf (options : ProcessingOptions) : Sensitivity :=
  match tableDetectionSensitivity options with
  | Some s => s
  | None => medium
  end.

(** The final fallback: one column holding every line. *)
Definition fallbackTable (combinedText : jsstring) : TableDetectionResult :=
  let lines := textLines combinedText in
  mkTable 0 [lit "Text"] (map (fun line => [line]) lines) (Fin 80)
    (mkBox 0 0 100 (Qnat (Nat.max 20 (List.length lines * 20)))).

(** Step 4 of [processJob]: the tables that are handed to the storage. *)
Definition processJobTables (pdf : option (list (list Item)))
    (combinedText : jsstring) (options : ProcessingOptions)
  : list TableDetectionResult :=
  let tables := detectTablesByLayout pdf in
  let tables :=
    match tables with
    | [] => detectTables combinedText (thresholdOf options)
                         (sensitivityOf options)
    | _ => tables
    end in
  match tables with
  | [] => [fallbackTable combinedText]
  | _ => tables
  end.

(** The columns the loop body derives for one page. *)
Definition pageColumns (pageItems : list Item) : list Column :=
  let items := filter (fun i => hasContent (it_str i)) pageItems in
  columnsOf (bins (xPositions (sortRows (clusterRows items)))).

(* ================================================================== *)
(** ** Vocabulary of the statements *)
(* ================================================================== *)

(** The lines before a block end the previous block, or there are none. *)
Definition closedBefore (sensitivity : Sensitivity) (pre : list jsstring)
  : Prop :=
  pre = [] \/
  exists pre' n, pre = pre' ++ [n] /\ isTableLine n sensitivity = false.

(** The lines after a block start with a line that is not table-like, or
    there are none. *)
Definition closedAfter (sensitivity : Sensitivity) (post : list jsstring)
  : Prop :=
  post = [] \/
  exists n post', post = n :: post' /\ isTableLine n sensitivity = false.

(** The state of [detectTables] between two blocks. *)
Definition idle (st : DetectState) : Prop :=
  inTable st = false /\ currentTable st = [].

(** The input lines of the regional-sales scenario. *)
Definition regionalSalesLines : list jsstring :=
  [lit "Region | Sales Target | Actual Sales | Status";
   lit "North America | $4,200,000 | $4,580,000 | Exceeded";
   lit "Europe | $2,800,000 | $2,650,000 | Near Target"].

(** Every data row has as many cells as there are headers. *)
Definition rowsMatchHeaders (t : TableDetectionResult) : Prop :=
  Forall (fun row => List.length row = List.length (headers t)) (data t).

(** A page of two rows and three columns: [Name], [Qty] on the first row;
    [Apple], [x], [3] on the second. *)
Definition samplePage : list Item :=
  [mkItem (lit "Name") 10 700; mkItem (lit "Qty") 100 700;
   mkItem (lit "Apple") 10 680; mkItem (lit "3") 100 681;
   mkItem (lit "x") 50 680].

(** A page whose items all start at the same [x]: one band. *)
Definition oneBandPage : list Item :=
  [mkItem (lit "Title") 72 700; mkItem (lit "Body") 72 680].

(** A page of one row whose thirteen items are 30 units apart: thirteen
    bands. *)
Definition thirteenBandPage : list Item :=
  map (fun k => mkItem (lit "v") (Qnat (30 * k)) 700) (seq 1 13).

(** Columns that follow one another from [lo] to [hi]: each is a non-empty
    interval [[minX, maxX)] and starts where the previous one ends. *)
Inductive Contiguous : Q -> list Column -> Q -> Prop :=
| ContiguousLast lo hi :
    (lo < hi)%Q -> Contiguous lo [mkColumn lo hi] hi
| ContiguousCons lo mid hi cs :
    (lo < mid)%Q -> Contiguous mid cs hi ->
    Contiguous lo (mkColumn lo mid :: cs) hi.

(** A grid row with one cell per column. *)
Definition wide (columns : list Column) (row : list jsstring) : Prop :=
  List.length row = List.length columns.

(** Some row holds the item. *)
Definition placed (rows : list Row) (it : Item) : Prop :=
  exists r, In r rows /\ In it (row_items r).

(** A page whose leftmost item sits at [x = 9.996], which rounds to 10. *)
Definition strayItem : Item := mkItem (lit "Item") (2499 # 250) 700.
Definition strayPage : list Item := [strayItem; mkItem (lit "Price") 40 700].

(** Every match of [/\s{2,}/] in a line, the way the [g] flag counts them
    for the two string separators: the number of separators [split] sees. *)
Definition allSpaceRunMatches (line : jsstring) : nat :=
  List.length (splitSpaceRuns false line) - 1.

Definition total (count : jsstring -> nat) (lines : list jsstring) : nat :=
  fold_left (fun acc line => acc + count line) lines 0.

(** A block where each line has three runs of spaces and one pipe. *)
Definition mixedBlock : list jsstring :=
  [lit "a  b  c  d|e"; lit "f  g  h  i|j"].

(** The items of a page that the loop keeps, and their sorted rounded
    [x] positions. *)
Definition keptItems (pageItems : list Item) : list Item :=
  filter (fun i => hasContent (it_str i)) pageItems.

Definition pagePositions (pageItems : list Item) : list Q :=
  xPositions (sortRows (clusterRows (keptItems pageItems))).

(** Two neighbouring code units of the line are both [\s]. *)
Fixpoint adjacentSpaces (s : jsstring) : bool :=
  match s with
  | c :: (d :: _) as s' =>
      (Char.isSpace c && Char.isSpace d) || adjacentSpaces s'
  | _ => false
  end.

(* ================================================================== *)
(** ** The text sources of [processJob] *)
(* ================================================================== *)

(** [text.trim().length > 0] fails. *)
Definition isBlank (text : jsstring) : bool := negb (nonEmpty (trim text)).

Definition paragraphBreak : jsstring := [Char.newline; Char.newline].

(** [combineTextSources]: the sources that are not blank, joined by an empty
    line; [combined || ocrText] gives the OCR text when nothing is left. *)
Definition combineTextSources (pdfText ocrText : jsstring) : jsstring :=
  let combined :=
    join paragraphBreak
         (filter (fun text => nonEmpty (trim text)) [pdfText; ocrText]) in
  match combined with
  | [] => ocrText
  | _ => combined
  end.

(** [(textContent.items).map(i => i.str || '').join(' ')] *)
Definition pageText (items : list Item) : jsstring :=
  join (lit " ") (map it_str items).

(** The line [--- Page p ---] that precedes the text of page [p]. *)
Definition pageMarker (p : nat) : jsstring :=
  lit "--- Page " ++ natToString p ++ lit " ---".

(** One turn of the loop of [extractTextFromPDF]:
    [`\n\n--- Page ${p} ---\n` + pageText + '\n']. *)
Definition pageChunk (p : nat) (items : list Item) : jsstring :=
  paragraphBreak ++ pageMarker p ++ [Char.newline] ++ pageText items
  ++ [Char.newline].

(** The loop over the pages, from page [p] on. *)
Fixpoint fullTextFrom (p : nat) (pages : list (list Item)) : jsstring :=
  match pages with
  | [] => []
  | page :: rest => pageChunk p page ++ fullTextFrom (S p) rest
  end.

(** [extractTextFromPDF]: the first fifty pages; [''] when the document
    cannot be opened. *)
Definition extractTextFromPDF (pdf : option (list (list Item))) : jsstring :=
  match pdf with
  | None => []
  | Some pages => fullTextFrom 1 (firstn 50 pages)
  end.

(** The lines of the pages, each page after its marker. *)
Fixpoint pageLinesFrom (p : nat) (pages : list (list Item))
  : list jsstring :=
  match pages with
  | [] => []
  | page :: rest =>
      pageMarker p :: textLines (pageText page) ++ pageLinesFrom (S p) rest
  end.



(* ================================================================== *)
(** ** [MemStorage] *)
(* ================================================================== *)

(** A [Map] with string keys: its entries in insertion order; a key occurs
    once. *)
Definition JsMap (V : Type) : Type := list (jsstring * V).

Fixpoint mapGet {V : Type} (k : jsstring) (m : JsMap V) : option V :=
  match m with
  | [] => None
  | (k', v) :: m' => if jsstring_eqb k k' then Some v else mapGet k m'
  end.

(** [m.set(k, v)]: the value of an existing key is replaced where it
    stands, a new key goes to the end. *)
Fixpoint mapSet {V : Type} (k : jsstring) (v : V) (m : JsMap V) : JsMap V :=
  match m with
  | [] => [(k, v)]
  | (k', v') :: m' =>
      if jsstring_eqb k k' then (k, v) :: m' else (k', v') :: mapSet k v m'
  end.

Definition mapHas {V : Type} (k : jsstring) (m : JsMap V) : bool :=
  match mapGet k m with Some _ => true | None => false end.

(** [m.delete(k)], the map that is left. *)
Definition mapDelete {V : Type} (k : jsstring) (m : JsMap V) : JsMap V :=
  filter (fun e => negb (jsstring_eqb k (fst e))) m.

Definition mapKeys {V : Type} (m : JsMap V) : list jsstring := map fst m.
Definition mapValues {V : Type} (m : JsMap V) : list V := map snd m.

(** [s.startsWith(prefix)] *)
Fixpoint startsWith (s prefix : jsstring) {struct prefix} : bool :=
  match prefix with
  | [] => true
  | p :: prefix' =>
      match s with
      | [] => false
      | c :: s' => N.eqb c p && startsWith s' prefix'
      end
  end.

(** A [Date] as its time value, a [Buffer] as its bytes. *)
Definition Date : Type := N.
Definition Buffer : Type := list N.

Record ProcessingJob : Type := mkJob {
  job_id : jsstring;
  job_filename : jsstring;
  job_status : jsstring;
  job_uploadedAt : Date;
  job_completedAt : option Date;
  job_errorMessage : option jsstring;
  job_progress : Q
}.

Record InsertProcessingJob : Type := mkInsertJob {
  ins_filename : jsstring;
  ins_status : jsstring
}.

(** [UpdateJobInput]: [None] is a field that is absent. *)
Record UpdateJobInput : Type := mkJobUpdate {
  upd_status : option jsstring;
  upd_progress : option Q;
  upd_completedAt : option (option Date);
  upd_errorMessage : option (option jsstring)
}.

Record ExtractedTable : Type := mkExtracted {
  tbl_id : jsstring;
  tbl_jobId : jsstring;
  tbl_table : TableDetectionResult;
  tbl_extractedAt : Date
}.

(** [UpdateTableInput]: [None] is a field that is absent. *)
Record UpdateTableInput : Type := mkTableUpdate {
  upd_data : option (list (list jsstring));
  upd_headers : option (list jsstring);
  upd_confidence : option jsnum;
  upd_boundingBox : option BoundingBox
}.

Record OriginalFile : Type := mkFile {
  file_buffer : Buffer;
  file_filename : jsstring;
  file_mimeType : jsstring;
  file_size : nat
}.

Record MemStorage : Type := mkStorage {
  processingJobs : JsMap ProcessingJob;
  extractedTables : JsMap ExtractedTable;
  originalFiles : JsMap OriginalFile;
  excelFiles : JsMap Buffer
}.

(** The storage of the constructor. *)
Definition emptyStorage : MemStorage := mkStorage [] [] [] [].

(** [Math.max(0, Math.min(100, q))] on a finite number. *)
Definition clampPercent (q : Q) : Q :=
  let m := if Qltb q 100 then q else 100%Q in
  if Qltb 0 m then m else 0%Q.

(** [createProcessingJob]; [id] is the value of [randomUUID()], [now] that
    of [new Date()]. *)
Definition createProcessingJob (id : jsstring) (now : Date)
    (insertJob : InsertProcessingJob) (s : MemStorage)
  : ProcessingJob * MemStorage :=
  let job :=
    mkJob id (ins_filename insertJob) (ins_status insertJob) now None None 0 in
  (job, mkStorage (mapSet id job (processingJobs s)) (extractedTables s)
                  (originalFiles s) (excelFiles s)).

Definition getProcessingJob (id : jsstring) (s : MemStorage)
  : option ProcessingJob :=
  mapGet id (processingJobs s).

(** [{ ...existing, ...updates }] after the progress has been clamped. *)
Definition applyJobUpdate (existing : ProcessingJob) (updates : UpdateJobInput)
  : ProcessingJob :=
  mkJob (job_id existing) (job_filename existing)
        (match upd_status updates with
         | Some v => v | None => job_status existing end)
        (job_uploadedAt existing)
        (match upd_completedAt updates with
         | Some v => v | None => job_completedAt existing end)
        (match upd_errorMessage updates with
         | Some v => v | None => job_errorMessage existing end)
        (match upd_progress updates with
         | Some v => clampPercent v | None => job_progress existing end).

Definition updateProcessingJob (id : jsstring) (updates : UpdateJobInput)
    (s : MemStorage) : option ProcessingJob * MemStorage :=
  match mapGet id (processingJobs s) with
  | None => (None, s)
  | Some existing =>
      let updated := applyJobUpdate existing updates in
      (Some updated,
       mkStorage (mapSet id updated (processingJobs s)) (extractedTables s)
                 (originalFiles s) (excelFiles s))
  end.

(** [getAllProcessingJobs]: an empty status and a limit of 0 count as
    absent. *)
Definition getAllProcessingJobs (status : option jsstring)
    (limit : option nat) (s : MemStorage) : list ProcessingJob :=
  let jobs := mapValues (processingJobs s) in
  let jobs :=
    match status with
    | Some (c :: st) =>
        filter (fun job => jsstring_eqb (job_status job) (c :: st)) jobs
    | _ => jobs
    end in
  let jobs :=
    sortBy (fun a b => N.leb (job_uploadedAt b) (job_uploadedAt a)) jobs in
  match limit with
  | Some (S n) => firstn (S n) jobs
  | _ => jobs
  end.

Definition getExtractedTablesByJobId (jobId : jsstring) (s : MemStorage)
  : list ExtractedTable :=
  sortBy (fun a b =>
            Nat.leb (tableIndex (tbl_table a)) (tableIndex (tbl_table b)))
         (filter (fun table => jsstring_eqb (tbl_jobId table) jobId)
                 (mapValues (extractedTables s))).

Definition getJobWithTables (id : jsstring) (s : MemStorage)
  : option (ProcessingJob * list ExtractedTable) :=
  match getProcessingJob id s with
  | None => None
  | Some job => Some (job, getExtractedTablesByJobId id s)
  end.

(** [createExtractedTable]; [id] and [now] as in [createProcessingJob]. *)
Definition createExtractedTable (id : jsstring) (now : Date)
    (jobId : jsstring) (table : TableDetectionResult) (s : MemStorage)
  : ExtractedTable * MemStorage :=
  let stored := mkExtracted id jobId table now in
  (stored, mkStorage (processingJobs s)
                     (mapSet id stored (extractedTables s))
                     (originalFiles s) (excelFiles s)).

Definition getExtractedTable (id : jsstring) (s : MemStorage)
  : option ExtractedTable :=
  mapGet id (extractedTables s).

Definition applyTableUpdate (existing : ExtractedTable)
    (updates : UpdateTableInput) : ExtractedTable :=
  let t := tbl_table existing in
  mkExtracted (tbl_id existing) (tbl_jobId existing)
    (mkTable (tableIndex t)
       (match upd_headers updates with Some v => v | None => headers t end)
       (match upd_data updates with Some v => v | None => data t end)
       (match upd_confidence updates with
        | Some v => Num.max (Fin 0) (Num.min (Fin 100) v)
        | None => confidence t
        end)
       (match upd_boundingBox updates with
        | Some v => v | None => boundingBox t end))
    (tbl_extractedAt existing).

Definition updateExtractedTable (id : jsstring) (updates : UpdateTableInput)
    (s : MemStorage) : option ExtractedTable * MemStorage :=
  match mapGet id (extractedTables s) with
  | None => (None, s)
  | Some existing =>
      let updated := applyTableUpdate existing updates in
      (Some updated,
       mkStorage (processingJobs s) (mapSet id updated (extractedTables s))
                 (originalFiles s) (excelFiles s))
  end.

Definition deleteExtractedTable (id : jsstring) (s : MemStorage)
  : bool * MemStorage :=
  (mapHas id (extractedTables s),
   mkStorage (processingJobs s) (mapDelete id (extractedTables s))
             (originalFiles s) (excelFiles s)).

Definition saveOriginalFile (jobId : jsstring) (file : OriginalFile)
    (s : MemStorage) : MemStorage :=
  mkStorage (processingJobs s) (extractedTables s)
            (mapSet jobId file (originalFiles s)) (excelFiles s).

Definition getOriginalFile (jobId : jsstring) (s : MemStorage)
  : option OriginalFile :=
  mapGet jobId (originalFiles s).

Definition deleteOriginalFile (jobId : jsstring) (s : MemStorage)
  : bool * MemStorage :=
  (mapHas jobId (originalFiles s),
   mkStorage (processingJobs s) (extractedTables s)
             (mapDelete jobId (originalFiles s)) (excelFiles s)).

(** [tableId ? `${jobId}:${tableId}` : jobId]; [null], [undefined] and ['']
    all give the key of the job. *)
Definition excelKey (jobId : jsstring) (tableId : option jsstring)
  : jsstring :=
  match tableId with
  | Some (c :: t) => jobId ++ lit ":" ++ (c :: t)
  | _ => jobId
  end.

Definition saveExcelFile (jobId : jsstring) (tableId : option jsstring)
    (buffer : Buffer) (s : MemStorage) : MemStorage :=
  mkStorage (processingJobs s) (extractedTables s) (originalFiles s)
            (mapSet (excelKey jobId tableId) buffer (excelFiles s)).

Definition getExcelFile (jobId : jsstring) (tableId : option jsstring)
    (s : MemStorage) : option Buffer :=
  mapGet (excelKey jobId tableId) (excelFiles s).

Definition deleteExcelFile (jobId : jsstring) (tableId : option jsstring)
    (s : MemStorage) : bool * MemStorage :=
  (mapHas (excelKey jobId tableId) (excelFiles s),
   mkStorage (processingJobs s) (extractedTables s) (originalFiles s)
             (mapDelete (excelKey jobId tableId) (excelFiles s))).

(** [deleteProcessingJob]: the tables of the job, its file, the Excel files
    whose key is the id or starts with the id and a colon, then the job. *)
Definition deleteProcessingJob (id : jsstring) (s : MemStorage)
  : bool * MemStorage :=
  let tables := getExtractedTablesByJobId id s in
  let extracted :=
    fold_left (fun m table => mapDelete (tbl_id table) m) tables
              (extractedTables s) in
  let files := mapDelete id (originalFiles s) in
  let keysToDelete :=
    filter (fun key => jsstring_eqb key id || startsWith key (id ++ lit ":"))
           (mapKeys (excelFiles s)) in
  let excel :=
    fold_left (fun m key => mapDelete key m) keysToDelete (excelFiles s) in
  (mapHas id (processingJobs s),
   mkStorage (mapDelete id (processingJobs s)) extracted files excel).

(** What [MemStorage] keeps true of itself: no key twice in a map, every
    job and every table stored under its own id. *)
Record storageOk (s : MemStorage) : Prop := mkStorageOk {
  ok_jobs_unique : NoDup (mapKeys (processingJobs s));
  ok_tables_unique : NoDup (mapKeys (extractedTables s));
  ok_files_unique : NoDup (mapKeys (originalFiles s));
  ok_excel_unique : NoDup (mapKeys (excelFiles s));
  ok_jobs_keyed :
    forall k job, In (k, job) (processingJobs s) -> job_id job = k;
  ok_tables_keyed :
    forall k table, In (k, table) (extractedTables s) -> tbl_id table = k
}.

(** Every stored progress lies in [[0, 100]]. *)
Definition progressBounded (s : MemStorage) : Prop :=
  forall k job, In (k, job) (processingJobs s) ->
                (0 <= job_progress job /\ job_progress job <= 100)%Q.

(** The order of [getExtractedTablesByJobId] and of
    [getAllProcessingJobs]. *)
Definition byTableIndex (a b : ExtractedTable) : Prop :=
  tableIndex (tbl_table a) <= tableIndex (tbl_table b).

Definition newestFirst (a b : ProcessingJob) : Prop :=
  (job_uploadedAt b <= job_uploadedAt a)%N.

(** An id without a colon, as the ids of [randomUUID] are. *)
Definition colon : code_unit := 58%N.
Definition noColon (id : jsstring) : Prop := ~ In colon id.

(** The table id as [excelKey] reads it: [''] is no table id. *)
Definition tableIdOf (tableId : option jsstring) : option jsstring :=
  match tableId with
  | Some (c :: t) => Some (c :: t)
  | _ => None
  end.

(* ================================================================== *)
(** ** [processJob] on the store *)
(* ================================================================== *)

(** The [Set] of the ids in progress. *)
Definition setHas (id : jsstring) (ids : list jsstring) : bool :=
  existsb (jsstring_eqb id) ids.

Definition setAdd (id : jsstring) (ids : list jsstring) : list jsstring :=
  if setHas id ids then ids else ids ++ [id].

Definition setDelete (id : jsstring) (ids : list jsstring) : list jsstring :=
  filter (fun i => negb (jsstring_eqb id i)) ids.

(** The processor with its store; [draws] counts the values taken from
    [randomUUID] and [new Date()]. *)
Record Processor : Type := mkProcessor {
  store : MemStorage;
  isProcessing : list jsstring;
  draws : nat
}.

(** How the promise of [processJob] ends. *)
Inductive Outcome : Type :=
| Resolved
| Rejected (message : jsstring).

(** What [performOCR] does: it returns a text or throws; the message is
    absent when the thrown value is not an [Error]. *)
Inductive OcrResult : Type :=
| OcrText (text : jsstring)
| OcrThrows (message : option jsstring).

Definition statusProcessing : jsstring := lit "processing".
Definition statusCompleted : jsstring := lit "completed".
Definition statusFailed : jsstring := lit "failed".
Definition statusPending : jsstring := lit "pending".

(** [error instanceof Error ? error.message : 'Unknown error occurred'] *)
Definition errorText (message : option jsstring) : jsstring :=
  match message with
  | Some m => m
  | None => lit "Unknown error occurred"
  end.

(** [updateProgress]: the progress alone is updated. *)
Definition updateProgress (jobId : jsstring) (progress : Q) (s : MemStorage)
  : MemStorage :=
  snd (updateProcessingJob jobId (mkJobUpdate None (Some progress) None None)
                           s).

Section ProcessJob.

(** The collaborators: [pdfjs] reading a buffer, the OCR, the ids and the
    dates. *)
Variable getDocument : Buffer -> option (list (list Item)).
Variable performOCR : Buffer -> jsstring -> OcrResult.
Variable randomUUID : nat -> jsstring.
Variable dateNow : nat -> Date.

(** The loop that saves the tables. *)
Fixpoint saveTables (jobId : jsstring) (tables : list TableDetectionResult)
    (s : MemStorage) (n : nat) : MemStorage * nat :=
  match tables with
  | [] => (s, n)
  | table :: rest =>
      saveTables jobId rest
        (snd (createExtractedTable (randomUUID n) (dateNow n) jobId table s))
        (S n)
  end.

(** The [catch] branch. *)
Definition failJob (jobId : jsstring) (message : option jsstring)
    (s : MemStorage) : MemStorage :=
  snd (updateProcessingJob jobId
         (mkJobUpdate (Some statusFailed) (Some 0%Q) None
                      (Some (Some (errorText message))))
         s).

(** The [try] block: the store and the number of draws at its end.
    [ocrLanguage] is [options.ocrLanguage], absent or [''] when falsy. *)
Definition processJobBody (jobId : jsstring) (ocrLanguage : option jsstring)
    (options : ProcessingOptions) (s : MemStorage) (n : nat)
  : MemStorage * nat :=
  let s :=
    snd (updateProcessingJob jobId
           (mkJobUpdate (Some statusProcessing) (Some 0%Q) None None) s) in
  match getOriginalFile jobId s with
  | None => (failJob jobId (Some (lit "Original PDF file not found")) s, n)
  | Some originalFile =>
      let buffer := file_buffer originalFile in
      let s := updateProgress jobId 10 s in
      let pdfText := extractTextFromPDF (getDocument buffer) in
      let ocr :=
        match ocrLanguage with
        | Some (c :: language) =>
            (updateProgress jobId 40 s, performOCR buffer (c :: language))
        | _ => (s, OcrText [])
        end in
      match snd ocr with
      | OcrThrows message => (failJob jobId message (fst ocr), n)
      | OcrText ocrText =>
          let s := updateProgress jobId 60 (fst ocr) in
          let combinedText := combineTextSources pdfText ocrText in
          let s := updateProgress jobId 80 s in
          let tables :=
            processJobTables (getDocument buffer) combinedText options in
          let s := updateProgress jobId 95 s in
          let saved := saveTables jobId tables s n in
          let s := updateProgress jobId 100 (fst saved) in
          (snd (updateProcessingJob jobId
                  (mkJobUpdate (Some statusCompleted) (Some 100%Q)
                               (Some (Some (dateNow (snd saved)))) None)
                  s),
           S (snd saved))
      end
  end.

(** [processJob]: the guard throws before the [try]; the [finally] takes
    the id out of the set again. *)
Definition processJob (jobId : jsstring) (ocrLanguage : option jsstring)
    (options : ProcessingOptions) (p : Processor) : Outcome * Processor :=
  if setHas jobId (isProcessing p) then
    (Rejected (lit "Job is already being processed"), p)
  else
    let body := processJobBody jobId ocrLanguage options (store p) (draws p) in
    (Resolved,
     mkProcessor (fst body)
                 (setDelete jobId (setAdd jobId (isProcessing p)))
                 (snd body)).

(** The tables a successful run computes for a stored file. *)
Definition tablesFor (originalFile : OriginalFile)
    (ocrLanguage : option jsstring) (options : ProcessingOptions)
  : option (list TableDetectionResult) :=
  let buffer := file_buffer originalFile in
  let ocr :=
    match ocrLanguage with
    | Some (c :: language) => performOCR buffer (c :: language)
    | _ => OcrText []
    end in
  match ocr with
  | OcrThrows _ => None
  | OcrText ocrText =>
      Some (processJobTables (getDocument buffer)
              (combineTextSources
                 (extractTextFromPDF (getDocument buffer)) ocrText)
              options)
  end.

End ProcessJob.

Section StoredTables.
Variable randomUUID : nat -> jsstring.
Variable dateNow : nat -> Date.

(** The tables as [saveTables] stores them, the first one with draw [n]. *)
Fixpoint storedTables (jobId : jsstring) (n : nat)
    (tables : list TableDetectionResult) : list ExtractedTable :=
  match tables with
  | [] => []
  | table :: rest =>
      mkExtracted (randomUUID n) jobId table (dateNow n)
      :: storedTables jobId (S n) rest
  end.
End StoredTables.

(** The ids drawn for [k] tables from draw [n] on are new: distinct, and
    none is the id of a stored table. *)
Definition freshIds (randomUUID : nat -> jsstring) (n k : nat)
    (s : MemStorage) : Prop :=
  NoDup (map randomUUID (seq n k)) /\
  forall i, In i (seq n k) ->
            ~ In (randomUUID i) (mapKeys (extractedTables s)).

(* ================================================================== *)
(** ** The reprocess route and the batch run *)
(* ================================================================== *)

(** [POST /api/jobs/:id/reprocess]: the tables of the job and the cached
    Excel files of the job and of these tables are deleted, then the job is
    reset.  [None] is the answer 404. *)
Definition reprocess (id : jsstring) (s : MemStorage) : option MemStorage :=
  match getProcessingJob id s with
  | None => None
  | Some _ =>
      let tables := getExtractedTablesByJobId id s in
      let s :=
        fold_left (fun s table => snd (deleteExtractedTable (tbl_id table) s))
                  tables s in
      let s := snd (deleteExcelFile id None s) in
      let s :=
        fold_left
          (fun s table => snd (deleteExcelFile id (Some (tbl_id table)) s))
          tables s in
      Some (snd (updateProcessingJob id
                   (mkJobUpdate (Some statusPending) (Some 0%Q) (Some None)
                                (Some None))
                   s))
  end.

(** The [PDFProcessor] of [server/pdf-processor.ts]: no text is read from
    the PDF, the OCR always runs, and the tables are those of the
    text-pattern detector alone. *)
Module Server.
Section ProcessJob.
Variable performOCR : Buffer -> jsstring -> OcrResult.
Variable randomUUID : nat -> jsstring.
Variable dateNow : nat -> Date.

(** [options.ocrLanguage || 'eng'] *)
Definition languageOf (ocrLanguage : option jsstring) : jsstring :=
  match ocrLanguage with
  | Some (c :: language) => c :: language
  | _ => lit "eng"
  end.

Definition processJobBody (jobId : jsstring) (ocrLanguage : option jsstring)
    (options : ProcessingOptions) (s : MemStorage) (n : nat)
  : MemStorage * nat :=
  let s :=
    snd (updateProcessingJob jobId
           (mkJobUpdate (Some statusProcessing) (Some 0%Q) None None) s) in
  match getOriginalFile jobId s with
  | None => (failJob jobId (Some (lit "Original PDF file not found")) s, n)
  | Some originalFile =>
      let buffer := file_buffer originalFile in
      let s := updateProgress jobId 10 s in
      let pdfText : jsstring := [] in
      let s := updateProgress jobId 40 s in
      match performOCR buffer (languageOf ocrLanguage) with
      | OcrThrows message => (failJob jobId message s, n)
      | OcrText ocrText =>
          let s := updateProgress jobId 60 s in
          let combinedText := combineTextSources pdfText ocrText in
          let s := updateProgress jobId 80 s in
          let tables :=
            detectTables combinedText (thresholdOf options)
                         (sensitivityOf options) in
          let s := updateProgress jobId 95 s in
          let saved := saveTables randomUUID dateNow jobId tables s n in
          let s := updateProgress jobId 100 (fst saved) in
          (snd (updateProcessingJob jobId
                  (mkJobUpdate (Some statusCompleted) (Some 100%Q)
                               (Some (Some (dateNow (snd saved)))) None)
                  s),
           S (snd saved))
      end
  end.

Definition processJob (jobId : jsstring) (ocrLanguage : option jsstring)
    (options : ProcessingOptions) (p : Processor) : Outcome * Processor :=
  if setHas jobId (isProcessing p) then
    (Rejected (lit "Job is already being processed"), p)
  else
    let body := processJobBody jobId ocrLanguage options (store p) (draws p) in
    (Resolved,
     mkProcessor (fst body)
                 (setDelete jobId (setAdd jobId (isProcessing p)))
                 (snd body)).

(** The tables a successful run computes for a stored file. *)
Definition tablesFor (originalFile : OriginalFile)
    (ocrLanguage : option jsstring) (options : ProcessingOptions)
  : option (list TableDetectionResult) :=
  match performOCR (file_buffer originalFile) (languageOf ocrLanguage) with
  | OcrThrows _ => None
  | OcrText ocrText =>
      Some (detectTables (combineTextSources [] ocrText)
              (thresholdOf options) (sensitivityOf options))
  end.
End ProcessJob.
End Server.

Section BatchRun.
(** [pdfProcessor.processJob] of the module [./pdf-processor] that the
    batch run imports. *)
Variable processJob :
  jsstring -> option jsstring -> ProcessingOptions -> Processor ->
  Outcome * Processor.
Variable randomUUID : nat -> jsstring.
Variable dateNow : nat -> Date.

(** [processPdfFile] of the batch run, from the file name and the bytes
    read: the job is created, the file saved, the job processed with the
    default options.  The id is returned when [processJob] resolves. *)
Definition processPdfFile (filename : jsstring) (buffer : Buffer)
    (p : Processor) : option jsstring * Processor :=
  let id := randomUUID (draws p) in
  let s :=
    snd (createProcessingJob id (dateNow (draws p))
           (mkInsertJob filename statusPending) (store p)) in
  let s :=
    saveOriginalFile id
      (mkFile buffer filename (lit "application/pdf") (List.length buffer))
      s in
  let run :=
    processJob id None (mkOptions None None)
               (mkProcessor s (isProcessing p) (S (draws p))) in
  match fst run with
  | Resolved => (Some id, snd run)
  | Rejected _ => (None, snd run)
  end.
End BatchRun.

(** The tables the processor with the layout detector computes for a
    buffer under the default options. *)
Definition batchTables (getDocument : Buffer -> option (list (list Item)))
    (buffer : Buffer) : list TableDetectionResult :=
  processJobTables (getDocument buffer)
    (combineTextSources (extractTextFromPDF (getDocument buffer)) [])
    (mkOptions None None).

(* ================================================================== *)
(** ** The Excel generator: column widths and sheet names *)
(* ================================================================== *)

(** [[table.headers || [], ...table.data]] *)
Definition worksheetData (table : TableDetectionResult)
  : list (list jsstring) :=
  headers table :: data table.

(** [Math.max(...data.map(row => row.length))] of rows that exist. *)
Definition maxCols (rows : list (list jsstring)) : nat :=
  fold_right Nat.max 0 (map (@List.length jsstring) rows).

(** The inner [forEach]: the cell at index [colIndex] widens
    [widths[colIndex]]; a cell beyond the widths is passed over. *)
Fixpoint widenColumns (row : list jsstring) (widths : list nat) : list nat :=
  match row, widths with
  | cell :: row', width :: widths' =>
      Nat.max width (Nat.min (List.length cell + 2) 50)
      :: widenColumns row' widths'
  | _, _ => widths
  end.

Definition calculateColumnWidths (rows : list (list jsstring)) : list nat :=
  match rows with
  | [] => []
  | _ =>
      fold_left (fun widths row => widenColumns row widths) rows
                (repeat 10 (maxCols rows))
  end.

(** [`Table ${table.tableIndex + 1}`] *)
Definition sheetName (table : TableDetectionResult) : jsstring :=
  lit "Table " ++ natToString (tableIndex table + 1).

(** What a cell asks of its column: its length and 2, at most 50. *)
Definition cellWidth (cell : jsstring) : nat :=
  Nat.min (List.length cell + 2) 50.

(** A cell without white space at either end, as [trim] leaves it. *)
Definition trimmed (cell : jsstring) : Prop := trim cell = cell.

Definition cellsTrimmed (t : TableDetectionResult) : Prop :=
  Forall trimmed (headers t) /\ Forall (Forall trimmed) (data t).

(** No white space in front; [tight]: none at either end. *)
Definition headOk (s : jsstring) : Prop :=
  match s with
  | [] => True
  | c :: _ => Char.isSpace c = false
  end.

Definition tight (s : jsstring) : Prop := headOk s /\ headOk (rev s).

(** [cell] is what is left of [line] without the white space at its two
    ends. *)
Definition strippedOf (line cell : jsstring) : Prop :=
  exists before after,
    line = before ++ cell ++ after /\
    forallb Char.isSpace before = true /\
    forallb Char.isSpace after = true /\
    tight cell.

(** The non-blank trimmed lines: one cell for every line that is not all
    white space, in the order of the lines. *)
Inductive nonBlankTrimmed : list jsstring -> list jsstring -> Prop :=
| nbt_nil : nonBlankTrimmed [] []
| nbt_blank (line : jsstring) (lines cells : list jsstring) :
    forallb Char.isSpace line = true ->
    nonBlankTrimmed lines cells ->
    nonBlankTrimmed (line :: lines) cells
| nbt_line (line cell : jsstring) (lines cells : list jsstring) :
    cell <> [] ->
    strippedOf line cell ->
    nonBlankTrimmed lines cells ->
    nonBlankTrimmed (line :: lines) (cell :: cells).

(** A line of a text holds no line feed. *)
Definition oneLine (line : jsstring) : Prop := ~ In Char.newline line.

(* ================================================================== *)
(** ** Regular expressions: the matcher is sound and complete *)
(* ================================================================== *)

Lemma Lang_Void (s : jsstring) : ~ Lang Void s.
Proof. intro H; inversion H. Qed.

Lemma Lang_Eps_inv (s : jsstring) : Lang Eps s -> s = [].
Proof. intro H; inversion H; reflexivity. Qed.

Lemma Lang_Class_inv (p : code_unit -> bool) (s : jsstring) :
  Lang (Class p) s -> exists c, s = [c] /\ p c = true.
Proof. intro H; inversion H; subst; eauto. Qed.

Lemma Lang_Cat_inv (r1 r2 : regex) (s : jsstring) :
  Lang (Cat r1 r2) s ->
  exists s1 s2, s = s1 ++ s2 /\ Lang r1 s1 /\ Lang r2 s2.
Proof. intro H; inversion H; subst; eauto. Qed.

Lemma Lang_Alt_inv (r1 r2 : regex) (s : jsstring) :
  Lang (Alt r1 r2) s -> Lang r1 s \/ Lang r2 s.
Proof. intro H; inversion H; subst; auto. Qed.

Lemma Lang_Cat_nil_l (r1 r2 : regex) (s : jsstring) :
  Lang r1 [] -> Lang r2 s -> Lang (Cat r1 r2) s.
Proof. intros H1 H2. change s with ([] ++ s). constructor; assumption. Qed.

Lemma Lang_Cat_cons (r1 r2 : regex) (c : code_unit) (s1 s2 : jsstring) :
  Lang r1 (c :: s1) -> Lang r2 s2 -> Lang (Cat r1 r2) (c :: s1 ++ s2).
Proof.
  intros H1 H2. change (c :: s1 ++ s2) with ((c :: s1) ++ s2).
  constructor; assumption.
Qed.

Lemma nullable_Lang (r : regex) : nullable r = true <-> Lang r [].
Proof.
  induction r as [| |p|r1 IH1 r2 IH2|r1 IH1 r2 IH2|r IH]; simpl.
  - split; [discriminate | intro H; inversion H].
  - split; [constructor | reflexivity].
  - split; [discriminate | intro H; inversion H].
  - rewrite andb_true_iff, IH1, IH2. split.
    + intros [H1 H2]. apply Lang_Cat_nil_l; assumption.
    + intro H. apply Lang_Cat_inv in H as (s1 & s2 & E & L1 & L2).
      symmetry in E. apply app_eq_nil in E as [-> ->]. auto.
  - rewrite orb_true_iff, IH1, IH2. split.
    + intros [H | H]; [apply LAltL | apply LAltR]; assumption.
    + apply Lang_Alt_inv.
  - split; [constructor | reflexivity].
Qed.

Lemma cat_Lang (r1 r2 : regex) (s : jsstring) :
  Lang (cat r1 r2) s <-> Lang (Cat r1 r2) s.
Proof.
  split; intro H.
  - destruct r1; simpl in H; try (inversion H; fail);
      destruct r2; simpl in H; try (inversion H; fail); try exact H;
      apply Lang_Cat_nil_l; solve [constructor | exact H].
  - apply Lang_Cat_inv in H as (s1 & s2 & -> & L1 & L2).
    destruct r1; try (inversion L1; fail);
      destruct r2; try (inversion L2; fail); simpl;
      try (constructor; assumption);
      apply Lang_Eps_inv in L1; subst; simpl; exact L2.
Qed.

Lemma alt_Lang (r1 r2 : regex) (s : jsstring) :
  Lang (alt r1 r2) s <-> Lang (Alt r1 r2) s.
Proof.
  split; intro H.
  - destruct r1; simpl in H;
      try (apply LAltR; exact H);
      destruct r2; simpl in H; try exact H; apply LAltL; exact H.
  - apply Lang_Alt_inv in H as [H | H].
    + destruct r1; try (inversion H; fail); destruct r2; simpl;
        try assumption; apply LAltL; assumption.
    + destruct r1; simpl; try assumption;
        destruct r2; try (inversion H; fail); apply LAltR; assumption.
Qed.

(** A non-empty string of [r*] starts with a non-empty string of [r]. *)
Lemma Lang_Star_cons (r : regex) (c : code_unit) (s : jsstring) :
  Lang (Star r) (c :: s) ->
  exists s1 s2, s = s1 ++ s2 /\ Lang r (c :: s1) /\ Lang (Star r) s2.
Proof.
  intro H. remember (Star r) as r' eqn:Er. remember (c :: s) as w eqn:Ew.
  induction H as [| | | | | |r0 s1 s2 L1 _ L2 IH2]; try discriminate.
  injection Er as ->. destruct s1 as [|d s1].
  - simpl in Ew. apply IH2; [reflexivity | exact Ew].
  - simpl in Ew. injection Ew as -> <-. exists s1, s2. auto.
Qed.

Lemma deriv_Lang (r : regex) (c : code_unit) (s : jsstring) :
  Lang (deriv c r) s <-> Lang r (c :: s).
Proof.
  revert s. induction r as [| |p|r1 IH1 r2 IH2|r1 IH1 r2 IH2|r IH];
    intro s; simpl.
  - split; intro H; inversion H.
  - split; intro H; inversion H.
  - split; intro H.
    + destruct (p c) eqn:E; [| inversion H].
      apply Lang_Eps_inv in H; subst. constructor; exact E.
    + apply Lang_Class_inv in H as (d & E & P).
      injection E as -> ->. rewrite P. constructor.
  - rewrite alt_Lang. split; intro H.
    + apply Lang_Alt_inv in H as [L | L].
      * apply cat_Lang, Lang_Cat_inv in L as (s1 & s2 & -> & L1 & L2).
        apply Lang_Cat_cons; [apply IH1 |]; assumption.
      * destruct (nullable r1) eqn:N; [| inversion L].
        apply Lang_Cat_nil_l; [apply nullable_Lang | apply IH2]; assumption.
    + apply Lang_Cat_inv in H as (s1 & s2 & E & L1 & L2).
      destruct s1 as [|d s1]; simpl in E.
      * subst s2. apply LAltR.
        apply nullable_Lang in L1. rewrite L1. apply IH2; assumption.
      * injection E as <- ->. apply LAltL, cat_Lang.
        constructor; [apply IH1 |]; assumption.
  - rewrite alt_Lang. split; intro H.
    + apply Lang_Alt_inv in H as [H | H];
        [apply LAltL, IH1 | apply LAltR, IH2]; assumption.
    + apply Lang_Alt_inv in H as [H | H];
        [apply LAltL, IH1 | apply LAltR, IH2]; assumption.
  - rewrite cat_Lang. split; intro H.
    + apply Lang_Cat_inv in H as (s1 & s2 & -> & L1 & L2).
      change (c :: s1 ++ s2) with ((c :: s1) ++ s2).
      apply LStarApp; [apply IH |]; assumption.
    + apply Lang_Star_cons in H as (s1 & s2 & -> & L1 & L2).
      constructor; [apply IH |]; assumption.
Qed.

Lemma matches_Lang (r : regex) (s : jsstring) :
  matches r s = true <-> Lang r s.
Proof.
  revert r. induction s as [|c s IH]; intro r; simpl.
  - apply nullable_Lang.
  - rewrite IH. apply deriv_Lang.
Qed.

Lemma matchesPrefix_Lang (r : regex) (s : jsstring) :
  matchesPrefix r s = true <-> exists m b, s = m ++ b /\ Lang r m.
Proof.
  revert r. induction s as [|c s IH]; intro r; simpl.
  - rewrite orb_false_r, nullable_Lang. split.
    + intro H. exists [], []. auto.
    + intros (m & b & E & L). symmetry in E.
      apply app_eq_nil in E as [-> _]. exact L.
  - rewrite orb_true_iff, nullable_Lang, IH. split.
    + intros [H | (m & b & -> & L)].
      * exists [], (c :: s). auto.
      * exists (c :: m), b. split; [reflexivity | apply deriv_Lang, L].
    + intros (m & b & E & L). destruct m as [|d m]; [left; exact L |].
      simpl in E. injection E as <- ->. right.
      exists m, b. split; [reflexivity | apply deriv_Lang, L].
Qed.

Lemma search_Lang (r : regex) (s : jsstring) :
  search r s = true <-> exists a m b, s = a ++ m ++ b /\ Lang r m.
Proof.
  induction s as [|c s IH]; cbn [search].
  - rewrite orb_false_r, matchesPrefix_Lang. split.
    + intros (m & b & E & L). exists [], m, b. auto.
    + intros (a & m & b & E & L). symmetry in E.
      apply app_eq_nil in E as [-> E]. exists m, b. auto.
  - rewrite orb_true_iff, matchesPrefix_Lang, IH. split.
    + intros [(m & b & E & L) | (a & m & b & -> & L)].
      * exists [], m, b. auto.
      * exists (c :: a), m, b. auto.
    + intros (a & m & b & E & L). destruct a as [|d a]; simpl in E.
      * left. exists m, b. auto.
      * injection E as <- ->. right. exists a, m, b. auto.
Qed.

(** [test] of a pattern without anchors. *)
Lemma test_re (r : regex) (s : jsstring) :
  test (re r) s = true <-> exists a m b, s = a ++ m ++ b /\ Lang r m.
Proof. apply search_Lang. Qed.

(** Weakening a pattern without anchors: when every string of [r] starts
    with a string of [r'], a line accepted by [r] is accepted by [r']. *)
Lemma test_re_weaken (r r' : regex) :
  (forall m, Lang r m -> exists m1 m2, m = m1 ++ m2 /\ Lang r' m1) ->
  forall s, test (re r) s = true -> test (re r') s = true.
Proof.
  intros W s H. apply test_re in H as (a & m & b & -> & L).
  apply W in L as (m1 & m2 & -> & L1).
  apply test_re. exists a, m1, (m2 ++ b).
  rewrite <- app_assoc. auto.
Qed.

Lemma AtLeast_weaken (n : nat) (r : regex) (m : jsstring) :
  Lang (AtLeast (S n) r) m -> Lang (AtLeast n r) m.
Proof.
  revert m. induction n as [|n IH]; intros m H; simpl in *.
  - apply Lang_Cat_inv in H as (s1 & s2 & -> & L1 & L2).
    apply LStarApp; assumption.
  - apply Lang_Cat_inv in H as (s1 & s2 & -> & L1 & L2).
    constructor; [assumption | apply IH; assumption].
Qed.

(* ================================================================== *)
(** ** Line classification *)
(* ================================================================== *)

Section Classification.
Import Char.
Local Open Scope regex_scope.

Lemma three_imply_two (k : code_unit) (s : jsstring) :
  test (re (chr k @@ dotStar @@ chr k @@ dotStar @@ chr k)) s = true ->
  test (re (chr k @@ dotStar @@ chr k)) s = true.
Proof.
  apply test_re_weaken. intros m L.
  apply Lang_Cat_inv in L as (c1 & ma & -> & K1 & L).
  apply Lang_Cat_inv in L as (u & mb & -> & D1 & L).
  apply Lang_Cat_inv in L as (c2 & mc & -> & K2 & L).
  exists (c1 ++ u ++ c2), mc. split.
  - rewrite <- !app_assoc. reflexivity.
  - repeat constructor; assumption.
Qed.

Lemma two_imply_one (k : code_unit) (s : jsstring) :
  test (re (chr k @@ dotStar @@ chr k)) s = true ->
  test (re (chr k)) s = true.
Proof.
  apply test_re_weaken. intros m L.
  apply Lang_Cat_inv in L as (c1 & ma & -> & K1 & L). eauto.
Qed.

Lemma spaces3_imply_spaces2 (s : jsstring) :
  test Pat.spaces3 s = true -> test Pat.spaces2 s = true.
Proof.
  apply test_re_weaken. intros m L. exists m, []. rewrite app_nil_r.
  split; [reflexivity |].
  apply Lang_Cat_inv in L as (m1 & ma & -> & S1 & L).
  apply Lang_Cat_inv in L as (u & m2 & -> & D & S2).
  constructor; [apply AtLeast_weaken, S1 |].
  constructor; [exact D | apply AtLeast_weaken, S2].
Qed.
End Classification.

(** C4, as amended.  A line that is table-like at sensitivity [low] is
    table-like at [medium] and at [high].  A line that [medium] accepts
    through its pipe, tab or space-run pattern is table-like at [high].
    (The fourth pattern of [medium], the one for numbers and currency, has no
    counterpart at [high].) *)
Theorem sensitivity_nesting (line : jsstring) :
  (isTableLine line low = true -> isTableLine line medium = true) /\
  (isTableLine line low = true -> isTableLine line high = true) /\
  (existsb (fun p => test p line) [Pat.pipe2; Pat.tab2; Pat.spaces3] = true ->
   isTableLine line high = true).
Proof.
  unfold isTableLine; simpl. repeat split; intro H.
  - apply orb_prop in H as [H | H].
    + apply three_imply_two in H. unfold Pat.pipe2. rewrite H. reflexivity.
    + rewrite orb_false_r in H. apply three_imply_two in H.
      unfold Pat.tab2. rewrite H. apply orb_true_r.
  - apply orb_prop in H as [H | H].
    + apply three_imply_two, two_imply_one in H.
      unfold Pat.pipe1. rewrite H. reflexivity.
    + rewrite orb_false_r in H. apply three_imply_two, two_imply_one in H.
      unfold Pat.tab1. rewrite H. apply orb_true_r.
  - apply orb_prop in H as [H | H]; [| apply orb_prop in H as [H | H]].
    + apply two_imply_one in H. unfold Pat.pipe1. rewrite H. reflexivity.
    + apply two_imply_one in H. unfold Pat.tab1. rewrite H.
      apply orb_true_r.
    + rewrite orb_false_r in H. apply spaces3_imply_spaces2 in H.
      rewrite H. rewrite !orb_true_r. reflexivity.
Qed.

Lemma sensitivity_nesting_witness :
  isTableLine (lit "a|b|c|d") medium = true /\
  isTableLine (lit "a|b|c|d") high = true /\
  isTableLine (lit "x   y   z") high = true.
Proof.
  destruct (sensitivity_nesting (lit "a|b|c|d")) as (H1 & H2 & _).
  destruct (sensitivity_nesting (lit "x   y   z")) as (_ & _ & H3).
  split; [apply H1; reflexivity |].
  split; [apply H2; reflexivity | apply H3; reflexivity].
Defined.

(** C4, as stated, fails: the line [12] is table-like at [medium] (two
    characters of [[\$\d,]]) and is not table-like at [high]. *)
Lemma medium_line_rejected_at_high :
  isTableLine (lit "12") medium = true /\ isTableLine (lit "12") high = false.
Proof. split; reflexivity. Qed.

(* ================================================================== *)
(** ** Blocks of the text-pattern detector *)
(* ================================================================== *)

Section Blocks.
Variable confidenceThreshold : Q.
Variable sensitivity : Sensitivity.

Lemma detectStep_closes (st : DetectState) (n : jsstring) :
  isTableLine n sensitivity = false ->
  idle (detectStep confidenceThreshold sensitivity st n).
Proof.
  intro H. unfold detectStep, idle. rewrite H. simpl.
  destruct (inTable st && (1 <? List.length (currentTable st))).
  - destruct (accepted _ _ _); split; reflexivity.
  - split; reflexivity.
Qed.

Lemma lone_line_then_closed (st : DetectState) (l n : jsstring) :
  idle st -> isTableLine l sensitivity = true ->
  isTableLine n sensitivity = false ->
  detectStep confidenceThreshold sensitivity
  (detectStep confidenceThreshold sensitivity st l) n
= detectStep confidenceThreshold sensitivity st n.
Proof.
  intros [I C] Hl Hn. destruct st as [T cur i b]. simpl in I, C. subst.
  unfold detectStep. simpl. rewrite Hl. simpl. rewrite Hn.
  reflexivity.
Qed.

Lemma lone_line_then_end (st : DetectState) (l : jsstring) :
  idle st -> isTableLine l sensitivity = true ->
  detectFinish confidenceThreshold
    (detectStep confidenceThreshold sensitivity st l)
  = detectFinish confidenceThreshold st.
Proof.
  intros [I C] Hl. destruct st as [T cur i b]. simpl in I, C. subst.
  unfold detectStep, detectFinish. simpl. rewrite Hl. reflexivity.
Qed.

Lemma idle_after (pre : list jsstring) :
  closedBefore sensitivity pre ->
  idle (fold_left (detectStep confidenceThreshold sensitivity) pre
        (mkState [] [] 0 false)).
Proof.
  intros [-> | (pre' & n & -> & H)].
  - split; reflexivity.
  - rewrite fold_left_app. simpl. apply detectStep_closes, H.
Qed.
End Blocks.

(** C9.  A block of fewer than two lines gives no table: [parseTable]
    refuses it, a text of one line yields nothing, and a table-like line
    standing alone between lines that are not table-like (or the ends of the
    input) leaves the result of the detector as if the line were absent. *)
Theorem lone_table_line_yields_nothing
    (confidenceThreshold : Q) (sensitivity : Sensitivity) :
  (forall block index,
      List.length block < 2 ->
      parseTable block index confidenceThreshold = None) /\
  (forall l, detectLines [l] confidenceThreshold sensitivity = []) /\
  (forall pre l post,
      isTableLine l sensitivity = true ->
      closedBefore sensitivity pre -> closedAfter sensitivity post ->
      detectLines (pre ++ l :: post) confidenceThreshold sensitivity
      = detectLines (pre ++ post) confidenceThreshold sensitivity).
Proof.
  repeat split.
  - intros block index H. unfold parseTable.
    apply Nat.ltb_lt in H. rewrite H. reflexivity.
  - intro l. unfold detectLines, detectStep, detectFinish. simpl.
    destruct (isTableLine l sensitivity); reflexivity.
  - intros pre l post Hl Hpre Hpost. unfold detectLines.
    rewrite !fold_left_app. simpl.
    pose proof (idle_after confidenceThreshold sensitivity pre Hpre) as I.
    destruct Hpost as [-> | (n & post' & -> & Hn)]; simpl.
    + apply lone_line_then_end; assumption.
    + rewrite lone_line_then_closed by assumption. reflexivity.
Qed.

Lemma lone_table_line_yields_nothing_witness :
  parseTable [lit "a | b | c"] 0 70 = None /\
  detectLines [lit "intro"; lit "a | b | c"; lit "outro"] 70 medium
  = detectLines [lit "intro"; lit "outro"] 70 medium.
Proof.
  destruct (lone_table_line_yields_nothing 70 medium) as (H1 & _ & H3).
  split.
  - apply H1. simpl. lia.
  - apply (H3 [lit "intro"] (lit "a | b | c") [lit "outro"]).
    + reflexivity.
    + right. exists [], (lit "intro"). split; reflexivity.
    + right. exists (lit "outro"), []. split; reflexivity.
Defined.

(** C7.  The regional-sales scenario: at sensitivity [medium] and threshold
    70 the three lines give exactly one table, with the four headers of the
    first line, two data rows and a confidence of at least 70 (it is 100). *)
Theorem regional_sales_scenario :
  exists t,
    detectTables (join [Char.newline] regionalSalesLines) 70 medium = [t] /\
    headers t = [lit "Region"; lit "Sales Target"; lit "Actual Sales";
                 lit "Status"] /\
    List.length (data t) = 2 /\
    confidence t = Fin 100 /\
    Num.geb (confidence t) (Fin 70) = true.
Proof.
  eexists. split; [vm_compute; reflexivity |].
  repeat split.
Qed.

(* ================================================================== *)
(** ** Numbers *)
(* ================================================================== *)

Lemma Qltb_true (a b : Q) : Qltb a b = true <-> (a < b)%Q.
Proof.
  unfold Qltb. rewrite negb_true_iff. split; intro H.
  - apply Qnot_le_lt. intro L. apply Qle_bool_iff in L. congruence.
  - destruct (Qle_bool b a) eqn:E; [| reflexivity].
    apply Qle_bool_iff in E. exfalso. exact (Qlt_not_le _ _ H E).
Qed.

Lemma Qltb_false (a b : Q) : Qltb a b = false <-> (b <= a)%Q.
Proof.
  unfold Qltb. rewrite negb_false_iff. apply Qle_bool_iff.
Qed.

(** [Math.max(lo, Math.min(hi, c))] is [NaN] or lies in [[lo, hi]]. *)
Lemma clamp_within (lo hi : Q) (c : jsnum) :
  (lo <= hi)%Q ->
  Num.max (Fin lo) (Num.min (Fin hi) c) = NaN \/
  Num.within lo hi (Num.max (Fin lo) (Num.min (Fin hi) c)).
Proof.
  intro B. destruct c as [q | | |]; simpl.
  - right. destruct (Qltb q hi) eqn:E1; simpl.
    + destruct (Qltb lo q) eqn:E2; simpl.
      * apply Qltb_true in E1, E2. split; apply Qlt_le_weak; assumption.
      * split; [apply Qle_refl | exact B].
    + destruct (Qltb lo hi) eqn:E2; simpl.
      * split; [exact B | apply Qle_refl].
      * split; [apply Qle_refl | exact B].
  - right. destruct (Qltb lo hi) eqn:E2; simpl.
    + split; [exact B | apply Qle_refl].
    + split; [apply Qle_refl | exact B].
  - right. simpl. split; [apply Qle_refl | exact B].
  - left. reflexivity.
Qed.

Lemma within_weaken (lo lo' hi : Q) (c : jsnum) :
  (lo' <= lo)%Q -> Num.within lo hi c -> Num.within lo' hi c.
Proof.
  intros L. destruct c; simpl; try tauto.
  intros [A B]. split; [eapply Qle_trans; eassumption | exact B].
Qed.

Lemma geb_not_NaN (c : jsnum) (q : Q) : Num.geb c (Fin q) = true -> c <> NaN.
Proof. intros H E. subst. discriminate. Qed.

(* ================================================================== *)
(** ** [parseTable]: normalisation and score *)
(* ================================================================== *)

Lemma padRow_closed (fuel maxColumns : nat) (row : list jsstring) :
  padRow fuel maxColumns row
  = row ++ repeat [] (Nat.min fuel (maxColumns - List.length row)).
Proof.
  revert row. induction fuel as [|fuel IH]; intro row; simpl.
  - rewrite app_nil_r. reflexivity.
  - destruct (List.length row <? maxColumns) eqn:E.
    + apply Nat.ltb_lt in E. rewrite IH, length_app. simpl.
      rewrite <- app_assoc. f_equal.
      replace (maxColumns - List.length row)
        with (S (maxColumns - (List.length row + 1))) by lia.
      reflexivity.
    + apply Nat.ltb_ge in E.
      replace (maxColumns - List.length row) with 0 by lia.
      rewrite app_nil_r. reflexivity.
Qed.

(** The row after the loop and the slice: padded with [''] when short, cut
    when long, and always of [maxColumns] cells. *)
Lemma normalizeRow_spec (maxColumns : nat) (row : list jsstring) :
  List.length (normalizeRow maxColumns row) = maxColumns /\
  (List.length row <= maxColumns ->
   normalizeRow maxColumns row
   = row ++ repeat [] (maxColumns - List.length row)) /\
  (maxColumns <= List.length row ->
   normalizeRow maxColumns row = firstn maxColumns row).
Proof.
  unfold normalizeRow. rewrite padRow_closed.
  replace (Nat.min maxColumns (maxColumns - List.length row))
    with (maxColumns - List.length row) by lia.
  repeat split.
  - rewrite length_firstn, length_app, repeat_length. lia.
  - intro H. apply firstn_all2. rewrite length_app, repeat_length. lia.
  - intro H. replace (maxColumns - List.length row) with 0 by lia.
    simpl. rewrite app_nil_r. reflexivity.
Qed.

Lemma parseTable_shape (lines : list jsstring) (index : nat) (thr : Q)
    (t : TableDetectionResult) :
  parseTable lines index thr = Some t ->
  rowsMatchHeaders t /\
  confidence t = calculateTableConfidence (headers t) (data t).
Proof.
  unfold parseTable. cbv zeta.
  destruct (List.length lines <? 2); [discriminate |].
  destruct (List.length (filter _ _) <? 2); [discriminate |].
  destruct (Num.ltb _ _); [discriminate |].
  intro H. injection H as <-. unfold rowsMatchHeaders. simpl.
  split; [| reflexivity].
  apply Forall_forall. intros row Hin.
  apply in_map_iff in Hin as (row0 & <- & _).
  apply normalizeRow_spec.
Qed.

Lemma calculateTableConfidence_range (hs : list jsstring)
    (d : list (list jsstring)) :
  calculateTableConfidence hs d = NaN \/
  Num.within 30 100 (calculateTableConfidence hs d).
Proof. apply clamp_within. discriminate. Qed.

Lemma NonOcrVariant_range (hs : list jsstring) (d : list (list jsstring)) :
  NonOcrVariant.calculateTableConfidence hs d = NaN \/
  Num.within 0 100 (NonOcrVariant.calculateTableConfidence hs d).
Proof. apply clamp_within. discriminate. Qed.

Lemma accepted_shape (block : list jsstring) (index : nat) (thr : Q)
    (t : TableDetectionResult) :
  accepted block index thr = Some t ->
  rowsMatchHeaders t /\ Num.within 30 100 (confidence t).
Proof.
  unfold accepted. destruct (parseTable block index thr) as [t0|] eqn:E;
    [| discriminate].
  destruct (Num.geb (confidence t0) (Fin thr)) eqn:G; [| discriminate].
  intro H. injection H as <-.
  apply parseTable_shape in E as [R C]. split; [exact R |].
  apply geb_not_NaN in G. rewrite C in *.
  destruct (calculateTableConfidence_range (headers t0) (data t0));
    [contradiction | assumption].
Qed.

Section DetectInvariant.
Variable P : TableDetectionResult -> Prop.
Variable thr : Q.
Variable sensitivity : Sensitivity.
Hypothesis accepted_P :
  forall block index t, accepted block index thr = Some t -> P t.

Lemma detectStep_tables (st : DetectState) (line : jsstring) :
  Forall P (tables st) ->
  Forall P (tables (detectStep thr sensitivity st line)).
Proof.
  intro H. unfold detectStep.
  repeat match goal with
         | |- context [if ?c then _ else _] => destruct c; simpl; try exact H
         end.
  destruct (accepted _ _ _) eqn:E; simpl; [| exact H].
  apply Forall_app. split; [exact H |].
  constructor; [eapply accepted_P, E | constructor].
Qed.

Lemma detectLines_tables (lines : list jsstring) :
  Forall P (detectLines lines thr sensitivity).
Proof.
  unfold detectLines.
  assert (I : Forall P (tables (mkState [] [] 0 false))) by constructor.
  revert I. generalize (mkState [] [] 0 false).
  induction lines as [|l lines IH]; intros st I; simpl.
  - unfold detectFinish.
    destruct (inTable st && _); [| exact I].
    destruct (accepted _ _ _) eqn:E; [| exact I].
    apply Forall_app. split; [exact I |].
    constructor; [eapply accepted_P, E | constructor].
  - apply IH, detectStep_tables, I.
Qed.
End DetectInvariant.

Lemma detectTables_shape (text : jsstring) (thr : Q) (s : Sensitivity) :
  Forall (fun t => rowsMatchHeaders t /\ Num.within 30 100 (confidence t))
         (detectTables text thr s).
Proof.
  unfold detectTables. apply detectLines_tables.
  intros block index t. apply accepted_shape.
Qed.

(* ================================================================== *)
(** ** The grid of the layout path *)
(* ================================================================== *)

Lemma fold_left_invariant {A B : Type} (P : A -> Prop) (f : A -> B -> A)
    (l : list B) (a : A) :
  (forall a b, P a -> P (f a b)) -> P a -> P (fold_left f l a).
Proof.
  intro Hf. revert a. induction l as [|b l IH]; intros a Ha; simpl.
  - exact Ha.
  - apply IH, Hf, Ha.
Qed.

Lemma setNth_length {A : Type} (i : nat) (v : A) (l : list A) :
  List.length (setNth i v l) = List.length l.
Proof.
  revert i. induction l as [|a l IH]; intros [|i]; simpl; auto.
Qed.

Lemma setNth_Forall {A : Type} (P : A -> Prop) (i : nat) (v : A)
    (l : list A) :
  Forall P l -> (i < List.length l -> P v) -> Forall P (setNth i v l).
Proof.
  intro H. revert i. induction H as [|a l Ha Hl IH]; intros [|i] Hv; simpl.
  - constructor.
  - constructor.
  - constructor; [apply Hv; simpl; lia | exact Hl].
  - constructor; [exact Ha |]. apply IH. intro Hi. apply Hv. simpl. lia.
Qed.

Section Grid.
Variable columns : list Column.

Lemma placeItem_wide (ri : nat) (grid : list (list jsstring)) (it : Item) :
  Forall (wide columns) grid ->
  Forall (wide columns) (placeItem columns ri grid it).
Proof.
  intro H. unfold placeItem. apply setNth_Forall; [exact H |].
  intro Hri. unfold wide. rewrite setNth_length.
  rewrite Forall_forall in H. apply H, nth_In, Hri.
Qed.

Lemma buildGrid_wide (rows : list Row) :
  Forall (wide columns) (buildGrid rows columns).
Proof.
  unfold buildGrid. apply fold_left_invariant.
  - intros grid [ri r] H. apply fold_left_invariant; [| exact H].
    intros g it. apply placeItem_wide.
  - apply Forall_forall. intros row Hin.
    apply in_map_iff in Hin as (r & <- & _).
    unfold wide. apply repeat_length.
Qed.
End Grid.

Lemma filter_combine_length {A : Type} (f : nat -> bool) (idx : list nat)
    (r : list A) :
  List.length idx = List.length r ->
  List.length (filter (fun p => f (fst p)) (combine idx r))
  = List.length (filter f idx).
Proof.
  revert r. induction idx as [|i idx IH]; intros [|a r] H;
    simpl in *; try discriminate; [reflexivity |].
  injection H as H. destruct (f i); simpl; rewrite (IH r H); reflexivity.
Qed.

Lemma filterByIndex_length {A : Type} (keep : list bool) (r : list A) :
  List.length (filterByIndex keep r)
  = List.length
      (filter (fun c => nth c keep false) (seq 0 (List.length r))).
Proof.
  unfold filterByIndex. rewrite length_map.
  apply (filter_combine_length (fun c => nth c keep false)).
  apply length_seq.
Qed.

(** The cleaned rows all have the same number of cells. *)
Lemma cleanGrid_uniform (n : nat) (grid : list (list jsstring)) :
  Forall (fun row => List.length row = n) grid ->
  exists m, Forall (fun row => List.length row = m) (cleanGrid grid).
Proof.
  intro H. unfold cleanGrid.
  set (rows := filter (existsb hasContent) grid).
  set (keep := map _ (seq 0 _)).
  exists (List.length (filter (fun c => nth c keep false) (seq 0 n))).
  apply Forall_forall. intros row Hin.
  apply in_map_iff in Hin as (r & <- & Hr).
  rewrite filterByIndex_length. unfold rows in Hr.
  apply filter_In in Hr as [Hr _].
  rewrite Forall_forall in H. rewrite (H r Hr). reflexivity.
Qed.

Lemma genericHeaders_length (n : nat) : List.length (genericHeaders n) = n.
Proof. unfold genericHeaders. rewrite length_map. apply length_seq. Qed.

Lemma layoutConfidence_consistent (hs : list jsstring)
    (d : list (list jsstring)) :
  Forall (fun row => List.length row = List.length hs) d ->
  forallb (fun r => Nat.eqb (List.length r) (List.length hs)) d = true /\
  layoutConfidence hs d
  = if List.length d <? List.length (filter hasContent (List.concat d))
    then Fin 90 else Fin 80.
Proof.
  intro H.
  assert (C : forallb (fun r => Nat.eqb (List.length r) (List.length hs)) d
              = true).
  { apply forallb_forall. intros r Hr. rewrite Forall_forall in H.
    apply Nat.eqb_eq, H, Hr. }
  split; [exact C |]. unfold layoutConfidence. rewrite C.
  destruct (_ <? _); reflexivity.
Qed.

(** What a page that yields a table yields. *)
Lemma layoutPage_shape (page : list Item) (counter : nat)
    (t : TableDetectionResult) :
  layoutPage page counter = Some t ->
  rowsMatchHeaders t /\
  confidence t = layoutConfidence (headers t) (data t) /\
  tableIndex t = counter.
Proof.
  unfold layoutPage.
  destruct (filter _ page) as [|i0 items] eqn:Ei; [discriminate |].
  cbv zeta.
  set (rows := sortRows (clusterRows (i0 :: items))).
  set (columns := columnsOf (bins (xPositions rows))).
  destruct (_ || _); [discriminate |].
  destruct (cleanGrid_uniform (List.length columns) (buildGrid rows columns)
              (buildGrid_wide columns rows)) as [m U].
  destruct (cleanGrid (buildGrid rows columns)) as [|headerRow rest] eqn:Ec;
    [discriminate |].
  intro H. injection H as <-. unfold rowsMatchHeaders. simpl.
  split; [| split; reflexivity].
  assert (Hh : List.length
                 (if layoutIsHeader headerRow
                  then map (fun h => if nonEmpty h then h else lit "Column")
                           headerRow
                  else genericHeaders (List.length headerRow)) = m).
  { inversion U; subst.
    destruct (layoutIsHeader headerRow);
      [rewrite length_map | rewrite genericHeaders_length]; reflexivity. }
  rewrite Hh. apply Forall_forall. intros row Hin.
  apply in_map_iff in Hin as (r & <- & Hr). rewrite length_map.
  rewrite Forall_forall in U. apply U.
  destruct (layoutIsHeader headerRow); [right |]; exact Hr.
Qed.

Lemma layoutPages_In (pages : list (list Item)) (counter : nat)
    (t : TableDetectionResult) :
  In t (layoutPages pages counter) ->
  exists page k, In page pages /\ layoutPage page k = Some t.
Proof.
  revert counter. induction pages as [|page pages IH]; intros counter H;
    simpl in H; [contradiction |].
  destruct (layoutPage page counter) as [t0|] eqn:E.
  - destruct H as [<- | H].
    + exists page, counter. split; [left; reflexivity | exact E].
    + apply IH in H as (p & k & Hp & Hk). exists p, k. split; [right |]; auto.
  - apply IH in H as (p & k & Hp & Hk). exists p, k. split; [right |]; auto.
Qed.

Lemma detectTablesByLayout_In (pdf : option (list (list Item)))
    (t : TableDetectionResult) :
  In t (detectTablesByLayout pdf) ->
  exists page k, layoutPage page k = Some t.
Proof.
  destruct pdf as [pages|]; simpl; [| contradiction].
  intro H. apply layoutPages_In in H as (p & k & _ & Hk). eauto.
Qed.

Lemma layoutConfidence_80_90 (hs : list jsstring) (d : list (list jsstring)) :
  Forall (fun row => List.length row = List.length hs) d ->
  layoutConfidence hs d = Fin 80 \/ layoutConfidence hs d = Fin 90.
Proof.
  intro H. apply layoutConfidence_consistent in H as [_ ->].
  destruct (_ <? _); auto.
Qed.

Lemma within_80_90 (c : jsnum) :
  c = Fin 80 \/ c = Fin 90 -> Num.within 0 100 c.
Proof. intros [-> | ->]; simpl; split; discriminate. Qed.

(* ================================================================== *)
(** ** The cascade *)
(* ================================================================== *)

Lemma processJobTables_In (pdf : option (list (list Item)))
    (text : jsstring) (options : ProcessingOptions)
    (t : TableDetectionResult) :
  In t (processJobTables pdf text options) ->
  In t (detectTablesByLayout pdf) \/
  In t (detectTables text (thresholdOf options) (sensitivityOf options)) \/
  t = fallbackTable text.
Proof.
  unfold processJobTables.
  destruct (detectTablesByLayout pdf) as [|l ls]; [| auto].
  destruct (detectTables _ _ _) as [|d ds]; [| auto].
  intros [<- | []]. auto.
Qed.


Lemma layout_rows (pdf : option (list (list Item)))
    (t : TableDetectionResult) :
  In t (detectTablesByLayout pdf) ->
  rowsMatchHeaders t /\ (confidence t = Fin 80 \/ confidence t = Fin 90).
Proof.
  intro H. apply detectTablesByLayout_In in H as (page & k & H).
  apply layoutPage_shape in H as (R & C & _). split; [exact R |].
  rewrite C. apply layoutConfidence_80_90, R.
Qed.

Lemma detectTables_In (text : jsstring) (thr : Q) (s : Sensitivity)
    (t : TableDetectionResult) :
  In t (detectTables text thr s) ->
  rowsMatchHeaders t /\ Num.within 30 100 (confidence t).
Proof.
  intro H. pose proof (detectTables_shape text thr s) as F.
  rewrite Forall_forall in F. apply F, H.
Qed.



(** C3.  The confidence of every emitted table lies in [[0, 100]]: it is 80
    or 90 on the layout path and 80 in the fallback table.  On the
    text-pattern path it lies in [[30, 100]].  The scoring function of the
    other variant of the class is clamped to [[0, 100]] instead, and reaches
    0 on an input where the canonical one stops at 30.  (Either function
    yields [NaN] when a ratio is [0 / 0]; such a score is never emitted.) *)
Theorem confidence_in_range :
  (forall pdf t,
      In t (detectTablesByLayout pdf) -> Num.within 0 100 (confidence t)) /\
  (forall text thr s t,
      In t (detectTables text thr s) -> Num.within 30 100 (confidence t)) /\
  (forall text, Num.within 0 100 (confidence (fallbackTable text))) /\
  (forall pdf text options t,
      In t (processJobTables pdf text options) ->
      Num.within 0 100 (confidence t)) /\
  (forall hs d,
      calculateTableConfidence hs d = NaN \/
      Num.within 30 100 (calculateTableConfidence hs d)) /\
  (forall hs d,
      NonOcrVariant.calculateTableConfidence hs d = NaN \/
      Num.within 0 100 (NonOcrVariant.calculateTableConfidence hs d)) /\
  (NonOcrVariant.calculateTableConfidence [lit "a"] [[[]; []; []; []]] = Fin 0
   /\ calculateTableConfidence [lit "a"] [[[]; []; []; []]] = Fin 30).
Proof.
  split; [| split; [| split; [| split; [| split; [| split]]]]].
  - intros pdf t H. apply within_80_90, (layout_rows pdf t H).
  - intros text thr s t H. apply (detectTables_In text thr s t H).
  - intro text. simpl. split; discriminate.
  - intros pdf text options t H.
    apply processJobTables_In in H as [H | [H | ->]].
    + apply within_80_90, (layout_rows pdf t H).
    + apply within_weaken with (lo := 30%Q); [discriminate |].
      apply (detectTables_In _ _ _ t H).
    + simpl. split; discriminate.
  - apply calculateTableConfidence_range.
  - apply NonOcrVariant_range.
  - split; reflexivity.
Qed.

Lemma confidence_in_range_witness :
  exists t,
    In t (detectTables (join [Char.newline] regionalSalesLines) 70 medium) /\
    Num.within 30 100 (confidence t).
Proof.
  destruct confidence_in_range as (_ & H2 & _).
  destruct (detectTables (join [Char.newline] regionalSalesLines) 70 medium)
    as [|t ts] eqn:E; [vm_compute in E; discriminate |].
  exists t. split; [left; reflexivity |].
  apply (H2 (join [Char.newline] regionalSalesLines) 70%Q medium).
  rewrite E. left. reflexivity.
Defined.

(** C5.  A page whose band count is outside [[2, 12]] gives no candidate;
    in the loop over the pages it is skipped and the counter stays. *)
Theorem band_count_out_of_range (page : list Item) :
  List.length (pageColumns page) < 2 \/ 12 < List.length (pageColumns page) ->
  (forall counter, layoutPage page counter = None) /\
  (forall rest counter,
      layoutPages (page :: rest) counter = layoutPages rest counter).
Proof.
  intro H.
  assert (N : forall counter, layoutPage page counter = None).
  { intro counter. unfold layoutPage, pageColumns in *.
    destruct (filter _ page) as [|i0 items]; [reflexivity |].
    cbv zeta.
    replace (_ || _) with true; [reflexivity |].
    symmetry. apply orb_true_iff.
    destruct H as [H | H]; [left | right]; apply Nat.ltb_lt, H. }
  split; [exact N |].
  intros rest counter. simpl. rewrite N. reflexivity.
Qed.

Lemma band_count_out_of_range_witness :
  (List.length (pageColumns oneBandPage) = 1 /\
   layoutPage oneBandPage 0 = None) /\
  (List.length (pageColumns thirteenBandPage) = 13 /\
   layoutPage thirteenBandPage 0 = None).
Proof.
  split; (split; [reflexivity |]).
  - apply (band_count_out_of_range oneBandPage). left.
    vm_compute. lia.
  - apply (band_count_out_of_range thirteenBandPage). right.
    vm_compute. lia.
Defined.

(** C10.  A table of the layout path has confidence 80 or 90: the rows of
    [data] always have the length of [headers], so the bonus of 20 is always
    earned, and the score is 90 exactly when the non-empty cells outnumber
    the data rows. *)
Theorem layout_confidence_80_or_90 :
  (forall page counter t,
      layoutPage page counter = Some t ->
      forallb (fun r => Nat.eqb (List.length r) (List.length (headers t)))
              (data t) = true /\
      (confidence t = Fin 80 \/ confidence t = Fin 90) /\
      confidence t
      = if List.length (data t)
           <? List.length (filter hasContent (List.concat (data t)))
        then Fin 90 else Fin 80) /\
  (forall pdf t,
      In t (detectTablesByLayout pdf) ->
      confidence t = Fin 80 \/ confidence t = Fin 90).
Proof.
  split.
  - intros page counter t H. apply layoutPage_shape in H as (R & C & _).
    destruct (layoutConfidence_consistent (headers t) (data t) R) as [F E].
    split; [exact F |]. rewrite C. split; [| exact E].
    apply layoutConfidence_80_90, R.
  - intros pdf t H. apply (layout_rows pdf t H).
Qed.

Lemma layout_confidence_80_or_90_witness :
  exists t,
    layoutPage samplePage 0 = Some t /\
    (confidence t = Fin 80 \/ confidence t = Fin 90).
Proof.
  destruct layout_confidence_80_or_90 as [H _].
  destruct (layoutPage samplePage 0) as [t|] eqn:E;
    [| vm_compute in E; discriminate].
  exists t. split; [reflexivity |].
  destruct (H samplePage 0 t E) as (_ & C & _). exact C.
Defined.

(* ================================================================== *)
(** ** Separator selection *)
(* ================================================================== *)

(** The choice of [detectSeparator] in terms of the three scores: a later
    candidate wins only with a strictly higher score. *)
Lemma detectSeparator_by_scores (lines : list jsstring) :
  let p := separatorScore (SepString Char.pipe) lines in
  let t := separatorScore (SepString Char.tab) lines in
  let s := separatorScore (SepRegExp Pat.spaceRun) lines in
  detectSeparator lines
  = if p <? t then (if t <? s then lit " " else [Char.tab])
    else (if p <? s then lit " " else lit "|").
Proof.
  intros p t s. unfold detectSeparator, separators, detectSeparatorStep.
  simpl. fold p t s.
  destruct (0 <? p) eqn:E0; simpl.
  - destruct (p <? t); simpl; destruct (_ <? s); reflexivity.
  - apply Nat.ltb_ge in E0. replace p with 0 by lia.
    destruct (0 <? t); simpl; destruct (_ <? s); reflexivity.
Qed.

(** With strictly more pipes than tabs and than lines holding a run of
    spaces, the pipe is chosen. *)
Lemma detectSeparator_pipe (lines : list jsstring) :
  separatorScore (SepString Char.tab) lines
  < separatorScore (SepString Char.pipe) lines ->
  separatorScore (SepRegExp Pat.spaceRun) lines
  < separatorScore (SepString Char.pipe) lines ->
  detectSeparator lines = lit "|".
Proof.
  intros Ht Hs. rewrite detectSeparator_by_scores. cbv zeta.
  replace (_ <? separatorScore (SepString Char.tab) lines) with false
    by (symmetry; apply Nat.ltb_ge; lia).
  replace (_ <? separatorScore (SepRegExp Pat.spaceRun) lines) with false
    by (symmetry; apply Nat.ltb_ge; lia).
  reflexivity.
Qed.

(** C6.  On [mixedBlock] the pipe matches twice and [/\s{2,}/] six times,
    yet [detectSeparator] scores the space run 2 (one per line, the pattern
    being applied without the [g] flag) and keeps the pipe. *)
Theorem detectSeparator_counts_one_run_per_line :
  total (countChar Char.pipe) mixedBlock = 2 /\
  total (countChar Char.tab) mixedBlock = 0 /\
  total allSpaceRunMatches mixedBlock = 6 /\
  separatorScore (SepString Char.pipe) mixedBlock = 2 /\
  separatorScore (SepRegExp Pat.spaceRun) mixedBlock = 2 /\
  detectSeparator mixedBlock = lit "|" /\
  map (fun line => splitTableLine line (detectSeparator mixedBlock)) mixedBlock
  = [[lit "a  b  c  d"; lit "e"]; [lit "f  g  h  i"; lit "j"]].
Proof. repeat split. Qed.

(* ================================================================== *)
(** ** Column bands *)
(* ================================================================== *)

Lemma insertBy_In {A : Type} (le : A -> A -> bool) (a x : A) (l : list A) :
  In x (insertBy le a l) <-> x = a \/ In x l.
Proof.
  induction l as [|b l IH]; simpl.
  - intuition.
  - destruct (le a b); simpl; rewrite ?IH; intuition.
Qed.

Lemma sortBy_In {A : Type} (le : A -> A -> bool) (x : A) (l : list A) :
  In x (sortBy le l) <-> In x l.
Proof.
  induction l as [|a l IH]; simpl; [reflexivity |].
  rewrite insertBy_In, IH. intuition.
Qed.

Lemma insertBy_sorted (a : Q) (l : list Q) :
  Sorted Qle l -> Sorted Qle (insertBy Qle_bool a l).
Proof.
  induction l as [|b l IH]; intro H; simpl.
  - repeat constructor.
  - destruct (Qle_bool a b) eqn:E.
    + constructor; [exact H |]. constructor. apply Qle_bool_iff, E.
    + assert (Hba : (b <= a)%Q).
      { apply Qlt_le_weak, Qnot_le_lt. intro L.
        apply Qle_bool_iff in L. congruence. }
      inversion H as [|? ? Hs Hh]; subst.
      constructor; [apply IH, Hs |].
      destruct l as [|c l]; simpl.
      * constructor. exact Hba.
      * destruct (Qle_bool a c); constructor; [exact Hba |].
        inversion Hh; assumption.
Qed.

Lemma sortBy_sorted (l : list Q) : Sorted Qle (sortBy Qle_bool l).
Proof.
  induction l as [|a l IH]; simpl; [constructor | apply insertBy_sorted, IH].
Qed.

Lemma last_cons {A : Type} (a d : A) (l : list A) :
  last (a :: l) d = last l a.
Proof.
  revert a d. induction l as [|b l IH]; intros a d; [reflexivity |].
  change (last (a :: b :: l) d) with (last (b :: l) d).
  rewrite (IH b d), (IH b a). reflexivity.
Qed.

(** In a sorted list the head is the least element and the last one the
    greatest. *)
Lemma sorted_range (a : Q) (l : list Q) (x : Q) :
  Sorted Qle (a :: l) -> In x (a :: l) -> (a <= x /\ x <= last l a)%Q.
Proof.
  revert a x. induction l as [|b l IH]; intros a x H Hin.
  - destruct Hin as [<- | []]. simpl. split; apply Qle_refl.
  - inversion H as [|? ? Hs Hh]; subst. inversion Hh; subst.
    rewrite last_cons. destruct Hin as [<- | Hin].
    + destruct (IH b b Hs (or_introl eq_refl)) as [_ L]. split; lra.
    + destruct (IH b x Hs Hin) as [L1 L2]. split; lra.
Qed.

Lemma cutsFrom_contiguous (xs : list Q) (prev lo : Q) :
  (lo <= prev)%Q -> HdRel Qle prev xs -> Sorted Qle xs ->
  Contiguous lo (columnsOf (lo :: cutsFrom prev xs ++ [(last xs prev + 1)%Q]))
             (last xs prev + 1).
Proof.
  revert prev lo. induction xs as [|x xs IH]; intros prev lo Hlo Hh Hs.
  - simpl. constructor. lra.
  - inversion Hh; subst. inversion Hs as [|? ? Hs' Hh']; subst.
    rewrite last_cons. simpl.
    destruct (Qltb gapThreshold (x - prev)) eqn:E.
    + apply Qltb_true in E. unfold gapThreshold in E.
      simpl. constructor; [lra |].
      apply IH; [apply Qle_refl | exact Hh' | exact Hs'].
    + apply IH; [lra | exact Hh' | exact Hs'].
Qed.

Lemma bins_contiguous (xs : list Q) :
  Sorted Qle xs ->
  Contiguous (hd 0%Q xs) (columnsOf (bins xs)) (last xs 0%Q + 1).
Proof.
  intro H. unfold bins. destruct xs as [|x0 xs].
  - simpl. constructor. lra.
  - rewrite last_cons. simpl hd. simpl app. unfold cuts.
    inversion H; subst.
    apply cutsFrom_contiguous; [apply Qle_refl | assumption | assumption].
Qed.

Lemma inColumn_iff (x : Q) (c : Column) :
  inColumn x c = true <-> (minX c <= x /\ x < maxX c)%Q.
Proof.
  unfold inColumn. rewrite andb_true_iff, Qle_bool_iff, Qltb_true.
  reflexivity.
Qed.

Lemma Contiguous_bounds (lo hi : Q) (cs : list Column) :
  Contiguous lo cs hi ->
  (lo < hi)%Q /\
  forall c, In c cs -> (lo <= minX c /\ minX c < maxX c /\ maxX c <= hi)%Q.
Proof.
  induction 1 as [lo hi L | lo mid hi cs L C [IH1 IH2]].
  - split; [exact L |]. intros c [<- | []]. simpl. lra.
  - split; [lra |]. intros c [<- | Hin].
    + simpl. lra.
    + destruct (IH2 c Hin) as (A & B & D). lra.
Qed.

Lemma Contiguous_cover (lo hi : Q) (cs : list Column) (x : Q) :
  Contiguous lo cs hi -> (lo <= x)%Q -> (x < hi)%Q ->
  exists c, In c cs /\ inColumn x c = true.
Proof.
  induction 1 as [lo hi L | lo mid hi cs L C IH]; intros Hlo Hhi.
  - exists (mkColumn lo hi). split; [left; reflexivity |].
    apply inColumn_iff. simpl. split; assumption.
  - destruct (Qlt_le_dec x mid) as [Hx | Hx].
    + exists (mkColumn lo mid). split; [left; reflexivity |].
      apply inColumn_iff. simpl. split; assumption.
    + destruct (IH Hx Hhi) as (c & Hin & Hc).
      exists c. split; [right |]; assumption.
Qed.

Lemma nth_error_single {A : Type} (a b : A) (i : nat) :
  nth_error [a] i = Some b -> i = 0.
Proof. destruct i as [|[|i]]; simpl; [reflexivity | discriminate..]. Qed.

Lemma Contiguous_disjoint (lo hi : Q) (cs : list Column) :
  Contiguous lo cs hi ->
  forall x i j ci cj,
    nth_error cs i = Some ci -> nth_error cs j = Some cj ->
    inColumn x ci = true -> inColumn x cj = true -> i = j.
Proof.
  induction 1 as [lo hi L | lo mid hi cs L C IH];
    intros x i j ci cj Hi Hj Xi Xj.
  - apply nth_error_single in Hi, Hj. congruence.
  - pose proof (Contiguous_bounds _ _ _ C) as [_ B].
    apply inColumn_iff in Xi as Xi'. apply inColumn_iff in Xj as Xj'.
    destruct i as [|i], j as [|j]; simpl in Hi, Hj.
    + reflexivity.
    + injection Hi as <-. simpl in Xi'.
      apply nth_error_In in Hj. destruct (B cj Hj) as (A & _). lra.
    + injection Hj as <-. simpl in Xj'.
      apply nth_error_In in Hi. destruct (B ci Hi) as (A & _). lra.
    + f_equal. eapply IH; eassumption.
Qed.

Lemma findIndex_spec {A : Type} (f : A -> bool) (l : list A) :
  (findIndex f l = (-1)%Z /\ forall a, In a l -> f a = false) \/
  (exists i a,
      findIndex f l = Z.of_nat i /\ nth_error l i = Some a /\ f a = true /\
      forall j b, j < i -> nth_error l j = Some b -> f b = false).
Proof.
  induction l as [|a l IH]; simpl.
  - left. split; [reflexivity | intros a []].
  - destruct (f a) eqn:E.
    + right. exists 0, a. repeat split; auto. intros j b Hj. lia.
    + destruct IH as [[-> N] | (i & b & -> & Hn & Hb & F)].
      * left. split; [reflexivity |]. intros x [<- | Hx]; auto.
      * right. exists (S i), b. repeat split; auto.
        -- destruct i; simpl; [reflexivity |]. f_equal. lia.
        -- intros [|j] c Hj Hc; simpl in Hc.
           ++ injection Hc as <-. exact E.
           ++ apply (F j c); [lia | exact Hc].
Qed.

(** A token goes to the first column that contains its [x]. *)
Lemma colIndex_first (cs : list Column) (x : Q) :
  (exists c, In c cs /\ inColumn x c = true) ->
  exists c,
    nth_error cs (colIndex cs x) = Some c /\ inColumn x c = true /\
    forall j b, j < colIndex cs x -> nth_error cs j = Some b ->
                inColumn x b = false.
Proof.
  intros (c & Hin & Hc). unfold colIndex.
  destruct (findIndex_spec (inColumn x) cs)
    as [[_ N] | (i & a & -> & Hn & Ha & F)].
  - rewrite (N c Hin) in Hc. discriminate.
  - replace (Z.to_nat (Z.max 0 (Z.of_nat i))) with i by lia.
    exists a. auto.
Qed.

(** A token whose [x] is in no column goes to column 0. *)
Lemma colIndex_none (cs : list Column) (x : Q) :
  (forall c, In c cs -> inColumn x c = false) -> colIndex cs x = 0.
Proof.
  intro N. unfold colIndex.
  destruct (findIndex_spec (inColumn x) cs)
    as [[-> _] | (i & a & _ & Hn & Ha & _)].
  - reflexivity.
  - apply nth_error_In in Hn. rewrite (N a Hn) in Ha. discriminate.
Qed.

Lemma addToRows_new (y : Q) (it : Item) (rows : list Row) :
  placed (addToRows y it rows) it.
Proof.
  induction rows as [|r rows IH]; simpl.
  - eexists. split; [left; reflexivity | left; reflexivity].
  - destruct (Qle_bool _ _).
    + eexists. split; [left; reflexivity |]. simpl.
      apply in_or_app. right. left. reflexivity.
    + destruct IH as (r' & H1 & H2). exists r'. split; [right |]; assumption.
Qed.

Lemma addToRows_keep (y : Q) (it it' : Item) (rows : list Row) :
  placed rows it' -> placed (addToRows y it rows) it'.
Proof.
  induction rows as [|r rows IH]; intros (r' & H1 & H2); simpl.
  - destruct H1.
  - destruct (Qle_bool _ _).
    + destruct H1 as [<- | H1].
      * eexists. split; [left; reflexivity |]. simpl.
        apply in_or_app. left. exact H2.
      * exists r'. split; [right |]; assumption.
    + destruct H1 as [<- | H1].
      * exists r. split; [left; reflexivity | exact H2].
      * destruct IH as (r'' & H3 & H4); [exists r'; auto |].
        exists r''. split; [right |]; assumption.
Qed.

Lemma clusterRows_placed (items : list Item) (it : Item) :
  In it items -> placed (clusterRows items) it.
Proof.
  unfold clusterRows. intro H.
  assert (G : forall rows,
             placed rows it \/ In it items ->
             placed (fold_left
                       (fun rows i => addToRows (round2 (it_y i)) i rows)
                       items rows) it).
  { clear H. induction items as [|i items IH]; intros rows [P | Hin]; simpl.
    - exact P.
    - destruct Hin.
    - apply IH. left. apply addToRows_keep, P.
    - destruct Hin as [-> | Hin].
      + apply IH. left. apply addToRows_new.
      + apply IH. right. exact Hin. }
  apply G. right. exact H.
Qed.

Lemma sortRows_placed (rows : list Row) (it : Item) :
  placed rows it -> placed (sortRows rows) it.
Proof.
  intros (r & H1 & H2). unfold sortRows.
  eexists. split.
  - apply in_map. apply sortBy_In. exact H1.
  - simpl. apply sortBy_In. exact H2.
Qed.

Lemma xPositions_In (rows : list Row) (it : Item) :
  placed rows it -> In (round2 (it_x it)) (xPositions rows).
Proof.
  intros (r & H1 & H2). unfold xPositions. apply sortBy_In.
  apply in_flat_map. exists r. split; [exact H1 |].
  apply (in_map (fun i => round2 (it_x i))). exact H2.
Qed.

Lemma pagePositions_sorted (page : list Item) :
  Sorted Qle (pagePositions page).
Proof. apply sortBy_sorted. Qed.

Lemma pagePositions_In (page : list Item) (it : Item) :
  In it (keptItems page) -> In (round2 (it_x it)) (pagePositions page).
Proof.
  intro H. apply xPositions_In, sortRows_placed, clusterRows_placed, H.
Qed.

(** What holds of the columns of a page, in the exact arithmetic of this
    embedding: they are contiguous half-open intervals that start at the
    least rounded [x] position of the page and end one unit after the
    greatest; the rounded position of every item lies in that range; every
    [x] of the range lies in a column; no [x] lies in two columns.  A
    token goes to the first column that contains its [x] when there is
    one, and to column 0 when there is none. *)
Lemma column_bands_structure (page : list Item) :
  Contiguous (hd 0%Q (pagePositions page)) (pageColumns page)
             (last (pagePositions page) 0%Q + 1) /\
  (forall it,
      In it (keptItems page) ->
      (hd 0 (pagePositions page) <= round2 (it_x it) /\
       round2 (it_x it) <= last (pagePositions page) 0)%Q) /\
  (forall x,
      (hd 0 (pagePositions page) <= x /\ x <= last (pagePositions page) 0)%Q ->
      exists c, In c (pageColumns page) /\ inColumn x c = true) /\
  (forall x i j ci cj,
      nth_error (pageColumns page) i = Some ci ->
      nth_error (pageColumns page) j = Some cj ->
      inColumn x ci = true -> inColumn x cj = true -> i = j) /\
  (forall x,
      (exists c, In c (pageColumns page) /\ inColumn x c = true) ->
      exists c,
        nth_error (pageColumns page) (colIndex (pageColumns page) x) = Some c
        /\ inColumn x c = true
        /\ forall j b, j < colIndex (pageColumns page) x ->
                       nth_error (pageColumns page) j = Some b ->
                       inColumn x b = false) /\
  (forall x,
      (forall c, In c (pageColumns page) -> inColumn x c = false) ->
      colIndex (pageColumns page) x = 0).
Proof.
  pose proof (bins_contiguous _ (pagePositions_sorted page)) as C.
  change (columnsOf (bins (pagePositions page))) with (pageColumns page) in C.
  assert (R : forall it,
             In it (keptItems page) ->
             (hd 0 (pagePositions page) <= round2 (it_x it) /\
              round2 (it_x it) <= last (pagePositions page) 0)%Q).
  { intros it Hin. apply pagePositions_In in Hin.
    pose proof (pagePositions_sorted page) as S.
    destruct (pagePositions page) as [|a l]; [destruct Hin |].
    rewrite last_cons. apply sorted_range; assumption. }
  split; [exact C |]. split; [exact R |].
  split; [| split; [| split]].
  - intros x [L H]. apply (Contiguous_cover _ _ _ x C); lra.
  - apply (Contiguous_disjoint _ _ _ C).
  - apply colIndex_first.
  - apply colIndex_none.
Qed.

(** C8.  The bands do not cover the observed [x] range.  [strayPage] has
    two items on one line, "Item" at [x = 9.996] and "Price" at [x = 40].
    The positions collected for the bands are the rounded ones, 10.00 and
    40.00, so the bands are [[10, 40)] and [[40, 41)]; the rounded position
    of the first item lies in the first band.  The placement tests the
    unrounded 9.996: it lies below the first band and in no band,
    [findIndex] returns [-1], and [Math.max(0, -1)] puts the item in
    column 0. *)
Theorem unrounded_x_misses_every_band :
  In strayItem (keptItems strayPage) /\
  Forall2 (fun c b => (minX c == fst b)%Q /\ (maxX c == snd b)%Q)
          (pageColumns strayPage) [(10%Q, 40%Q); (40%Q, 41%Q)] /\
  (round2 (it_x strayItem) == 10)%Q /\
  existsb (inColumn (round2 (it_x strayItem))) (pageColumns strayPage)
  = true /\
  (it_x strayItem < minX (hd (mkColumn 0 0) (pageColumns strayPage)))%Q /\
  existsb (inColumn (it_x strayItem)) (pageColumns strayPage) = false /\
  findIndex (inColumn (it_x strayItem)) (pageColumns strayPage) = (-1)%Z /\
  colIndex (pageColumns strayPage) (it_x strayItem) = 0.
Proof.
  split; [left; reflexivity |].
  split; [repeat constructor; reflexivity |].
  repeat split; reflexivity.
Qed.

(* ================================================================== *)
(** ** Runs of spaces: [test], [match] and [split] agree *)
(* ================================================================== *)

Lemma spaceRun_Lang_inv (m : jsstring) :
  Lang (AtLeast 2 anySpace) m ->
  exists c d m', m = c :: d :: m' /\
                 Char.isSpace c = true /\ Char.isSpace d = true.
Proof.
  simpl. intro L.
  apply Lang_Cat_inv in L as (m1 & r1 & -> & L1 & L).
  apply Lang_Cat_inv in L as (m2 & r2 & -> & L2 & _).
  apply Lang_Class_inv in L1 as (c & -> & Hc).
  apply Lang_Class_inv in L2 as (d & -> & Hd).
  exists c, d, r2. auto.
Qed.

Lemma adjacentSpaces_app (a b : jsstring) :
  adjacentSpaces b = true -> adjacentSpaces (a ++ b) = true.
Proof.
  intro H. induction a as [|c a IH]; simpl; [exact H |].
  destruct (a ++ b) as [|d r]; [discriminate |].
  rewrite IH. apply orb_true_r.
Qed.

Lemma test_spaceRun (s : jsstring) :
  test Pat.spaceRun s = adjacentSpaces s.
Proof.
  apply eq_true_iff_eq. unfold Pat.spaceRun. rewrite test_re. split.
  - intros (a & m & b & -> & L).
    apply spaceRun_Lang_inv in L as (c & d & m' & -> & Hc & Hd).
    apply adjacentSpaces_app. simpl. rewrite Hc, Hd. reflexivity.
  - induction s as [|c [|d r] IH]; try discriminate.
    intro H. change (adjacentSpaces (c :: d :: r))
      with ((Char.isSpace c && Char.isSpace d) || adjacentSpaces (d :: r)) in H.
    apply orb_prop in H as [H | H].
    + apply andb_prop in H as [Hc Hd]. exists [], [c; d], r.
      split; [reflexivity |].
      change [c; d] with ([c] ++ [d] ++ []).
      repeat constructor; assumption.
    + destruct (IH H) as (a & m & b & E & L).
      exists (c :: a), m, b. rewrite E. auto.
Qed.

Lemma splitSpaceRuns_nonempty (inRun : bool) (s : jsstring) :
  1 <= List.length (splitSpaceRuns inRun s).
Proof.
  revert inRun. induction s as [|c s IH]; intro inRun; simpl; [lia |].
  destruct (inRun && Char.isSpace c); [apply IH |].
  destruct (Char.isSpace c && _); simpl; [lia |].
  destruct (splitSpaceRuns false s); simpl; lia.
Qed.

Lemma splitSpaceRuns_false_cons (c : code_unit) (s : jsstring) :
  splitSpaceRuns false (c :: s)
  = if Char.isSpace c &&
       match s with d :: _ => Char.isSpace d | [] => false end
    then [] :: splitSpaceRuns true s
    else match splitSpaceRuns false s with
         | p :: ps => (c :: p) :: ps
         | [] => [[c]]
         end.
Proof. reflexivity. Qed.

Lemma adjacentSpaces_cons (c : code_unit) (s : jsstring) :
  adjacentSpaces (c :: s)
  = (Char.isSpace c && match s with d :: _ => Char.isSpace d | [] => false end)
    || adjacentSpaces s.
Proof. destruct s; simpl; [rewrite andb_false_r |]; reflexivity. Qed.

Lemma splitSpaceRuns_adjacent (s : jsstring) :
  adjacentSpaces s = true <-> 1 <= allSpaceRunMatches s.
Proof.
  unfold allSpaceRunMatches. induction s as [|c s IH].
  - simpl. split; [discriminate | lia].
  - rewrite adjacentSpaces_cons, splitSpaceRuns_false_cons.
    destruct (Char.isSpace c && _).
    + pose proof (splitSpaceRuns_nonempty true s).
      cbn [List.length orb]. split; [lia | reflexivity].
    + rewrite orb_false_l.
      pose proof (splitSpaceRuns_nonempty false s).
      destruct (splitSpaceRuns false s) as [|p ps];
        [simpl in *; lia |].
      cbn [List.length] in IH |- *. exact IH.
Qed.

(** Without the [g] flag a line counts for one when it has a run, for
    nothing otherwise, however many runs it has. *)
Lemma matchLength_spaceRun (line : jsstring) :
  matchLength Pat.spaceRun line = Nat.min 1 (allSpaceRunMatches line).
Proof.
  unfold matchLength. rewrite test_spaceRun.
  destruct (adjacentSpaces line) eqn:E.
  - apply splitSpaceRuns_adjacent in E. lia.
  - destruct (allSpaceRunMatches line) eqn:N; [reflexivity |].
    assert (H : adjacentSpaces line = true)
      by (apply splitSpaceRuns_adjacent; lia).
    congruence.
Qed.

Lemma fold_count_le (f g : jsstring -> nat) (lines : list jsstring)
    (a b : nat) :
  (forall l, f l <= g l) -> a <= b ->
  fold_left (fun acc line => acc + f line) lines a
  <= fold_left (fun acc line => acc + g line) lines b.
Proof.
  intro H. revert a b. induction lines as [|l lines IH]; intros a b Hab;
    simpl; [exact Hab |].
  apply IH. specialize (H l). lia.
Qed.

Lemma spaceRun_score_le (lines : list jsstring) :
  separatorScore (SepRegExp Pat.spaceRun) lines
  <= total allSpaceRunMatches lines.
Proof.
  unfold separatorScore, total. apply fold_count_le; [| lia].
  intro l. simpl. rewrite matchLength_spaceRun. lia.
Qed.

(** The part of the separator rule that the code keeps: when the pipe has
    strictly more matches than the tab and than the runs of spaces (all of
    them counted), the pipe is chosen. *)
Lemma pipe_with_most_matches_is_chosen (lines : list jsstring) :
  total (countChar Char.tab) lines < total (countChar Char.pipe) lines ->
  total allSpaceRunMatches lines < total (countChar Char.pipe) lines ->
  detectSeparator lines = lit "|".
Proof.
  intros Ht Hs. apply detectSeparator_pipe.
  - exact Ht.
  - pose proof (spaceRun_score_le lines) as L.
    change (separatorScore (SepString Char.pipe) lines)
      with (total (countChar Char.pipe) lines).
    lia.
Qed.

(* ================================================================== *)
(** ** Indices written by [buildGrid] are inside the grid *)
(* ================================================================== *)

Lemma colIndex_lt (cs : list Column) (x : Q) :
  cs <> [] -> colIndex cs x < List.length cs.
Proof.
  intro N. unfold colIndex.
  destruct (findIndex_spec (inColumn x) cs)
    as [[-> _] | (i & a & -> & Hn & _)].
  - destruct cs; [contradiction | simpl; lia].
  - replace (Z.to_nat (Z.max 0 (Z.of_nat i))) with i by lia.
    apply nth_error_Some. congruence.
Qed.

Lemma placeItem_length (columns : list Column) (ri : nat)
    (grid : list (list jsstring)) (it : Item) :
  List.length (placeItem columns ri grid it) = List.length grid.
Proof. unfold placeItem. apply setNth_length. Qed.

(* ================================================================== *)
(** ** The string primitives on small inputs *)
(* ================================================================== *)

Example trim_both_ends : trim (lit "  a b  ") = lit "a b".
Proof. reflexivity. Qed.

Example split_keeps_empty_pieces :
  split Char.pipe (lit "|a||b") = [[]; lit "a"; []; lit "b"].
Proof. reflexivity. Qed.

Example split_empty_string : split Char.newline [] = [[]].
Proof. reflexivity. Qed.

Example splitSpaceRuns_maximal_runs :
  splitSpaceRuns false (lit "a   b c  d  ")
  = [lit "a"; lit "b c"; lit "d"; []].
Proof. reflexivity. Qed.

Example columnName_first : columnName 0 = lit "Column 1".
Proof. reflexivity. Qed.

Example columnName_twelfth : columnName 11 = lit "Column 12".
Proof. reflexivity. Qed.

Example round2_half_up : round2 (2499 # 250) = (1000 # 100)%Q.
Proof. reflexivity. Qed.

Example words_pattern :
  test Pat.words (lit "Revenue Summary") = true /\
  test Pat.words (lit "Summary") = false.
Proof. split; reflexivity. Qed.

Example detectHeaders_region :
  detectHeaders [lit "Region"; lit "Sales Target"; lit "Actual Sales";
                 lit "Status"] = true.
Proof. reflexivity. Qed.

Example detectSeparator_ties_keep_pipe :
  detectSeparator [lit "plain"; lit "text"] = lit "|" /\
  detectSeparator [[Char.tab; Char.pipe]] = lit "|".
Proof. split; reflexivity. Qed.

(* ================================================================== *)
(** ** Lines of a text *)
(* ================================================================== *)

Lemma split_nonempty (sep : code_unit) (s : jsstring) : split sep s <> [].
Proof.
  destruct s as [|c s]; simpl; [discriminate |].
  destruct (N.eqb c sep); [discriminate |].
  destruct (split sep s); discriminate.
Qed.

Lemma split_app (sep : code_unit) (a b : jsstring) :
  split sep (a ++ sep :: b) = split sep a ++ split sep b.
Proof.
  induction a as [|c a IH]; simpl.
  - rewrite N.eqb_refl. reflexivity.
  - destruct (N.eqb c sep); [rewrite IH; reflexivity |].
    rewrite IH. pose proof (split_nonempty sep a) as N.
    destruct (split sep a) as [|p ps]; [contradiction | reflexivity].
Qed.

Lemma split_without_sep (sep : code_unit) (s : jsstring) :
  ~ In sep s -> split sep s = [s].
Proof.
  induction s as [|c s IH]; intro H; simpl; [reflexivity |].
  destruct (N.eqb c sep) eqn:E.
  - apply N.eqb_eq in E. subst. exfalso. apply H. left. reflexivity.
  - rewrite IH; [reflexivity |]. intro Hin. apply H. right. exact Hin.
Qed.

Lemma textLines_app (a b : jsstring) :
  textLines (a ++ Char.newline :: b) = textLines a ++ textLines b.
Proof.
  unfold textLines. rewrite split_app, map_app, filter_app. reflexivity.
Qed.

Lemma textLines_nil : textLines [] = [].
Proof. reflexivity. Qed.

Lemma textLines_break (a b : jsstring) :
  textLines (a ++ paragraphBreak ++ b) = textLines a ++ textLines b.
Proof.
  unfold paragraphBreak. simpl app. rewrite textLines_app.
  change (Char.newline :: b) with ([] ++ Char.newline :: b).
  rewrite textLines_app. reflexivity.
Qed.

Lemma dropSpaces_nil (s : jsstring) :
  dropSpaces s = [] <-> forallb Char.isSpace s = true.
Proof.
  induction s as [|c s IH]; simpl; [tauto |].
  destruct (Char.isSpace c); simpl; [exact IH |].
  split; discriminate.
Qed.

Lemma dropSpaces_spaces (s : jsstring) :
  forallb Char.isSpace (dropSpaces s) = true -> forallb Char.isSpace s = true.
Proof.
  induction s as [|c s IH]; simpl; [tauto |].
  destruct (Char.isSpace c) eqn:E; simpl; [exact IH |].
  rewrite E. simpl. discriminate.
Qed.

Lemma forallb_rev {A : Type} (f : A -> bool) (l : list A) :
  forallb f (rev l) = forallb f l.
Proof.
  induction l as [|a l IH]; simpl; [reflexivity |].
  rewrite forallb_app, IH. simpl. rewrite andb_true_r. apply andb_comm.
Qed.

(** A string trims to [''] exactly when all its code units are [\s]. *)
Lemma trim_nil (s : jsstring) :
  trim s = [] <-> forallb Char.isSpace s = true.
Proof.
  unfold trim. split; intro H.
  - assert (E : dropSpaces (rev (dropSpaces s)) = []).
    { destruct (dropSpaces (rev (dropSpaces s))); [reflexivity |].
      simpl in H. apply app_eq_nil in H as [_ H]. discriminate. }
    apply dropSpaces_nil in E. rewrite forallb_rev in E.
    apply dropSpaces_spaces, E.
  - apply dropSpaces_nil in H. rewrite H. reflexivity.
Qed.

Lemma split_spaces (sep : code_unit) (s : jsstring) :
  forallb Char.isSpace s = true ->
  Forall (fun p => forallb Char.isSpace p = true) (split sep s).
Proof.
  induction s as [|c s IH]; simpl; intro H.
  - repeat constructor.
  - apply andb_prop in H as [Hc Hs]. specialize (IH Hs).
    destruct (N.eqb c sep); [constructor; [reflexivity | exact IH] |].
    destruct (split sep s) as [|p ps]; [repeat constructor; simpl; rewrite Hc; reflexivity |].
    inversion IH; subst. constructor; [| assumption].
    simpl. rewrite Hc. assumption.
Qed.

(** A blank text has no line. *)
Lemma textLines_blank (s : jsstring) : isBlank s = true -> textLines s = [].
Proof.
  unfold isBlank, nonEmpty. intro H. apply negb_true_iff, Nat.ltb_ge in H.
  assert (T : trim s = []) by (destruct (trim s); [reflexivity | simpl in H; lia]).
  apply trim_nil in T. unfold textLines.
  pose proof (split_spaces Char.newline s T) as F.
  induction F as [|p ps Hp _ IH]; simpl; [reflexivity |].
  apply trim_nil in Hp. rewrite Hp. simpl. exact IH.
Qed.

Lemma isBlank_nil : isBlank [] = true.
Proof. reflexivity. Qed.

(** X1.  The lines of the combined text are the lines of the PDF text
    followed by the lines of the OCR text: combining loses no line, adds
    none and keeps the order. *)
Theorem combineTextSources_lines (pdfText ocrText : jsstring) :
  textLines (combineTextSources pdfText ocrText)
  = textLines pdfText ++ textLines ocrText.
Proof.
  unfold combineTextSources. simpl filter.
  destruct (nonEmpty (trim pdfText)) eqn:P;
    destruct (nonEmpty (trim ocrText)) eqn:O; simpl join.
  - destruct pdfText as [|c p]; [discriminate P |].
    simpl app. apply (textLines_break (c :: p) ocrText).
  - rewrite (textLines_blank ocrText) by (unfold isBlank; rewrite O; reflexivity).
    rewrite app_nil_r. destruct pdfText; [discriminate P | reflexivity].
  - rewrite (textLines_blank pdfText) by (unfold isBlank; rewrite P; reflexivity).
    destruct ocrText; [discriminate O | reflexivity].
  - rewrite (textLines_blank pdfText) by (unfold isBlank; rewrite P; reflexivity).
    reflexivity.
Qed.

(* ================================================================== *)
(** ** Decimal numerals *)
(* ================================================================== *)

Lemma string_of_uint_digits (d : Decimal.uint) :
  Forall (fun c => Char.isDigit c = true)
         (lit (NilEmpty.string_of_uint d)).
Proof.
  induction d; simpl; constructor; try reflexivity; assumption.
Qed.

Lemma natToString_digits (n : nat) :
  Forall (fun c => Char.isDigit c = true) (natToString n).
Proof.
  unfold natToString, NilZero.string_of_uint.
  destruct (Nat.to_uint n) eqn:E;
    try (rewrite <- E; apply string_of_uint_digits).
  repeat constructor.
Qed.

Lemma lit_inj (a b : string) : lit a = lit b -> a = b.
Proof.
  revert b. induction a as [|c a IH]; intros [|d b] H; simpl in H;
    try discriminate; [reflexivity |].
  injection H as Hc H. f_equal; [| apply IH, H].
  rewrite <- (ascii_N_embedding c), <- (ascii_N_embedding d), Hc.
  reflexivity.
Qed.

Lemma uint_string_value (d : Decimal.uint) :
  option_map Nat.of_uint (NilZero.uint_of_string (NilZero.string_of_uint d))
  = Some (Nat.of_uint d).
Proof.
  destruct d; [reflexivity | rewrite NilZero.usu by discriminate; reflexivity..].
Qed.

(** Two indices print alike only when they are equal. *)
Lemma natToString_inj (n m : nat) : natToString n = natToString m -> n = m.
Proof.
  unfold natToString. intro H. apply lit_inj in H.
  pose proof (uint_string_value (Nat.to_uint n)) as A.
  pose proof (uint_string_value (Nat.to_uint m)) as B.
  rewrite H, B, !DecimalNat.Unsigned.of_to in A.
  injection A as A. symmetry. exact A.
Qed.

(* ================================================================== *)
(** ** The text of the pages *)
(* ================================================================== *)

Lemma trim_fixed (c d : code_unit) (m : jsstring) :
  Char.isSpace c = false -> Char.isSpace d = false ->
  trim (c :: m ++ [d]) = c :: m ++ [d].
Proof.
  intros Hc Hd. unfold trim. cbn [dropSpaces]. rewrite Hc.
  replace (rev (c :: m ++ [d])) with (d :: rev (c :: m))
    by (symmetry; apply (rev_unit (c :: m) d)).
  cbn [dropSpaces]. rewrite Hd.
  change (rev (d :: rev (c :: m))) with (rev (rev (c :: m)) ++ [d]).
  rewrite rev_involutive. reflexivity.
Qed.

Lemma pageMarker_shape (p : nat) :
  pageMarker p
  = 45%N :: (lit "-- Page " ++ natToString p ++ lit " --") ++ [45%N].
Proof.
  unfold pageMarker.
  change (lit "--- Page ") with (45%N :: lit "-- Page ").
  change (lit " ---") with (lit " --" ++ [45%N]).
  simpl app. f_equal. rewrite <- !app_assoc. reflexivity.
Qed.

Lemma pageMarker_one_line (p : nat) : ~ In Char.newline (pageMarker p).
Proof.
  unfold pageMarker. intro H.
  apply in_app_or in H as [H | H].
  - simpl in H. repeat (destruct H as [H | H]; [discriminate H |]). exact H.
  - apply in_app_or in H as [H | H].
    + pose proof (natToString_digits p) as D. rewrite Forall_forall in D.
      specialize (D _ H). discriminate D.
    + simpl in H. repeat (destruct H as [H | H]; [discriminate H |]). exact H.
Qed.

Lemma textLines_pageMarker (p : nat) : textLines (pageMarker p) = [pageMarker p].
Proof.
  unfold textLines. rewrite split_without_sep by apply pageMarker_one_line.
  simpl map. rewrite pageMarker_shape, trim_fixed by reflexivity.
  reflexivity.
Qed.

Lemma textLines_break_head (b : jsstring) :
  textLines (paragraphBreak ++ b) = textLines b.
Proof. apply (textLines_break [] b). Qed.

Lemma fullTextFrom_lines (p : nat) (pages : list (list Item)) :
  textLines (fullTextFrom p pages) = pageLinesFrom p pages.
Proof.
  revert p. induction pages as [|page rest IH]; intro p;
    cbn [fullTextFrom pageLinesFrom]; [reflexivity |].
  unfold pageChunk. rewrite <- !app_assoc.
  rewrite textLines_break_head.
  change ([Char.newline] ++ pageText page ++ [Char.newline]
          ++ fullTextFrom (S p) rest)
    with (Char.newline :: pageText page
          ++ Char.newline :: fullTextFrom (S p) rest).
  rewrite textLines_app, textLines_pageMarker.
  rewrite textLines_app, IH. reflexivity.
Qed.

(** X2.  The lines of the extracted PDF text are, page after page for the
    first fifty pages, the marker line [--- Page p ---] followed by the
    non-blank trimmed lines of the page's text; a document that cannot be
    opened gives the empty text. *)
Theorem extractTextFromPDF_lines (pages : list (list Item)) :
  textLines (extractTextFromPDF (Some pages))
  = pageLinesFrom 1 (firstn 50 pages) /\
  extractTextFromPDF None = [].
Proof. split; [apply fullTextFrom_lines | reflexivity]. Qed.

(* ================================================================== *)
(** ** Table indices *)
(* ================================================================== *)

Lemma parseTable_index (lines : list jsstring) (index : nat) (thr : Q)
    (t : TableDetectionResult) :
  parseTable lines index thr = Some t -> tableIndex t = index.
Proof.
  unfold parseTable. cbv zeta.
  destruct (List.length lines <? 2); [discriminate |].
  destruct (List.length (filter _ _) <? 2); [discriminate |].
  destruct (Num.ltb _ _); [discriminate |].
  intro H. injection H as <-. reflexivity.
Qed.

Lemma accepted_index (block : list jsstring) (index : nat) (thr : Q)
    (t : TableDetectionResult) :
  accepted block index thr = Some t -> tableIndex t = index.
Proof.
  unfold accepted. destruct (parseTable block index thr) as [t0|] eqn:E;
    [| discriminate].
  destruct (Num.geb _ _); [| discriminate].
  intro H. injection H as <-. apply (parseTable_index _ _ _ _ E).
Qed.

Lemma detectStep_indices (thr : Q) (s : Sensitivity) (st : DetectState)
    (line : jsstring) :
  map tableIndex (tables st) = seq 0 (nextIndex st) ->
  map tableIndex (tables (detectStep thr s st line))
  = seq 0 (nextIndex (detectStep thr s st line)).
Proof.
  intro H. unfold detectStep.
  repeat match goal with
         | |- context [if ?c then _ else _] =>
             destruct c; cbn [tables nextIndex]; try exact H
         end.
  destruct (accepted _ _ _) eqn:E; cbn [tables nextIndex]; [| exact H].
  rewrite map_app, H, seq_S. cbn [map Nat.add].
  rewrite (accepted_index _ _ _ _ E). reflexivity.
Qed.

Lemma detectLines_indices (lines : list jsstring) (thr : Q) (s : Sensitivity) :
  map tableIndex (detectLines lines thr s)
  = seq 0 (List.length (detectLines lines thr s)).
Proof.
  unfold detectLines.
  assert (I : map tableIndex (tables (mkState [] [] 0 false))
              = seq 0 (nextIndex (mkState [] [] 0 false))) by reflexivity.
  revert I. generalize (mkState [] [] 0 false).
  induction lines as [|l lines IH]; intros st I; simpl.
  - assert (L : List.length (tables st) = nextIndex st).
    { rewrite <- (length_map tableIndex), I. apply length_seq. }
    unfold detectFinish.
    destruct (inTable st && _); [| rewrite L; exact I].
    destruct (accepted _ _ _) eqn:E; [| rewrite L; exact I].
    rewrite map_app, length_app, I, L. cbn [map List.length].
    rewrite (accepted_index _ _ _ _ E), Nat.add_1_r, seq_S. reflexivity.
  - apply IH, detectStep_indices, I.
Qed.

Lemma layoutPages_indices (pages : list (list Item)) (counter : nat) :
  map tableIndex (layoutPages pages counter)
  = seq counter (List.length (layoutPages pages counter)).
Proof.
  revert counter. induction pages as [|page pages IH]; intro counter; simpl;
    [reflexivity |].
  destruct (layoutPage page counter) as [t|] eqn:E; [| apply IH].
  simpl. rewrite IH. apply layoutPage_shape in E as (_ & _ & ->).
  reflexivity.
Qed.

(** X3.  The tables of a document are numbered 0, 1, 2, ... in the order
    of their discovery, without gap or repetition: by the text-pattern
    detector, by the layout detector (a skipped page does not use up a
    number) and in what [processJob] stores. *)
Theorem tableIndex_sequential :
  (forall text thr s,
      map tableIndex (detectTables text thr s)
      = seq 0 (List.length (detectTables text thr s))) /\
  (forall pdf,
      map tableIndex (detectTablesByLayout pdf)
      = seq 0 (List.length (detectTablesByLayout pdf))) /\
  (forall pdf text options,
      map tableIndex (processJobTables pdf text options)
      = seq 0 (List.length (processJobTables pdf text options))).
Proof.
  assert (A : forall text thr s,
             map tableIndex (detectTables text thr s)
             = seq 0 (List.length (detectTables text thr s))).
  { intros. apply detectLines_indices. }
  assert (B : forall pdf,
             map tableIndex (detectTablesByLayout pdf)
             = seq 0 (List.length (detectTablesByLayout pdf))).
  { intros [pages|]; [apply layoutPages_indices | reflexivity]. }
  split; [exact A |]. split; [exact B |].
  intros pdf text options. unfold processJobTables.
  pose proof (B pdf) as Hb.
  destruct (detectTablesByLayout pdf) as [|l ls]; [| exact Hb].
  pose proof (A text (thresholdOf options) (sensitivityOf options)) as Ha.
  destruct (detectTables _ _ _) as [|d ds]; [reflexivity | exact Ha].
Qed.

(* ================================================================== *)
(** ** The score of an emitted table *)
(* ================================================================== *)

Lemma Qnat_nonneg (n : nat) : (0 <= Qnat n)%Q.
Proof. unfold Qnat, Qle. simpl. lia. Qed.

Lemma Qnat_pos (n : nat) : 0 < n -> (0 < Qnat n)%Q.
Proof. intro H. unfold Qnat, Qlt. simpl. lia. Qed.

Lemma Qnat_le (a b : nat) : a <= b -> (Qnat a <= Qnat b)%Q.
Proof. intro H. unfold Qnat, Qle. simpl. lia. Qed.

Lemma mathRound_nonneg (q : Q) : (0 <= q)%Q -> (0 <= mathRound q)%Q.
Proof.
  intro H. unfold mathRound.
  assert (L : (0 <= q + (1 # 2))%Q) by lra.
  apply Qfloor_resp_le in L. change (Qfloor 0) with 0%Z in L.
  rewrite Zle_Qle in L. exact L.
Qed.

Lemma mathRound_le_30 (q : Q) : (q <= 30)%Q -> (mathRound q <= 30)%Q.
Proof.
  intro H. unfold mathRound.
  assert (L : (q + (1 # 2) <= 30 + (1 # 2))%Q) by lra.
  apply Qfloor_resp_le in L.
  change (Qfloor (30 + (1 # 2))) with 30%Z in L.
  rewrite Zle_Qle in L. exact L.
Qed.

Lemma ratio_bounds (a b : nat) :
  0 < b -> a <= b -> (0 <= Qnat a / Qnat b /\ Qnat a / Qnat b <= 1)%Q.
Proof.
  intros Hb Hab. pose proof (Qnat_pos b Hb) as P.
  pose proof (Qnat_nonneg a) as A. pose proof (Qnat_le a b Hab) as L.
  split.
  - apply Qle_shift_div_l; [exact P | lra].
  - apply Qle_shift_div_r; [exact P | lra].
Qed.

Lemma concat_length_uniform {A : Type} (n : nat) (d : list (list A)) :
  Forall (fun row => List.length row = n) d ->
  List.length (List.concat d) = List.length d * n.
Proof.
  induction 1 as [|row d Hr _ IH]; simpl; [reflexivity |].
  rewrite length_app, IH, Hr. reflexivity.
Qed.

Lemma clamp_from (lo m hi raw : Q) :
  (lo <= m)%Q -> (m <= hi)%Q -> (m <= raw)%Q ->
  Num.within m hi (Num.max (Fin lo) (Num.min (Fin hi) (Fin raw))).
Proof.
  intros A B C. simpl.
  destruct (Qltb raw hi) eqn:E1; simpl.
  - apply Qltb_true in E1.
    destruct (Qltb lo raw) eqn:E2; simpl.
    + split; [exact C | lra].
    + apply Qltb_false in E2. split; lra.
  - destruct (Qltb lo hi) eqn:E2; simpl.
    + split; [exact B | apply Qle_refl].
    + apply Qltb_false in E2. split; lra.
Qed.

(** With at least two headers and uniform non-empty data, the score is at
    least 45 before the clamp. *)
Lemma calculateTableConfidence_lower (hs : list jsstring)
    (d : list (list jsstring)) :
  2 <= List.length hs -> 1 <= List.length d ->
  Forall (fun row => List.length row = List.length hs) d ->
  Num.within 45 100 (calculateTableConfidence hs d).
Proof.
  intros Hh Hd U. unfold calculateTableConfidence.
  assert (E1 : (2 <=? List.length hs) = true) by (apply Nat.leb_le, Hh).
  assert (E2 : forallb (fun len => Nat.eqb len (List.length hs))
                       (map (@List.length jsstring) d) = true).
  { apply forallb_forall. intros n Hn.
    apply in_map_iff in Hn as (r & <- & Hr).
    rewrite Forall_forall in U. apply Nat.eqb_eq, U, Hr. }
  cbv zeta. rewrite E1, E2.
  set (good := List.length (filter meaningfulHeader hs)).
  set (empty := List.length (filter _ (List.concat d))).
  assert (Hg : good <= List.length hs) by apply filter_length_le.
  assert (He : empty <= List.length d * List.length hs).
  { rewrite <- (concat_length_uniform _ d U). apply filter_length_le. }
  assert (Ht : 0 < List.length d * List.length hs) by nia.
  destruct (ratio_bounds good (List.length hs)) as [G0 _]; [lia | exact Hg |].
  destruct (ratio_bounds empty _ Ht He) as [_ R1].
  unfold Num.divLengths.
  destruct (List.length hs) as [|n] eqn:En; [lia |].
  destruct (List.length d * S n) as [|tot] eqn:Et; [lia |].
  pose proof (mathRound_nonneg (Qnat good / Qnat (S n) * 10)) as M1.
  pose proof (mathRound_le_30 (Qnat empty / Qnat (S tot) * 30)) as M2.
  assert (Q1 : (0 <= mathRound (Qnat good / Qnat (S n) * 10))%Q)
    by (apply M1; lra).
  assert (Q2 : (mathRound (Qnat empty / Qnat (S tot) * 30) <= 30)%Q)
    by (apply M2; lra).
  unfold bump.
  destruct (2 <=? List.length d); destruct (existsb _ d);
    cbn [Num.add Num.sub Num.neg Num.round Num.scale];
    apply clamp_from; lra.
Qed.

Lemma parseTable_emitted (lines : list jsstring) (index : nat) (thr : Q)
    (t : TableDetectionResult) :
  parseTable lines index thr = Some t ->
  2 <= List.length (headers t) /\ 1 <= List.length (data t).
Proof.
  unfold parseTable. cbv zeta.
  destruct (List.length lines <? 2); [discriminate |].
  set (validRows := filter _ _).
  assert (V : Forall (fun row => 2 <= List.length row) validRows).
  { apply Forall_forall. intros row Hr. apply filter_In in Hr as [_ Hr].
    apply Nat.leb_le, Hr. }
  destruct (List.length validRows <? 2) eqn:E; [discriminate |].
  apply Nat.ltb_ge in E.
  destruct (Num.ltb _ _); [discriminate |].
  intro H. injection H as <-. cbn [headers data].
  rewrite length_map.
  destruct validRows as [|v1 [|v2 rest]]; simpl in E; try lia.
  inversion V as [|? ? V1 _]; subst.
  destruct (detectHeaders (hd [] (v1 :: v2 :: rest))); cbn [hd tl].
  - split; [exact V1 | simpl; lia].
  - rewrite genericHeaders_length. split; [| simpl; lia].
    cbn [map list_max fold_right]. lia.
Qed.

Lemma accepted_emitted (block : list jsstring) (index : nat) (thr : Q)
    (t : TableDetectionResult) :
  accepted block index thr = Some t ->
  2 <= List.length (headers t) /\ 1 <= List.length (data t) /\
  Num.geb (confidence t) (Fin thr) = true /\
  Num.within 45 100 (confidence t).
Proof.
  unfold accepted. destruct (parseTable block index thr) as [t0|] eqn:E;
    [| discriminate].
  destruct (Num.geb (confidence t0) (Fin thr)) eqn:G; [| discriminate].
  intro H. injection H as <-.
  destruct (parseTable_emitted _ _ _ _ E) as [Hh Hd].
  destruct (parseTable_shape _ _ _ _ E) as [R C].
  split; [exact Hh |]. split; [exact Hd |]. split; [exact G |].
  rewrite C. apply calculateTableConfidence_lower; assumption.
Qed.

(** X4.  A table emitted by the text-pattern detector has at least two
    headers and at least one data row, its confidence reaches the threshold
    it was asked for, and lies in [[45, 100]]: the floor of 30 of
    [calculateTableConfidence] is never what an emitted table shows. *)
Theorem emitted_text_table (text : jsstring) (thr : Q) (s : Sensitivity)
    (t : TableDetectionResult) :
  In t (detectTables text thr s) ->
  2 <= List.length (headers t) /\ 1 <= List.length (data t) /\
  Num.geb (confidence t) (Fin thr) = true /\
  Num.within 45 100 (confidence t).
Proof.
  intro H.
  pose proof (detectLines_tables
                (fun t => 2 <= List.length (headers t) /\
                          1 <= List.length (data t) /\
                          Num.geb (confidence t) (Fin thr) = true /\
                          Num.within 45 100 (confidence t))
                thr s (fun block index t => accepted_emitted block index thr t) (textLines text)) as F.
  rewrite Forall_forall in F. apply F, H.
Qed.

Lemma emitted_text_table_witness :
  exists t,
    In t (detectTables (join [Char.newline] regionalSalesLines) 0 high) /\
    2 <= List.length (headers t) /\ 1 <= List.length (data t) /\
    Num.within 45 100 (confidence t).
Proof.
  destruct (detectTables (join [Char.newline] regionalSalesLines) 0 high)
    as [|t ts] eqn:E; [vm_compute in E; discriminate |].
  exists t. split; [left; reflexivity |].
  destruct (emitted_text_table
              (join [Char.newline] regionalSalesLines) 0%Q high t)
    as (A & B & _ & D).
  - rewrite E. left. reflexivity.
  - auto.
Defined.

(* ================================================================== *)
(** ** [trim] is idempotent *)
(* ================================================================== *)

Lemma dropSpaces_head (s : jsstring) (c : code_unit) (r : jsstring) :
  dropSpaces s = c :: r -> Char.isSpace c = false.
Proof.
  induction s as [|d s IH]; simpl; [discriminate |].
  destruct (Char.isSpace d) eqn:E; [exact IH |].
  intro H. injection H as <- _. exact E.
Qed.

Lemma dropSpaces_fixed (c : code_unit) (r : jsstring) :
  Char.isSpace c = false -> dropSpaces (c :: r) = c :: r.
Proof. intro H. simpl. rewrite H. reflexivity. Qed.

Lemma dropSpaces_suffix (s : jsstring) :
  exists p, s = p ++ dropSpaces s /\ forallb Char.isSpace p = true.
Proof.
  induction s as [|c s (p & E & F)]; simpl.
  - exists []. auto.
  - destruct (Char.isSpace c) eqn:Hc.
    + exists (c :: p). simpl. rewrite Hc, F. split; [f_equal; exact E | reflexivity].
    + exists []. auto.
Qed.

Lemma trim_idempotent (s : jsstring) : trim (trim s) = trim s.
Proof.
  unfold trim.
  destruct (dropSpaces s) as [|c r] eqn:U; [reflexivity |].
  pose proof (dropSpaces_head _ _ _ U) as Hc.
  destruct (dropSpaces_suffix (rev (c :: r))) as (p & E & F).
  destruct (dropSpaces (rev (c :: r))) as [|d v] eqn:V.
  - exfalso. rewrite app_nil_r in E.
    assert (In c p) by (rewrite <- E; apply in_rev; rewrite rev_involutive; left; reflexivity).
    rewrite forallb_forall in F. rewrite (F c H) in Hc. discriminate.
  - pose proof (dropSpaces_head _ _ _ V) as Hd.
    assert (R : c :: r = rev (d :: v) ++ rev p).
    { rewrite <- rev_app_distr, <- E, rev_involutive. reflexivity. }
    destruct (rev (d :: v)) as [|c' w] eqn:W.
    + exfalso. apply (f_equal (@List.length code_unit)) in W.
      rewrite length_rev in W. discriminate W.
    + simpl in R. injection R as <- _.
      rewrite (dropSpaces_fixed c w Hc).
      rewrite <- W, rev_involutive, (dropSpaces_fixed d v Hd).
      reflexivity.
Qed.

(* ================================================================== *)
(** ** The shape of a layout table *)
(* ================================================================== *)

Lemma filter_In_length {A : Type} (f : A -> bool) (x : A) (l : list A) :
  In x (filter f l) -> 1 <= List.length (filter f l).
Proof. destruct (filter f l); [intros [] | simpl; lia]. Qed.

Lemma cleanGrid_row_bounds (n : nat) (grid : list (list jsstring))
    (row : list jsstring) :
  Forall (fun r => List.length r = n) grid ->
  In row (cleanGrid grid) ->
  1 <= List.length row <= n.
Proof.
  intros U Hin. unfold cleanGrid in Hin.
  set (rows := filter (existsb hasContent) grid) in *.
  set (keep := map _ (seq 0 (list_max _))) in *.
  apply in_map_iff in Hin as (r & <- & Hr).
  rewrite filterByIndex_length.
  assert (Hg : In r grid /\ existsb hasContent r = true)
    by (apply filter_In; exact Hr).
  destruct Hg as [Hg Hc]. rewrite Forall_forall in U.
  rewrite (U r Hg). split.
  - apply existsb_exists in Hc as (cell & Hcell & Hcontent).
    destruct (In_nth r cell [] Hcell) as (c & Hc & Hn).
    rewrite (U r Hg) in Hc.
    apply filter_In_length with (x := c). apply filter_In. split.
    + apply in_seq. lia.
    + assert (Hmax : n <= list_max (map (@List.length jsstring) rows)).
      { assert (F : Forall (fun k => k <= list_max (map (@List.length jsstring) rows))
                           (map (@List.length jsstring) rows))
          by (apply list_max_le; lia).
        rewrite Forall_forall in F. rewrite <- (U r Hg).
        apply F, in_map, Hr. }
      unfold keep.
      rewrite (nth_indep _ false
                 (existsb (fun r0 => hasContent (nth 0 r0 [])) rows))
        by (rewrite length_map, length_seq; lia).
      rewrite (map_nth (fun c0 => existsb (fun r0 => hasContent (nth c0 r0 []))
                                          rows)).
      rewrite seq_nth by lia.
      apply existsb_exists. exists r. split; [exact Hr |].
      rewrite <- Hn in Hcontent. exact Hcontent.
  - etransitivity; [apply filter_length_le |]. rewrite length_seq. lia.
Qed.

(** X5.  A table of the layout path has between 1 and 12 columns, and every
    cell of its data is trimmed. *)
Theorem layout_table_width (page : list Item) (counter : nat)
    (t : TableDetectionResult) :
  layoutPage page counter = Some t ->
  1 <= List.length (headers t) <= 12 /\
  Forall (Forall (fun cell => trim cell = cell)) (data t).
Proof.
  unfold layoutPage.
  destruct (filter _ page) as [|i0 items] eqn:Ei; [discriminate |].
  cbv zeta.
  set (rows := sortRows (clusterRows (i0 :: items))).
  set (columns := columnsOf (bins (xPositions rows))).
  destruct (List.length columns <? 2) eqn:E2; [discriminate |].
  destruct (12 <? List.length columns) eqn:E12; [discriminate |].
  apply Nat.ltb_ge in E12. cbn [orb].
  pose proof (cleanGrid_row_bounds (List.length columns)
                (buildGrid rows columns)) as B.
  specialize (fun row => B row (buildGrid_wide columns rows)).
  destruct (cleanGrid (buildGrid rows columns)) as [|headerRow rest] eqn:Ec;
    [discriminate |].
  intro H. injection H as <-. cbn [headers data].
  specialize (B headerRow (or_introl eq_refl)).
  split.
  - destruct (layoutIsHeader headerRow);
      [rewrite length_map | rewrite genericHeaders_length]; lia.
  - apply Forall_forall. intros row Hrow.
    apply in_map_iff in Hrow as (r & <- & _).
    apply Forall_forall. intros cell Hcell.
    apply in_map_iff in Hcell as (c & <- & _).
    apply trim_idempotent.
Qed.

Lemma layout_table_width_witness :
  exists t,
    layoutPage samplePage 0 = Some t /\ 1 <= List.length (headers t) <= 12.
Proof.
  destruct (layoutPage samplePage 0) as [t|] eqn:E;
    [| vm_compute in E; discriminate].
  exists t. split; [reflexivity |].
  apply (layout_table_width samplePage 0 t E).
Defined.

(* ================================================================== *)
(** ** Sorting with a comparator *)
(* ================================================================== *)

Lemma insertBy_perm {A : Type} (le : A -> A -> bool) (a : A) (l : list A) :
  Permutation (insertBy le a l) (a :: l).
Proof.
  induction l as [|b l IH]; simpl; [reflexivity |].
  destruct (le a b); [reflexivity |].
  rewrite IH. apply perm_swap.
Qed.

Lemma sortBy_perm {A : Type} (le : A -> A -> bool) (l : list A) :
  Permutation (sortBy le l) l.
Proof.
  induction l as [|a l IH]; simpl; [reflexivity |].
  rewrite insertBy_perm, IH. reflexivity.
Qed.

Section SortedBy.
Variable A : Type.
Variable R : A -> A -> Prop.
Variable le : A -> A -> bool.
Hypothesis le_sound : forall a b, le a b = true -> R a b.
Hypothesis le_total : forall a b, le a b = false -> R b a.

Lemma insertBy_sorted_by (a : A) (l : list A) :
  Sorted R l -> Sorted R (insertBy le a l).
Proof.
  induction l as [|b l IH]; intro H; simpl.
  - repeat constructor.
  - destruct (le a b) eqn:E.
    + constructor; [exact H |]. constructor. apply le_sound, E.
    + inversion H as [|? ? Hs Hh]; subst.
      constructor; [apply IH, Hs |].
      destruct l as [|c l]; simpl.
      * constructor. apply le_total, E.
      * destruct (le a c); constructor; [apply le_total, E |].
        inversion Hh; assumption.
Qed.

Lemma sortBy_sorted_by (l : list A) : Sorted R (sortBy le l).
Proof.
  induction l as [|a l IH]; simpl;
    [constructor | apply insertBy_sorted_by, IH].
Qed.

(** A list that is already in order is left as it is (the sort is
    stable). *)
Lemma sortBy_already (l : list A) :
  StronglySorted (fun a b => le a b = true) l -> sortBy le l = l.
Proof.
  induction 1 as [|a l Hs IH Ha]; simpl; [reflexivity |].
  rewrite IH. destruct l as [|b l]; [reflexivity |].
  simpl. inversion Ha; subst. rewrite H1. reflexivity.
Qed.
End SortedBy.


(* ================================================================== *)
(** ** Row clustering *)
(* ================================================================== *)

Lemma addToRows_perm (y : Q) (it : Item) (rows : list Row) :
  Permutation (flat_map row_items (addToRows y it rows))
              (it :: flat_map row_items rows).
Proof.
  induction rows as [|r rows IH]; simpl; [reflexivity |].
  destruct (Qle_bool _ _); simpl.
  - rewrite <- app_assoc. simpl. symmetry. apply Permutation_middle.
  - rewrite IH. symmetry. apply Permutation_middle.
Qed.

Lemma clusterRows_perm (items : list Item) :
  Permutation (flat_map row_items (clusterRows items)) items.
Proof.
  unfold clusterRows.
  assert (G : forall rows,
             Permutation
               (flat_map row_items
                  (fold_left
                     (fun rows it => addToRows (round2 (it_y it)) it rows)
                     items rows))
               (items ++ flat_map row_items rows)).
  { induction items as [|i items IH]; intro rows; simpl; [reflexivity |].
    rewrite IH, addToRows_perm. symmetry. apply Permutation_middle. }
  rewrite G. simpl. rewrite app_nil_r. reflexivity.
Qed.

Lemma flat_map_perm_pointwise {A B : Type} (f g : A -> list B) (l : list A) :
  (forall a, Permutation (f a) (g a)) ->
  Permutation (flat_map f l) (flat_map g l).
Proof.
  intro H. induction l as [|a l IH]; simpl; [reflexivity |].
  apply Permutation_app; [apply H | exact IH].
Qed.

Lemma sortRows_perm (rows : list Row) :
  Permutation (flat_map row_items (sortRows rows)) (flat_map row_items rows).
Proof.
  unfold sortRows. rewrite flat_map_concat_map, map_map.
  rewrite <- flat_map_concat_map. cbn [row_items].
  etransitivity.
  - apply flat_map_perm_pointwise with (g := row_items).
    intro r. apply sortBy_perm.
  - apply Permutation_flat_map, sortBy_perm.
Qed.





(* ================================================================== *)
(** ** Maps *)
(* ================================================================== *)

Lemma jsstring_eqb_eq (a b : jsstring) : jsstring_eqb a b = true <-> a = b.
Proof.
  unfold jsstring_eqb. destruct (list_eq_dec N.eq_dec a b); split;
    intro H; [assumption | reflexivity | discriminate | contradiction].
Qed.

Lemma jsstring_eqb_refl (a : jsstring) : jsstring_eqb a a = true.
Proof. apply jsstring_eqb_eq. reflexivity. Qed.

Lemma jsstring_eqb_neq (a b : jsstring) : a <> b -> jsstring_eqb a b = false.
Proof.
  intro H. destruct (jsstring_eqb a b) eqn:E; [| reflexivity].
  apply jsstring_eqb_eq in E. contradiction.
Qed.

Section MapLaws.
Variable V : Type.
Implicit Types (m : JsMap V) (k : jsstring) (v : V).

Lemma mapGet_set_same k v m : mapGet k (mapSet k v m) = Some v.
Proof.
  induction m as [|[k' v'] m IH]; simpl.
  - rewrite jsstring_eqb_refl. reflexivity.
  - destruct (jsstring_eqb k k') eqn:E; simpl.
    + rewrite jsstring_eqb_refl. reflexivity.
    + rewrite E. exact IH.
Qed.

Lemma mapGet_set_other k k' v m :
  k' <> k -> mapGet k' (mapSet k v m) = mapGet k' m.
Proof.
  intro N. induction m as [|[k0 v0] m IH]; simpl.
  - rewrite (jsstring_eqb_neq k' k N). reflexivity.
  - destruct (jsstring_eqb k k0) eqn:E; simpl.
    + apply jsstring_eqb_eq in E. subst k0.
      rewrite (jsstring_eqb_neq k' k N). reflexivity.
    + rewrite IH. reflexivity.
Qed.

Lemma mapGet_delete_same k m : mapGet k (mapDelete k m) = None.
Proof.
  unfold mapDelete. induction m as [|[k' v'] m IH]; simpl; [reflexivity |].
  destruct (jsstring_eqb k k') eqn:E; simpl; [exact IH |].
  rewrite E. exact IH.
Qed.

Lemma mapGet_delete_other k k' m :
  k' <> k -> mapGet k' (mapDelete k m) = mapGet k' m.
Proof.
  intro N. unfold mapDelete.
  induction m as [|[k0 v0] m IH]; simpl; [reflexivity |].
  destruct (jsstring_eqb k k0) eqn:E; simpl.
  - apply jsstring_eqb_eq in E. subst k0.
    rewrite (jsstring_eqb_neq k' k N). exact IH.
  - rewrite IH. reflexivity.
Qed.

Lemma mapGet_In k v m : mapGet k m = Some v -> In (k, v) m.
Proof.
  induction m as [|[k' v'] m IH]; simpl; [discriminate |].
  destruct (jsstring_eqb k k') eqn:E.
  - apply jsstring_eqb_eq in E. subst k'. intro H. injection H as ->.
    left. reflexivity.
  - intro H. right. apply IH, H.
Qed.

Lemma mapGet_None k m : mapGet k m = None <-> ~ In k (mapKeys m).
Proof.
  induction m as [|[k' v'] m IH]; simpl; [tauto |].
  destruct (jsstring_eqb k k') eqn:E.
  - apply jsstring_eqb_eq in E. subst k'. split; [discriminate |].
    intro H. exfalso. apply H. left. reflexivity.
  - rewrite IH. split.
    + intros H [Ek | Hin]; [| exact (H Hin)].
      subst. rewrite jsstring_eqb_refl in E. discriminate.
    + intros H Hin. apply H. right. exact Hin.
Qed.

Lemma In_mapGet k v m :
  NoDup (mapKeys m) -> In (k, v) m -> mapGet k m = Some v.
Proof.
  induction m as [|[k' v'] m IH]; simpl; intros N H; [destruct H |].
  inversion N as [|? ? Hn Hm]; subst.
  destruct H as [H | H].
  - injection H as -> ->. rewrite jsstring_eqb_refl. reflexivity.
  - destruct (jsstring_eqb k k') eqn:E; [| apply IH; assumption].
    apply jsstring_eqb_eq in E. subst k'. exfalso. apply Hn.
    apply (in_map fst) in H. exact H.
Qed.

Lemma mapSet_In k v m (e : jsstring * V) :
  In e (mapSet k v m) -> e = (k, v) \/ In e m.
Proof.
  induction m as [|[k' v'] m IH]; simpl.
  - intros [<- | []]. left. reflexivity.
  - destruct (jsstring_eqb k k'); simpl.
    + intros [<- | H]; [left; reflexivity | right; right; exact H].
    + intros [<- | H]; [right; left; reflexivity |].
      destruct (IH H) as [-> | Hin]; [left; reflexivity | right; right; exact Hin].
Qed.

Lemma mapSet_keeps k v m (e : jsstring * V) :
  In e m -> fst e <> k -> In e (mapSet k v m).
Proof.
  intros H N. induction m as [|[k' v'] m IH]; simpl; [destruct H |].
  destruct (jsstring_eqb k k') eqn:E; simpl.
  - destruct H as [<- | H]; [| right; exact H].
    apply jsstring_eqb_eq in E. simpl in N. congruence.
  - destruct H as [<- | H]; [left; reflexivity | right; apply IH, H].
Qed.

Lemma mapSet_keys k v m :
  mapKeys (mapSet k v m)
  = if mapHas k m then mapKeys m else mapKeys m ++ [k].
Proof.
  unfold mapHas. induction m as [|[k' v'] m IH]; simpl; [reflexivity |].
  destruct (jsstring_eqb k k') eqn:E; simpl.
  - apply jsstring_eqb_eq in E. subst. reflexivity.
  - rewrite IH. destruct (mapGet k m); reflexivity.
Qed.

Lemma mapSet_NoDup k v m :
  NoDup (mapKeys m) -> NoDup (mapKeys (mapSet k v m)).
Proof.
  intro N. rewrite mapSet_keys. unfold mapHas.
  destruct (mapGet k m) eqn:E; [exact N |].
  apply mapGet_None in E.
  apply NoDup_app; [exact N | repeat constructor; intros [] |].
  intros x Hx [<- | []]. exact (E Hx).
Qed.

Lemma mapDelete_In k m (e : jsstring * V) :
  In e (mapDelete k m) <-> In e m /\ fst e <> k.
Proof.
  unfold mapDelete. rewrite filter_In, negb_true_iff. split.
  - intros [H E]. split; [exact H |]. intro Ek. subst.
    rewrite jsstring_eqb_refl in E. discriminate.
  - intros [H N]. split; [exact H |].
    apply jsstring_eqb_neq. congruence.
Qed.

Lemma mapDelete_keys k m :
  mapKeys (mapDelete k m)
  = filter (fun k' => negb (jsstring_eqb k k')) (mapKeys m).
Proof.
  unfold mapDelete, mapKeys. induction m as [|[k' v'] m IH]; simpl;
    [reflexivity |].
  destruct (jsstring_eqb k k'); simpl; rewrite IH; reflexivity.
Qed.

Lemma mapDelete_NoDup k m :
  NoDup (mapKeys m) -> NoDup (mapKeys (mapDelete k m)).
Proof. intro N. rewrite mapDelete_keys. apply NoDup_filter, N. Qed.

Lemma mapDeleteAll_NoDup (ks : list jsstring) m :
  NoDup (mapKeys m) ->
  NoDup (mapKeys (fold_left (fun m k => mapDelete k m) ks m)).
Proof.
  revert m. induction ks as [|k ks IH]; intros m N; simpl; [exact N |].
  apply IH, mapDelete_NoDup, N.
Qed.

Lemma mapDeleteAll_In (ks : list jsstring) m (e : jsstring * V) :
  In e (fold_left (fun m k => mapDelete k m) ks m)
  <-> In e m /\ ~ In (fst e) ks.
Proof.
  revert m. induction ks as [|k ks IH]; intro m; simpl; [tauto |].
  rewrite IH, mapDelete_In. split.
  - intros [[H N] N']. split; [exact H |]. intros [E | Hin]; auto.
  - intros [H N]. split; [split; [exact H |] |]; auto.
Qed.
End MapLaws.

Arguments mapGet_set_same {V}.
Arguments mapGet_set_other {V}.
Arguments mapGet_delete_same {V}.
Arguments mapGet_delete_other {V}.
Arguments mapGet_In {V}.
Arguments mapGet_None {V}.
Arguments In_mapGet {V}.
Arguments mapSet_In {V}.
Arguments mapSet_keeps {V}.
Arguments mapSet_keys {V}.
Arguments mapSet_NoDup {V}.
Arguments mapDelete_In {V}.
Arguments mapDelete_keys {V}.
Arguments mapDelete_NoDup {V}.
Arguments mapDeleteAll_NoDup {V}.
Arguments mapDeleteAll_In {V}.

(* ================================================================== *)
(** ** [MemStorage]: what the store keeps true *)
(* ================================================================== *)

Lemma fold_left_map {A B C : Type} (f : A -> C -> A) (g : B -> C)
    (l : list B) (a : A) :
  fold_left (fun a x => f a (g x)) l a = fold_left f (map g l) a.
Proof.
  revert a. induction l as [|x l IH]; intro a; simpl; [reflexivity |].
  apply IH.
Qed.

Lemma storageOk_empty : storageOk emptyStorage.
Proof. constructor; simpl; try constructor; intros ? ? []. Qed.

Lemma keyed_set {V : Type} (key : V -> jsstring) (k : jsstring) (v : V)
    (m : JsMap V) :
  key v = k ->
  (forall k' v', In (k', v') m -> key v' = k') ->
  forall k' v', In (k', v') (mapSet k v m) -> key v' = k'.
Proof.
  intros Hk Hm k' v' H. apply mapSet_In in H as [H | H].
  - injection H as -> ->. exact Hk.
  - apply Hm, H.
Qed.

Lemma keyed_delete {V : Type} (key : V -> jsstring) (k : jsstring)
    (m : JsMap V) :
  (forall k' v', In (k', v') m -> key v' = k') ->
  forall k' v', In (k', v') (mapDelete k m) -> key v' = k'.
Proof. intros Hm k' v' H. apply mapDelete_In in H as [H _]. apply Hm, H. Qed.

Lemma keyed_deleteAll {V : Type} (key : V -> jsstring) (ks : list jsstring)
    (m : JsMap V) :
  (forall k' v', In (k', v') m -> key v' = k') ->
  forall k' v',
    In (k', v') (fold_left (fun m k => mapDelete k m) ks m) -> key v' = k'.
Proof.
  intros Hm k' v' H. apply mapDeleteAll_In in H as [H _]. apply Hm, H.
Qed.

Ltac storage_fields :=
  constructor;
  cbn [snd processingJobs extractedTables originalFiles excelFiles];
  try assumption;
  try (apply mapSet_NoDup; assumption);
  try (apply mapDelete_NoDup; assumption);
  try (apply keyed_delete; assumption);
  try (apply keyed_set; [reflexivity | assumption]).

Lemma updateProcessingJob_ok (id : jsstring) (updates : UpdateJobInput)
    (s : MemStorage) :
  storageOk s -> storageOk (snd (updateProcessingJob id updates s)).
Proof.
  intros [J T F E KJ KT]. unfold updateProcessingJob.
  destruct (mapGet id (processingJobs s)) as [j|] eqn:G;
    [| constructor; assumption].
  storage_fields. apply keyed_set; [| assumption].
  apply mapGet_In in G. apply (KJ _ _ G).
Qed.

Lemma updateExtractedTable_ok (id : jsstring) (updates : UpdateTableInput)
    (s : MemStorage) :
  storageOk s -> storageOk (snd (updateExtractedTable id updates s)).
Proof.
  intros [J T F E KJ KT]. unfold updateExtractedTable.
  destruct (mapGet id (extractedTables s)) as [j|] eqn:G;
    [| constructor; assumption].
  storage_fields. apply keyed_set; [| assumption].
  apply mapGet_In in G. apply (KT _ _ G).
Qed.

Lemma deleteProcessingJob_ok (id : jsstring) (s : MemStorage) :
  storageOk s -> storageOk (snd (deleteProcessingJob id s)).
Proof.
  intros [J T F E KJ KT]. unfold deleteProcessingJob. storage_fields.
  - rewrite (fold_left_map (fun m k => mapDelete k m) tbl_id).
    apply mapDeleteAll_NoDup, T.
  - apply mapDeleteAll_NoDup, E.
  - rewrite (fold_left_map (fun m k => mapDelete k m) tbl_id).
    apply keyed_deleteAll, KT.
Qed.

Lemma createProcessingJob_ok (id : jsstring) (now : Date)
    (ins : InsertProcessingJob) (s : MemStorage) :
  storageOk s -> storageOk (snd (createProcessingJob id now ins s)).
Proof. intros [J T F E KJ KT]. storage_fields. Qed.

Lemma createExtractedTable_ok (id : jsstring) (now : Date)
    (jobId : jsstring) (table : TableDetectionResult) (s : MemStorage) :
  storageOk s ->
  storageOk (snd (createExtractedTable id now jobId table s)).
Proof. intros [J T F E KJ KT]. storage_fields. Qed.

Lemma saveOriginalFile_ok (jobId : jsstring) (file : OriginalFile)
    (s : MemStorage) :
  storageOk s -> storageOk (saveOriginalFile jobId file s).
Proof. intros [J T F E KJ KT]. storage_fields. Qed.

(** X7.  The store keeps its maps well formed: starting from the empty
    store, every operation leaves each key at most once in each map and
    every job and every table under its own id. *)
Theorem storage_keeps_invariant :
  storageOk emptyStorage /\
  forall s, storageOk s ->
    (forall id now ins, storageOk (snd (createProcessingJob id now ins s))) /\
    (forall id updates, storageOk (snd (updateProcessingJob id updates s))) /\
    (forall id, storageOk (snd (deleteProcessingJob id s))) /\
    (forall id now jobId table,
        storageOk (snd (createExtractedTable id now jobId table s))) /\
    (forall id updates, storageOk (snd (updateExtractedTable id updates s))) /\
    (forall id, storageOk (snd (deleteExtractedTable id s))) /\
    (forall jobId file, storageOk (saveOriginalFile jobId file s)) /\
    (forall jobId, storageOk (snd (deleteOriginalFile jobId s))) /\
    (forall jobId tableId buffer,
        storageOk (saveExcelFile jobId tableId buffer s)) /\
    (forall jobId tableId, storageOk (snd (deleteExcelFile jobId tableId s))).
Proof.
  split; [exact storageOk_empty |].
  intros s Ok.
  split; [intros; destruct Ok; storage_fields |].
  split; [intros; apply updateProcessingJob_ok, Ok |].
  split; [intros; apply deleteProcessingJob_ok, Ok |].
  split; [intros; destruct Ok; storage_fields |].
  split; [intros; apply updateExtractedTable_ok, Ok |].
  split; [intros; destruct Ok; storage_fields |].
  split; [intros; destruct Ok; storage_fields |].
  split; [intros; destruct Ok; storage_fields |].
  split; intros; destruct Ok; storage_fields.
Qed.

Lemma storage_keeps_invariant_witness :
  storageOk
    (snd (createProcessingJob (lit "job-1") 0%N
            (mkInsertJob (lit "a.pdf") (lit "pending")) emptyStorage)).
Proof.
  destruct storage_keeps_invariant as [E H].
  destruct (H emptyStorage E) as (C & _). apply C.
Defined.

(* ================================================================== *)
(** ** [MemStorage]: jobs *)
(* ================================================================== *)

Lemma clampPercent_range (q : Q) :
  (0 <= clampPercent q /\ clampPercent q <= 100)%Q.
Proof.
  unfold clampPercent. destruct (Qltb q 100) eqn:E1.
  - apply Qltb_true in E1. destruct (Qltb 0 q) eqn:E2.
    + apply Qltb_true in E2. split; lra.
    + split; [apply Qle_refl | discriminate].
  - rewrite (proj2 (Qltb_true 0 100) eq_refl). split; [discriminate | apply Qle_refl].
Qed.

(** Inside the range the progress is stored as it is given. *)
Lemma clampPercent_inside (q : Q) :
  (0 < q)%Q -> (q < 100)%Q -> clampPercent q = q.
Proof.
  intros A B. unfold clampPercent.
  rewrite (proj2 (Qltb_true q 100) B), (proj2 (Qltb_true 0 q) A).
  reflexivity.
Qed.

(** X8.  The stored progress of every job lies in [[0, 100]]: a new job
    starts at 0; an update of a known job stores the given progress clamped
    to that range, that is 0 for a progress of 0 or less, 100 for one of
    100 or more and the progress itself in between, and an update without
    a progress leaves it as it is; no operation on jobs breaks the bound. *)
Theorem progress_stays_bounded :
  progressBounded emptyStorage /\
  (forall s, progressBounded s ->
     (forall id now ins,
         progressBounded (snd (createProcessingJob id now ins s))) /\
     (forall id updates,
         progressBounded (snd (updateProcessingJob id updates s))) /\
     (forall id, progressBounded (snd (deleteProcessingJob id s)))) /\
  (forall id now ins s,
      job_progress (fst (createProcessingJob id now ins s)) = 0%Q /\
      getProcessingJob id (snd (createProcessingJob id now ins s))
      = Some (fst (createProcessingJob id now ins s))) /\
  (forall id updates s job,
      getProcessingJob id s = Some job ->
      exists job',
        getProcessingJob id (snd (updateProcessingJob id updates s))
        = Some job' /\
        match upd_progress updates with
        | None => job_progress job' = job_progress job
        | Some q =>
            ((q <= 0)%Q -> job_progress job' = 0%Q) /\
            ((0 < q)%Q -> (q < 100)%Q -> job_progress job' = q) /\
            ((100 <= q)%Q -> job_progress job' = 100%Q)
        end).
Proof.
  split; [intros k job [] |].
  split; [| split].
  - intros s B. split; [| split].
    + intros id now ins k job H.
      cbn [snd createProcessingJob processingJobs] in H.
      apply mapSet_In in H as [H | H]; [| apply (B _ _ H)].
      injection H as _ ->. cbn [job_progress]. split; discriminate.
    + intros id updates k job H. unfold updateProcessingJob in H.
      destruct (mapGet id (processingJobs s)) as [j|] eqn:G;
        cbn [snd processingJobs] in H; [| apply (B _ _ H)].
      apply mapSet_In in H as [H | H]; [| apply (B _ _ H)].
      injection H as _ ->. unfold applyJobUpdate. cbn [job_progress].
      destruct (upd_progress updates); [apply clampPercent_range |].
      apply mapGet_In in G. apply (B _ _ G).
    + intros id k job H.
      cbn [snd deleteProcessingJob processingJobs] in H.
      apply mapDelete_In in H as [H _]. apply (B _ _ H).
  - intros id now ins s. split; [reflexivity |].
    unfold getProcessingJob, createProcessingJob.
    cbn [fst snd processingJobs]. apply mapGet_set_same.
  - intros id updates s job G. unfold getProcessingJob in G.
    unfold updateProcessingJob, getProcessingJob. rewrite G.
    cbn [snd processingJobs]. eexists.
    split; [apply mapGet_set_same |].
    unfold applyJobUpdate. cbn [job_progress].
    destruct (upd_progress updates) as [q|]; [| reflexivity].
    unfold clampPercent. split; [| split].
    + intro L. destruct (Qltb q 100) eqn:E1.
      * rewrite (proj2 (Qltb_false 0 q) L). reflexivity.
      * apply Qltb_false in E1. lra.
    + intros A B. rewrite (proj2 (Qltb_true q 100) B).
      rewrite (proj2 (Qltb_true 0 q) A). reflexivity.
    + intro L. rewrite (proj2 (Qltb_false q 100) L). reflexivity.
Qed.

Lemma progress_stays_bounded_witness :
  exists job',
    getProcessingJob (lit "job-1")
      (snd (updateProcessingJob (lit "job-1")
              (mkJobUpdate None (Some 250%Q) None None)
              (snd (createProcessingJob (lit "job-1") 0%N
                      (mkInsertJob (lit "a.pdf") (lit "pending"))
                      emptyStorage)))) = Some job' /\
    job_progress job' = 100%Q.
Proof.
  destruct progress_stays_bounded as (_ & _ & _ & U).
  destruct (U (lit "job-1") (mkJobUpdate None (Some 250%Q) None None)
              (snd (createProcessingJob (lit "job-1") 0%N
                      (mkInsertJob (lit "a.pdf") (lit "pending"))
                      emptyStorage))
              (mkJob (lit "job-1") (lit "a.pdf") (lit "pending") 0%N None
                     None 0%Q)
              eq_refl) as (job' & G & M).
  exists job'. split; [exact G |].
  cbn [upd_progress] in M. destruct M as (_ & _ & M).
  apply M. discriminate.
Defined.



(* ================================================================== *)
(** ** [MemStorage]: tables *)
(* ================================================================== *)

(** X10.  [getExtractedTablesByJobId] returns the stored tables of the job,
    each once, and no table of another job, in ascending [tableIndex]. *)
Theorem getExtractedTablesByJobId_sorted (jobId : jsstring)
    (s : MemStorage) :
  Permutation (getExtractedTablesByJobId jobId s)
              (filter (fun table => jsstring_eqb (tbl_jobId table) jobId)
                      (mapValues (extractedTables s))) /\
  Sorted byTableIndex (getExtractedTablesByJobId jobId s) /\
  Forall (fun table => tbl_jobId table = jobId)
         (getExtractedTablesByJobId jobId s).
Proof.
  unfold getExtractedTablesByJobId. split; [apply sortBy_perm |]. split.
  - apply sortBy_sorted_by.
    + intros a b E. apply Nat.leb_le, E.
    + intros a b E. apply Nat.leb_gt in E. unfold byTableIndex. lia.
  - apply Forall_forall. intros t H. apply sortBy_In, filter_In in H as [_ H].
    apply jsstring_eqb_eq, H.
Qed.

Lemma mapGet_deleteAll_out {V : Type} (ks : list jsstring) (k : jsstring)
    (m : JsMap V) :
  ~ In k ks -> mapGet k (fold_left (fun m k => mapDelete k m) ks m)
               = mapGet k m.
Proof.
  revert m. induction ks as [|k0 ks IH]; intros m N; simpl; [reflexivity |].
  rewrite IH by (intro H; apply N; right; exact H).
  apply mapGet_delete_other. intro E. apply N. left. symmetry. exact E.
Qed.

Lemma mapGet_deleteAll_in {V : Type} (ks : list jsstring) (k : jsstring)
    (m : JsMap V) :
  In k ks -> mapGet k (fold_left (fun m k => mapDelete k m) ks m) = None.
Proof.
  intro H. apply mapGet_None. intro Hk.
  apply in_map_iff in Hk as ([k' v] & E & Hin). simpl in E. subst k'.
  apply mapDeleteAll_In in Hin as [_ N]. exact (N H).
Qed.

Lemma filter_nil {A : Type} (f : A -> bool) (l : list A) :
  (forall x, In x l -> f x = false) -> filter f l = [].
Proof.
  induction l as [|a l IH]; intro H; simpl; [reflexivity |].
  rewrite (H a (or_introl eq_refl)). apply IH.
  intros x Hx. apply H. right. exact Hx.
Qed.

Lemma filter_values_delete {V : Type} (f : V -> bool) (k : jsstring)
    (m : JsMap V) :
  (forall k0 v, In (k0, v) m -> f v = true -> k0 <> k) ->
  filter f (mapValues (mapDelete k m)) = filter f (mapValues m).
Proof.
  unfold mapValues, mapDelete.
  induction m as [|[k0 v] m IH]; intro H; simpl; [reflexivity |].
  assert (IH' : filter f (map snd (filter (fun e => negb (jsstring_eqb k (fst e))) m))
                = filter f (map snd m)).
  { apply IH. intros k1 v1 Hin. apply H. right. exact Hin. }
  destruct (jsstring_eqb k k0) eqn:E; simpl.
  - destruct (f v) eqn:Fv; [| exact IH'].
    apply jsstring_eqb_eq in E. exfalso.
    apply (H k0 v (or_introl eq_refl) Fv). symmetry. exact E.
  - rewrite IH'. reflexivity.
Qed.

Lemma filter_values_deleteAll {V : Type} (f : V -> bool)
    (ks : list jsstring) (m : JsMap V) :
  (forall k0 v, In (k0, v) m -> f v = true -> ~ In k0 ks) ->
  filter f (mapValues (fold_left (fun m k => mapDelete k m) ks m))
  = filter f (mapValues m).
Proof.
  revert m. induction ks as [|k ks IH]; intros m H; simpl; [reflexivity |].
  rewrite IH.
  - apply filter_values_delete. intros k0 v Hin Fv E. subst.
    apply (H k v Hin Fv). left. reflexivity.
  - intros k0 v Hin Fv Hk. apply mapDelete_In in Hin as [Hin _].
    apply (H k0 v Hin Fv). right. exact Hk.
Qed.

Lemma startsWith_app (a b : jsstring) : startsWith (a ++ b) a = true.
Proof.
  induction a as [|c a IH]; simpl; [reflexivity |].
  rewrite N.eqb_refl. exact IH.
Qed.

Lemma startsWith_inv (s p : jsstring) :
  startsWith s p = true -> exists r, s = p ++ r.
Proof.
  revert s. induction p as [|c p IH]; intros s H; simpl in H.
  - exists s. reflexivity.
  - destruct s as [|d s]; [discriminate |].
    apply andb_prop in H as [E H]. apply N.eqb_eq in E. subst d.
    destruct (IH s H) as (r & ->). exists r. reflexivity.
Qed.

Lemma excelKey_marked (jobId : jsstring) (tableId : option jsstring) :
  jsstring_eqb (excelKey jobId tableId) jobId
  || startsWith (excelKey jobId tableId) (jobId ++ lit ":") = true.
Proof.
  destruct tableId as [[|c t]|]; unfold excelKey;
    try (rewrite jsstring_eqb_refl; reflexivity).
  apply orb_true_iff. right.
  rewrite app_assoc. apply startsWith_app.
Qed.

(** X11.  After [deleteProcessingJob] nothing of the job is left: the job
    itself, its tables, its original file and its Excel files are gone; the
    result tells whether the job existed.  The jobs, tables and original
    files of every other job are as before. *)
Theorem deleteProcessingJob_clears (id : jsstring) (s : MemStorage) :
  storageOk s ->
  let s' := snd (deleteProcessingJob id s) in
  fst (deleteProcessingJob id s) = mapHas id (processingJobs s) /\
  getProcessingJob id s' = None /\
  getExtractedTablesByJobId id s' = [] /\
  getOriginalFile id s' = None /\
  (forall tableId, getExcelFile id tableId s' = None) /\
  (forall id',
      id' <> id ->
      getProcessingJob id' s' = getProcessingJob id' s /\
      getExtractedTablesByJobId id' s' = getExtractedTablesByJobId id' s /\
      getOriginalFile id' s' = getOriginalFile id' s).
Proof.
  intros [J T F E KJ KT]. cbv zeta.
  unfold deleteProcessingJob, getProcessingJob, getOriginalFile, getExcelFile.
  cbn [fst snd processingJobs extractedTables originalFiles excelFiles].
  assert (Ids : forall k v,
             In (k, v) (extractedTables s) ->
             jsstring_eqb (tbl_jobId v) id = true ->
             In k (map tbl_id (getExtractedTablesByJobId id s))).
  { intros k v Hin Hj. rewrite <- (KT k v Hin). apply in_map.
    unfold getExtractedTablesByJobId. apply sortBy_In, filter_In.
    split; [| exact Hj]. apply (in_map snd) in Hin. exact Hin. }
  split; [reflexivity |].
  split; [apply mapGet_delete_same |].
  split.
  - unfold getExtractedTablesByJobId at 1.
    cbn [extractedTables].
    rewrite (fold_left_map (fun m k => mapDelete k m) tbl_id).
    rewrite filter_nil; [reflexivity |].
    intros v Hv. apply in_map_iff in Hv as ([k v'] & Ev & Hin).
    simpl in Ev. subst v'.
    apply mapDeleteAll_In in Hin as [Hin N]. simpl in N.
    destruct (jsstring_eqb (tbl_jobId v) id) eqn:Ej; [| reflexivity].
    exfalso. apply N, (Ids k v Hin Ej).
  - split; [apply mapGet_delete_same |].
    split.
    + intro tableId. apply mapGet_None. intro Hk.
      apply in_map_iff in Hk as ([k v] & Ek & Hin). simpl in Ek. subst k.
      apply mapDeleteAll_In in Hin as [Hin N]. apply N. simpl.
      apply filter_In. split; [| apply excelKey_marked].
      apply (in_map fst) in Hin. exact Hin.
    + intros id' Nid. split; [apply mapGet_delete_other, Nid |].
      split; [| apply mapGet_delete_other, Nid].
      unfold getExtractedTablesByJobId. cbn [extractedTables].
      rewrite (fold_left_map (fun m k => mapDelete k m) tbl_id).
      f_equal. apply filter_values_deleteAll.
      intros k v Hin Hj Hk.
      apply in_map_iff in Hk as (t & Et & Ht).
      unfold getExtractedTablesByJobId in Ht.
      apply sortBy_In, filter_In in Ht as [Ht Hjt].
      apply in_map_iff in Ht as ([k' t'] & Et' & Hin'). simpl in Et'. subst t'.
      pose proof (KT _ _ Hin') as Kt. rewrite Et in Kt. subst k'.
      pose proof (In_mapGet k v _ T Hin) as G1.
      pose proof (In_mapGet k t _ T Hin') as G2.
      rewrite G1 in G2. injection G2 as ->.
      apply jsstring_eqb_eq in Hj, Hjt. congruence.
Qed.

Lemma deleteProcessingJob_clears_witness :
  getProcessingJob (lit "job-1")
    (snd (deleteProcessingJob (lit "job-1")
            (snd (createProcessingJob (lit "job-1") 0%N
                    (mkInsertJob (lit "a.pdf") (lit "pending"))
                    emptyStorage))))
  = None.
Proof.
  apply (deleteProcessingJob_clears (lit "job-1")).
  apply createProcessingJob_ok, storageOk_empty.
Defined.

(* ================================================================== *)
(** ** [MemStorage]: the Excel cache *)
(* ================================================================== *)

Lemma app_sep_inj (c : code_unit) (a b x y : jsstring) :
  ~ In c a -> ~ In c b -> a ++ c :: x = b ++ c :: y -> a = b /\ x = y.
Proof.
  revert b. induction a as [|d a IH]; intros [|e b] Na Nb H; simpl in H.
  - injection H as ->. auto.
  - injection H as -> _. exfalso. apply Nb. left. reflexivity.
  - injection H as -> _. exfalso. apply Na. left. reflexivity.
  - injection H as -> H.
    destruct (IH b) as [-> ->]; auto.
    + intro Hin. apply Na. right. exact Hin.
    + intro Hin. apply Nb. right. exact Hin.
Qed.

Lemma excelKey_cases (jobId : jsstring) (tableId : option jsstring) :
  (tableIdOf tableId = None /\ excelKey jobId tableId = jobId) \/
  (exists t, tableIdOf tableId = Some t /\
             excelKey jobId tableId = jobId ++ colon :: t).
Proof.
  destruct tableId as [[|c t]|]; simpl; auto.
  right. exists (c :: t). auto.
Qed.

Lemma excelKey_inj (j j' : jsstring) (t t' : option jsstring) :
  noColon j -> noColon j' -> excelKey j t = excelKey j' t' ->
  j = j' /\ tableIdOf t = tableIdOf t'.
Proof.
  intros Nj Nj' H.
  destruct (excelKey_cases j t) as [[T K] | (x & T & K)];
    destruct (excelKey_cases j' t') as [[T' K'] | (x' & T' & K')];
    rewrite K, K' in H; rewrite T, T'.
  - auto.
  - exfalso. apply Nj. rewrite H. apply in_or_app. right. left. reflexivity.
  - exfalso. apply Nj'. rewrite <- H. apply in_or_app. right. left.
    reflexivity.
  - destruct (app_sep_inj colon j j' x x' Nj Nj' H) as [-> ->]. auto.
Qed.

(** X12.  The Excel cache returns what was saved under the same job and
    table id, and nothing after the deletion; a table id of [''] is the same
    as none, so it addresses the combined file of the job.  For job ids
    without a colon a saved file is never returned for another job or
    another table. *)
Theorem excel_cache (s : MemStorage) (jobId : jsstring)
    (tableId : option jsstring) (buffer : Buffer) :
  getExcelFile jobId tableId (saveExcelFile jobId tableId buffer s)
  = Some buffer /\
  getExcelFile jobId tableId (snd (deleteExcelFile jobId tableId s)) = None /\
  getExcelFile jobId None (saveExcelFile jobId (Some []) buffer s)
  = Some buffer /\
  (forall jobId' tableId',
      noColon jobId -> noColon jobId' ->
      jobId' <> jobId \/ tableIdOf tableId' <> tableIdOf tableId ->
      getExcelFile jobId' tableId' (saveExcelFile jobId tableId buffer s)
      = getExcelFile jobId' tableId' s).
Proof.
  unfold getExcelFile, saveExcelFile, deleteExcelFile.
  cbn [snd excelFiles].
  split; [apply mapGet_set_same |].
  split; [apply mapGet_delete_same |].
  split; [apply (mapGet_set_same jobId) |].
  intros jobId' tableId' N N' D. apply mapGet_set_other. intro E.
  destruct (excelKey_inj _ _ _ _ N' N E) as [Ej Et].
  destruct D as [D | D]; contradiction.
Qed.

Lemma excel_cache_witness :
  getExcelFile (lit "job-2") None
    (saveExcelFile (lit "job-1") (Some (lit "t1")) [1%N] emptyStorage)
  = getExcelFile (lit "job-2") None emptyStorage.
Proof.
  apply (excel_cache emptyStorage (lit "job-1") (Some (lit "t1")) [1%N]).
  - intro H. simpl in H.
    repeat (destruct H as [H | H]; [discriminate H |]). exact H.
  - intro H. simpl in H.
    repeat (destruct H as [H | H]; [discriminate H |]). exact H.
  - left. discriminate.
Defined.

(** X13.  For job ids without a colon, [deleteProcessingJob] leaves the
    Excel files of every other job in the cache.  With a colon in an id it
    need not: deleting the job [a] also deletes the file of the job
    [a:b]. *)
Theorem deleteProcessingJob_spares_excel (id jobId' : jsstring)
    (tableId' : option jsstring) (s : MemStorage) :
  (noColon id -> noColon jobId' -> jobId' <> id ->
   getExcelFile jobId' tableId' (snd (deleteProcessingJob id s))
   = getExcelFile jobId' tableId' s) /\
  getExcelFile (lit "a:b") None
    (snd (deleteProcessingJob (lit "a")
            (saveExcelFile (lit "a:b") None [1%N] emptyStorage)))
  = None.
Proof.
  split; [| reflexivity].
  intros N N' D. unfold getExcelFile, deleteProcessingJob.
  cbn [snd excelFiles]. apply mapGet_deleteAll_out.
  intro H. apply filter_In in H as [_ H]. apply orb_prop in H as [H | H].
  - apply jsstring_eqb_eq in H.
    change id with (excelKey id None) in H.
    destruct (excelKey_inj _ _ _ _ N' N H) as [E _]. contradiction.
  - apply startsWith_inv in H as (r & H).
    rewrite <- app_assoc in H. change (lit ":" ++ r) with (colon :: r) in H.
    destruct (excelKey_cases jobId' tableId') as [[_ K] | (x & _ & K)];
      rewrite K in H.
    + apply N'. rewrite H. apply in_or_app. right. left. reflexivity.
    + destruct (app_sep_inj colon _ _ _ _ N' N H) as [E _]. contradiction.
Qed.

Lemma deleteProcessingJob_spares_excel_witness :
  getExcelFile (lit "job-2") None
    (snd (deleteProcessingJob (lit "job-1")
            (saveExcelFile (lit "job-2") None [1%N] emptyStorage)))
  = Some [1%N].
Proof.
  destruct (deleteProcessingJob_spares_excel (lit "job-1") (lit "job-2") None
              (saveExcelFile (lit "job-2") None [1%N] emptyStorage))
    as [H _].
  rewrite H; [reflexivity | | | discriminate].
  - intro I. simpl in I.
    repeat (destruct I as [I | I]; [discriminate I |]). exact I.
  - intro I. simpl in I.
    repeat (destruct I as [I | I]; [discriminate I |]). exact I.
Defined.

(* ================================================================== *)
(** ** [MemStorage]: the list of jobs *)
(* ================================================================== *)

Lemma Sorted_firstn {A : Type} (R : A -> A -> Prop) (n : nat) (l : list A) :
  Sorted R l -> Sorted R (firstn n l).
Proof.
  intro H. revert n. induction H as [|a l Hs IH Hh]; intros [|n]; simpl;
    try constructor; [apply IH |].
  destruct Hh; destruct n; simpl; constructor. assumption.
Qed.

Lemma firstn_subset {A : Type} (n : nat) (l : list A) (x : A) :
  In x (firstn n l) -> In x l.
Proof.
  revert l. induction n as [|n IH]; intros [|a l] H; simpl in H;
    try contradiction.
  destruct H as [<- | H]; [left; reflexivity | right; apply IH, H].
Qed.

(** X14.  [getAllProcessingJobs] returns stored jobs only, newest upload
    first; with a status it returns jobs of that status only, and with a
    limit at most that many. *)
Theorem getAllProcessingJobs_result (status : option jsstring)
    (limit : option nat) (s : MemStorage) :
  (forall job,
      In job (getAllProcessingJobs status limit s) ->
      In job (mapValues (processingJobs s))) /\
  Sorted newestFirst (getAllProcessingJobs status limit s) /\
  (forall c st,
      status = Some (c :: st) ->
      Forall (fun job => job_status job = c :: st)
             (getAllProcessingJobs status limit s)) /\
  (forall n,
      limit = Some (S n) ->
      List.length (getAllProcessingJobs status limit s) <= S n).
Proof.
  unfold getAllProcessingJobs. cbv zeta.
  set (jobs := mapValues (processingJobs s)).
  set (chosen := match status with
                 | Some (c :: st) =>
                     filter (fun job => jsstring_eqb (job_status job) (c :: st))
                            jobs
                 | _ => jobs
                 end).
  set (sorted := sortBy _ chosen).
  assert (C : forall job, In job chosen -> In job jobs).
  { unfold chosen. destruct status as [[|c st]|]; auto.
    intros job H. apply filter_In in H as [H _]. exact H. }
  assert (S1 : forall job, In job sorted -> In job chosen)
    by (intros job H; apply sortBy_In in H; exact H).
  assert (S2 : Sorted newestFirst sorted).
  { apply sortBy_sorted_by.
    - intros a b E. apply N.leb_le, E.
    - intros a b E. apply N.leb_gt in E. unfold newestFirst. lia. }
  assert (L : forall job,
             In job (match limit with
                     | Some (S n) => firstn (S n) sorted
                     | _ => sorted
                     end) -> In job sorted).
  { destruct limit as [[|n]|]; auto. intros job H.
    apply firstn_subset in H. exact H. }
  split; [intros job H; apply C, S1, L, H |].
  split; [destruct limit as [[|n]|]; auto; apply Sorted_firstn, S2 |].
  split.
  - intros c st ->. apply Forall_forall. intros job H.
    apply L, S1 in H. unfold chosen in H. apply filter_In in H as [_ H].
    apply jsstring_eqb_eq, H.
  - intros n ->. apply firstn_le_length.
Qed.

Lemma getAllProcessingJobs_result_witness :
  List.length
    (getAllProcessingJobs (Some (lit "pending")) (Some 1)
       (snd (createProcessingJob (lit "job-2") 5%N
               (mkInsertJob (lit "b.pdf") (lit "pending"))
               (snd (createProcessingJob (lit "job-1") 3%N
                       (mkInsertJob (lit "a.pdf") (lit "pending"))
                       emptyStorage)))))
  <= 1.
Proof.
  destruct (getAllProcessingJobs_result (Some (lit "pending")) (Some 1)
              (snd (createProcessingJob (lit "job-2") 5%N
                      (mkInsertJob (lit "b.pdf") (lit "pending"))
                      (snd (createProcessingJob (lit "job-1") 3%N
                              (mkInsertJob (lit "a.pdf") (lit "pending"))
                              emptyStorage)))))
    as (_ & _ & _ & L).
  apply (L 0). reflexivity.
Defined.

(* ================================================================== *)
(** ** [processJob] *)
(* ================================================================== *)

Lemma setDelete_setAdd (id : jsstring) (ids : list jsstring) :
  setHas id ids = false -> setDelete id (setAdd id ids) = ids.
Proof.
  intro H. unfold setAdd. rewrite H. unfold setDelete.
  rewrite filter_app. simpl. rewrite jsstring_eqb_refl. simpl.
  rewrite app_nil_r. unfold setHas in H.
  induction ids as [|i ids IH]; simpl in *; [reflexivity |].
  apply orb_false_elim in H as [E H]. rewrite E. simpl.
  f_equal. apply IH, H.
Qed.

Lemma updateProcessingJob_get (id : jsstring) (updates : UpdateJobInput)
    (s : MemStorage) (job : ProcessingJob) :
  getProcessingJob id s = Some job ->
  getProcessingJob id (snd (updateProcessingJob id updates s))
  = Some (applyJobUpdate job updates).
Proof.
  unfold getProcessingJob, updateProcessingJob. intro G. rewrite G.
  cbn [snd processingJobs]. apply mapGet_set_same.
Qed.

Lemma updateProcessingJob_get_other (id other : jsstring)
    (updates : UpdateJobInput) (s : MemStorage) :
  other <> id ->
  getProcessingJob other (snd (updateProcessingJob id updates s))
  = getProcessingJob other s.
Proof.
  unfold getProcessingJob, updateProcessingJob. intro N.
  destruct (mapGet id (processingJobs s)); [| reflexivity].
  cbn [snd processingJobs]. apply mapGet_set_other. exact N.
Qed.

Lemma updateProcessingJob_frame (id : jsstring) (updates : UpdateJobInput)
    (s : MemStorage) :
  extractedTables (snd (updateProcessingJob id updates s)) = extractedTables s
  /\ originalFiles (snd (updateProcessingJob id updates s)) = originalFiles s
  /\ excelFiles (snd (updateProcessingJob id updates s)) = excelFiles s.
Proof.
  unfold updateProcessingJob.
  destruct (mapGet id (processingJobs s)); repeat split.
Qed.

Lemma updateProcessingJob_tables (id : jsstring) (updates : UpdateJobInput)
    (s : MemStorage) :
  extractedTables (snd (updateProcessingJob id updates s))
  = extractedTables s.
Proof. apply updateProcessingJob_frame. Qed.

Lemma updateProcessingJob_files (id : jsstring) (updates : UpdateJobInput)
    (s : MemStorage) :
  originalFiles (snd (updateProcessingJob id updates s)) = originalFiles s.
Proof. apply updateProcessingJob_frame. Qed.

Lemma updateProcessingJob_excel (id : jsstring) (updates : UpdateJobInput)
    (s : MemStorage) :
  excelFiles (snd (updateProcessingJob id updates s)) = excelFiles s.
Proof. apply updateProcessingJob_frame. Qed.

Lemma mapSet_absent {V : Type} (k : jsstring) (v : V) (m : JsMap V) :
  ~ In k (mapKeys m) -> mapSet k v m = m ++ [(k, v)].
Proof.
  induction m as [|[k' v'] m IH]; simpl; intro N; [reflexivity |].
  destruct (jsstring_eqb k k') eqn:E.
  - apply jsstring_eqb_eq in E. exfalso. apply N. left. symmetry. exact E.
  - f_equal. apply IH. intro H. apply N. right. exact H.
Qed.

Lemma freshIds_tables (randomUUID : nat -> jsstring) (n k : nat)
    (s s' : MemStorage) :
  extractedTables s' = extractedTables s ->
  freshIds randomUUID n k s -> freshIds randomUUID n k s'.
Proof. unfold freshIds. intros ->. tauto. Qed.

Lemma processJobTables_indices (pdf : option (list (list Item)))
    (text : jsstring) (options : ProcessingOptions) :
  map tableIndex (processJobTables pdf text options)
  = seq 0 (List.length (processJobTables pdf text options)).
Proof.
  unfold processJobTables.
  assert (B : map tableIndex (detectTablesByLayout pdf)
              = seq 0 (List.length (detectTablesByLayout pdf))).
  { destruct pdf as [pages|]; [apply layoutPages_indices | reflexivity]. }
  destruct (detectTablesByLayout pdf) as [|l ls]; [| exact B].
  pose proof (detectLines_indices (textLines text) (thresholdOf options)
                (sensitivityOf options)) as A.
  fold (detectTables text (thresholdOf options) (sensitivityOf options)) in A.
  destruct (detectTables _ _ _) as [|d ds]; [reflexivity | exact A].
Qed.

Lemma processJobTables_nonempty (pdf : option (list (list Item)))
    (text : jsstring) (options : ProcessingOptions) :
  processJobTables pdf text options <> [].
Proof.
  unfold processJobTables.
  destruct (detectTablesByLayout pdf); [| discriminate].
  destruct (detectTables _ _ _); discriminate.
Qed.

Section ProcessJobFacts.
Variable getDocument : Buffer -> option (list (list Item)).
Variable performOCR : Buffer -> jsstring -> OcrResult.
Variable randomUUID : nat -> jsstring.
Variable dateNow : nat -> Date.

Lemma saveTables_jobs (jobId : jsstring) (tables : list TableDetectionResult)
    (s : MemStorage) (n : nat) :
  processingJobs (fst (saveTables randomUUID dateNow jobId tables s n))
  = processingJobs s /\
  originalFiles (fst (saveTables randomUUID dateNow jobId tables s n))
  = originalFiles s /\
  excelFiles (fst (saveTables randomUUID dateNow jobId tables s n))
  = excelFiles s /\
  snd (saveTables randomUUID dateNow jobId tables s n)
  = n + List.length tables.
Proof.
  revert s n. induction tables as [|t tables IH]; intros s n;
    cbn [saveTables fst snd List.length].
  - repeat split. lia.
  - destruct (IH (snd (createExtractedTable (randomUUID n) (dateNow n)
                         jobId t s)) (S n)) as (A & B & C & D).
    rewrite A, B, C, D. repeat split. lia.
Qed.

Lemma saveTables_get (jobId : jsstring) (tables : list TableDetectionResult)
    (s : MemStorage) (n : nat) (id : jsstring) :
  getProcessingJob id (fst (saveTables randomUUID dateNow jobId tables s n))
  = getProcessingJob id s.
Proof.
  unfold getProcessingJob.
  destruct (saveTables_jobs jobId tables s n) as (-> & _). reflexivity.
Qed.

Lemma saveTables_files (jobId : jsstring) (tables : list TableDetectionResult)
    (s : MemStorage) (n : nat) :
  originalFiles (fst (saveTables randomUUID dateNow jobId tables s n))
  = originalFiles s.
Proof. apply saveTables_jobs. Qed.

Lemma saveTables_excel (jobId : jsstring) (tables : list TableDetectionResult)
    (s : MemStorage) (n : nat) :
  excelFiles (fst (saveTables randomUUID dateNow jobId tables s n))
  = excelFiles s.
Proof. apply saveTables_jobs. Qed.

Lemma saveTables_draws (jobId : jsstring) (tables : list TableDetectionResult)
    (s : MemStorage) (n : nat) :
  snd (saveTables randomUUID dateNow jobId tables s n)
  = n + List.length tables.
Proof. apply saveTables_jobs. Qed.

(** With new ids the loop appends the tables to the map, in their order. *)
Lemma saveTables_tables (jobId : jsstring)
    (tables : list TableDetectionResult) (s : MemStorage) (n : nat) :
  freshIds randomUUID n (List.length tables) s ->
  extractedTables (fst (saveTables randomUUID dateNow jobId tables s n))
  = extractedTables s
    ++ map (fun t => (tbl_id t, t))
           (storedTables randomUUID dateNow jobId n tables).
Proof.
  revert s n. induction tables as [|t tables IH]; intros s n [D F];
    cbn [saveTables storedTables fst map List.length] in *.
  - symmetry. apply app_nil_r.
  - cbn [seq map] in D. apply NoDup_cons_iff in D as [D1 D2].
    assert (N : ~ In (randomUUID n) (mapKeys (extractedTables s))).
    { apply F. left. reflexivity. }
    rewrite IH.
    + cbn [createExtractedTable snd extractedTables tbl_id].
      rewrite (mapSet_absent _ _ _ N), <- app_assoc. reflexivity.
    + split; [exact D2 |]. intros i Hi.
      cbn [createExtractedTable snd extractedTables].
      rewrite (mapSet_absent _ _ _ N). unfold mapKeys.
      rewrite map_app. intro H. apply in_app_or in H as [H | H].
      * apply (F i); [right; exact Hi | exact H].
      * simpl in H. destruct H as [H | []]. apply D1. rewrite H.
        apply in_map, Hi.
Qed.

Lemma storedTables_tables (jobId : jsstring) (n : nat)
    (tables : list TableDetectionResult) :
  map tbl_table (storedTables randomUUID dateNow jobId n tables) = tables.
Proof.
  revert n. induction tables as [|t tables IH]; intro n; simpl;
    [reflexivity |]. rewrite IH. reflexivity.
Qed.

Lemma storedTables_jobId (jobId other : jsstring) (n : nat)
    (tables : list TableDetectionResult) :
  filter (fun table => jsstring_eqb (tbl_jobId table) other)
         (storedTables randomUUID dateNow jobId n tables)
  = if jsstring_eqb jobId other
    then storedTables randomUUID dateNow jobId n tables else [].
Proof.
  revert n. induction tables as [|t tables IH]; intro n; simpl.
  - destruct (jsstring_eqb jobId other); reflexivity.
  - rewrite IH. destruct (jsstring_eqb jobId other); reflexivity.
Qed.

Lemma storedTables_sorted (jobId : jsstring) (n a : nat)
    (tables : list TableDetectionResult) :
  map tableIndex tables = seq a (List.length tables) ->
  StronglySorted
    (fun x y => Nat.leb (tableIndex (tbl_table x)) (tableIndex (tbl_table y))
                = true)
    (storedTables randomUUID dateNow jobId n tables).
Proof.
  revert n a. induction tables as [|t tables IH]; intros n a H; simpl.
  - constructor.
  - simpl in H. injection H as Ht H. constructor.
    + apply (IH (S n) (S a) H).
    + apply Forall_forall. intros x Hx. simpl.
      apply Nat.leb_le.
      assert (I : In (tableIndex (tbl_table x)) (seq (S a)
                                                    (List.length tables))).
      { rewrite <- H, <- (storedTables_tables jobId (S n) tables) at 1.
        rewrite map_map. apply (in_map (fun y => tableIndex (tbl_table y))).
        exact Hx. }
      apply in_seq in I. lia.
Qed.

(** The job at the end of the [try] block, as a function of the job at its
    start. *)
Lemma processJobBody_job (jobId : jsstring) (ocrLanguage : option jsstring)
    (options : ProcessingOptions) (s : MemStorage) (n : nat)
    (job : ProcessingJob) :
  getProcessingJob jobId s = Some job ->
  exists job',
    getProcessingJob jobId
      (fst (processJobBody getDocument performOCR randomUUID dateNow
              jobId ocrLanguage options s n)) = Some job' /\
    job_id job' = job_id job /\
    job_filename job' = job_filename job /\
    job_uploadedAt job' = job_uploadedAt job /\
    match getOriginalFile jobId s with
    | None =>
        job_status job' = statusFailed /\ job_progress job' = 0%Q /\
        job_errorMessage job' = Some (lit "Original PDF file not found") /\
        job_completedAt job' = job_completedAt job
    | Some file =>
        match tablesFor getDocument performOCR file ocrLanguage options with
        | Some tables =>
            job_status job' = statusCompleted /\
            job_progress job' = 100%Q /\
            job_completedAt job'
            = Some (dateNow (n + List.length tables)) /\
            job_errorMessage job' = job_errorMessage job
        | None =>
            job_status job' = statusFailed /\ job_progress job' = 0%Q /\
            job_errorMessage job' <> None /\
            job_completedAt job' = job_completedAt job
        end
    end.
Proof.
  intro G. unfold processJobBody, tablesFor, getOriginalFile. cbv zeta.
  rewrite updateProcessingJob_files.
  destruct (mapGet jobId (originalFiles s)) as [file|].
  - destruct ocrLanguage as [[|c language]|]; cbn [fst snd];
      try destruct (performOCR (file_buffer file) (c :: language));
      (eexists; split;
       [unfold updateProgress, failJob;
        repeat first [apply updateProcessingJob_get | rewrite saveTables_get];
        exact G
       | cbn; rewrite ?saveTables_draws; repeat split; discriminate]).
  - eexists. split.
    + unfold failJob. repeat apply updateProcessingJob_get. exact G.
    + cbn. repeat split.
Qed.

(** What the [try] block leaves alone. *)
Lemma processJobBody_frame (jobId : jsstring) (ocrLanguage : option jsstring)
    (options : ProcessingOptions) (s : MemStorage) (n : nat) :
  let s' := fst (processJobBody getDocument performOCR randomUUID dateNow
                   jobId ocrLanguage options s n) in
  originalFiles s' = originalFiles s /\
  excelFiles s' = excelFiles s /\
  (forall other, other <> jobId ->
                 getProcessingJob other s' = getProcessingJob other s) /\
  (getProcessingJob jobId s = None -> processingJobs s' = processingJobs s).
Proof.
  unfold processJobBody, getOriginalFile. cbv zeta.
  rewrite updateProcessingJob_files.
  assert (U : forall u sx, getProcessingJob jobId sx = None ->
                           snd (updateProcessingJob jobId u sx) = sx).
  { intros u sx H. unfold updateProcessingJob.
    unfold getProcessingJob in H. rewrite H. reflexivity. }
  destruct (mapGet jobId (originalFiles s)) as [file|].
  - destruct ocrLanguage as [[|c language]|]; cbn [fst snd];
      try destruct (performOCR (file_buffer file) (c :: language));
      cbn [fst snd]; unfold updateProgress, failJob;
      (split;
       [rewrite ?updateProcessingJob_files, ?saveTables_files,
          ?updateProcessingJob_files; reflexivity |]);
      (split;
       [rewrite ?updateProcessingJob_excel, ?saveTables_excel,
          ?updateProcessingJob_excel; reflexivity |]);
      (split;
       [intros other N;
        repeat first [rewrite (updateProcessingJob_get_other _ _ _ _ N)
                     | rewrite saveTables_get];
        reflexivity
       | intro H; rewrite ?(U _ s H);
         repeat (rewrite (U _ (fst (saveTables randomUUID dateNow jobId _
                                      s n)))
                   by (rewrite saveTables_get; exact H));
         first [reflexivity | apply saveTables_jobs]]).
  - cbn [fst]. unfold failJob.
    rewrite updateProcessingJob_files, updateProcessingJob_excel,
      updateProcessingJob_files, updateProcessingJob_excel.
    repeat split.
    + intros other N.
      rewrite !(updateProcessingJob_get_other _ _ _ _ N). reflexivity.
    + intro H. rewrite !(U _ s H). reflexivity.
Qed.

(** The tables at the end of the [try] block. *)
Lemma processJobBody_tables (jobId : jsstring) (ocrLanguage : option jsstring)
    (options : ProcessingOptions) (s : MemStorage) (n : nat) :
  let body := processJobBody getDocument performOCR randomUUID dateNow
                jobId ocrLanguage options s n in
  match getOriginalFile jobId s with
  | None => extractedTables (fst body) = extractedTables s /\ snd body = n
  | Some file =>
      match tablesFor getDocument performOCR file ocrLanguage options with
      | Some tables =>
          tables <> [] /\
          map tableIndex tables = seq 0 (List.length tables) /\
          snd body = S (n + List.length tables) /\
          (freshIds randomUUID n (List.length tables) s ->
           extractedTables (fst body)
           = extractedTables s
             ++ map (fun t => (tbl_id t, t))
                    (storedTables randomUUID dateNow jobId n tables))
      | None => extractedTables (fst body) = extractedTables s /\ snd body = n
      end
  end.
Proof.
  unfold processJobBody, tablesFor, getOriginalFile. cbv zeta.
  rewrite updateProcessingJob_files.
  destruct (mapGet jobId (originalFiles s)) as [file|].
  - destruct ocrLanguage as [[|c language]|]; cbn [fst snd];
      try destruct (performOCR (file_buffer file) (c :: language));
      cbn [fst snd]; unfold updateProgress, failJob;
      rewrite ?updateProcessingJob_tables;
      try (split; reflexivity);
      (split; [apply processJobTables_nonempty |]);
      (split; [apply processJobTables_indices |]);
      (split; [rewrite saveTables_draws; reflexivity |]);
      intro F; rewrite saveTables_tables;
      rewrite ?updateProcessingJob_tables; try reflexivity;
      (eapply freshIds_tables; [| exact F]);
      rewrite ?updateProcessingJob_tables; reflexivity.
  - cbn [fst snd]. unfold failJob. rewrite !updateProcessingJob_tables.
    split; reflexivity.
Qed.
End ProcessJobFacts.

(** X15.  [processJob] refuses a job id that is in progress: the promise is
    rejected with "Job is already being processed" and nothing changes.
    For any other id the promise resolves, whatever happens inside; the id
    is out of the set again afterwards, the original files and the Excel
    cache are untouched, no other job is touched, and a job id that the
    store does not know leaves the jobs as they were. *)
Theorem processJob_guard_and_release
    (getDocument : Buffer -> option (list (list Item)))
    (performOCR : Buffer -> jsstring -> OcrResult)
    (randomUUID : nat -> jsstring) (dateNow : nat -> Date)
    (jobId : jsstring) (ocrLanguage : option jsstring)
    (options : ProcessingOptions) (p : Processor) :
  let run := processJob getDocument performOCR randomUUID dateNow
               jobId ocrLanguage options p in
  (setHas jobId (isProcessing p) = true ->
   run = (Rejected (lit "Job is already being processed"), p)) /\
  (setHas jobId (isProcessing p) = false ->
   fst run = Resolved /\
   isProcessing (snd run) = isProcessing p /\
   originalFiles (store (snd run)) = originalFiles (store p) /\
   excelFiles (store (snd run)) = excelFiles (store p) /\
   (forall other,
       other <> jobId ->
       getProcessingJob other (store (snd run))
       = getProcessingJob other (store p)) /\
   (getProcessingJob jobId (store p) = None ->
    processingJobs (store (snd run)) = processingJobs (store p))).
Proof.
  cbv zeta. unfold processJob. split; intro H; rewrite H; [reflexivity |].
  cbn [fst snd store isProcessing].
  split; [reflexivity |].
  split; [apply setDelete_setAdd, H |].
  apply processJobBody_frame.
Qed.

Lemma processJob_guard_and_release_witness :
  processJob (fun _ => None) (fun _ _ => OcrText []) natToString (fun _ => 0%N)
    (lit "job-1") None (mkOptions None None)
    (mkProcessor emptyStorage [lit "job-1"] 0)
  = (Rejected (lit "Job is already being processed"),
     mkProcessor emptyStorage [lit "job-1"] 0).
Proof.
  apply (processJob_guard_and_release (fun _ => None) (fun _ _ => OcrText [])
           natToString (fun _ => 0%N) (lit "job-1") None (mkOptions None None)
           (mkProcessor emptyStorage [lit "job-1"] 0)).
  reflexivity.
Defined.

(** X16.  A known job never stays "processing": after [processJob] it is
    "completed" with progress 100 and the completion date when the
    original file is stored and the OCR did not throw, and "failed" with
    progress 0 and an error message otherwise ("Original PDF file not
    found" when the file is missing).  Id, file name and upload date are
    kept; a completed run leaves an earlier error message in place, a
    failed run an earlier completion date. *)
Theorem processJob_final_status
    (getDocument : Buffer -> option (list (list Item)))
    (performOCR : Buffer -> jsstring -> OcrResult)
    (randomUUID : nat -> jsstring) (dateNow : nat -> Date)
    (jobId : jsstring) (ocrLanguage : option jsstring)
    (options : ProcessingOptions) (p : Processor) (job : ProcessingJob) :
  setHas jobId (isProcessing p) = false ->
  getProcessingJob jobId (store p) = Some job ->
  exists job',
    getProcessingJob jobId
      (store (snd (processJob getDocument performOCR randomUUID dateNow
                     jobId ocrLanguage options p))) = Some job' /\
    job_id job' = job_id job /\
    job_filename job' = job_filename job /\
    job_uploadedAt job' = job_uploadedAt job /\
    match getOriginalFile jobId (store p) with
    | None =>
        job_status job' = statusFailed /\ job_progress job' = 0%Q /\
        job_errorMessage job' = Some (lit "Original PDF file not found") /\
        job_completedAt job' = job_completedAt job
    | Some file =>
        match tablesFor getDocument performOCR file ocrLanguage options with
        | Some tables =>
            job_status job' = statusCompleted /\
            job_progress job' = 100%Q /\
            job_completedAt job'
            = Some (dateNow (draws p + List.length tables)) /\
            job_errorMessage job' = job_errorMessage job
        | None =>
            job_status job' = statusFailed /\ job_progress job' = 0%Q /\
            job_errorMessage job' <> None /\
            job_completedAt job' = job_completedAt job
        end
    end.
Proof.
  intros H G. unfold processJob. rewrite H. cbn [snd store].
  apply processJobBody_job, G.
Qed.

Lemma processJob_final_status_witness :
  exists job',
    getProcessingJob (lit "job-1")
      (store
         (snd (processJob (fun _ => None) (fun _ _ => OcrText []) natToString
                 (fun _ => 0%N) (lit "job-1") None (mkOptions None None)
                 (mkProcessor
                    (snd (createProcessingJob (lit "job-1") 0%N
                            (mkInsertJob (lit "a.pdf") (lit "pending"))
                            emptyStorage))
                    [] 0)))) = Some job' /\
    job_status job' = statusFailed /\
    job_errorMessage job' = Some (lit "Original PDF file not found").
Proof.
  destruct (processJob_final_status (fun _ => None) (fun _ _ => OcrText [])
              natToString (fun _ => 0%N) (lit "job-1") None
              (mkOptions None None)
              (mkProcessor
                 (snd (createProcessingJob (lit "job-1") 0%N
                         (mkInsertJob (lit "a.pdf") (lit "pending"))
                         emptyStorage))
                 [] 0)
              (mkJob (lit "job-1") (lit "a.pdf") (lit "pending") 0%N None None
                     0%Q)
              eq_refl eq_refl)
    as (job' & G & _ & _ & _ & M).
  exists job'. split; [exact G |].
  cbn in M. destruct M as (A & _ & B & _). split; [exact A | exact B].
Defined.

(** X17.  A run that succeeds stores one or more tables, one per detected
    table and with one id and date drawn for each, and one more date for
    the completion.  When the ids drawn are new and the job had no table
    before, [getExtractedTablesByJobId] returns exactly the detected
    tables in the order of their detection; the tables of other jobs are
    not affected. *)
Theorem processJob_stores_tables
    (getDocument : Buffer -> option (list (list Item)))
    (performOCR : Buffer -> jsstring -> OcrResult)
    (randomUUID : nat -> jsstring) (dateNow : nat -> Date)
    (jobId : jsstring) (ocrLanguage : option jsstring)
    (options : ProcessingOptions) (p : Processor)
    (file : OriginalFile) (tables : list TableDetectionResult) :
  setHas jobId (isProcessing p) = false ->
  getOriginalFile jobId (store p) = Some file ->
  tablesFor getDocument performOCR file ocrLanguage options = Some tables ->
  freshIds randomUUID (draws p) (List.length tables) (store p) ->
  let p' := snd (processJob getDocument performOCR randomUUID dateNow
                   jobId ocrLanguage options p) in
  tables <> [] /\
  draws p' = S (draws p + List.length tables) /\
  (getExtractedTablesByJobId jobId (store p) = [] ->
   getExtractedTablesByJobId jobId (store p')
   = storedTables randomUUID dateNow jobId (draws p) tables /\
   map tbl_table (getExtractedTablesByJobId jobId (store p')) = tables) /\
  (forall other,
      other <> jobId ->
      getExtractedTablesByJobId other (store p')
      = getExtractedTablesByJobId other (store p)).
Proof.
  intros H Gf Gt F. cbv zeta. unfold processJob. rewrite H.
  cbn [snd store draws].
  pose proof (processJobBody_tables getDocument performOCR randomUUID dateNow
                jobId ocrLanguage options (store p) (draws p)) as B.
  cbv zeta in B. rewrite Gf, Gt in B.
  destruct B as (Ne & Idx & Dr & Tb). specialize (Tb F).
  split; [exact Ne |]. split; [exact Dr |].
  assert (V : forall other,
             filter (fun table => jsstring_eqb (tbl_jobId table) other)
                    (mapValues
                       (extractedTables
                          (fst (processJobBody getDocument performOCR
                                  randomUUID dateNow jobId ocrLanguage
                                  options (store p) (draws p)))))
             = filter (fun table => jsstring_eqb (tbl_jobId table) other)
                      (mapValues (extractedTables (store p)))
               ++ (if jsstring_eqb jobId other
                   then storedTables randomUUID dateNow jobId (draws p) tables
                   else [])).
  { intro other. rewrite Tb. unfold mapValues.
    rewrite map_app, map_map. cbn [snd]. rewrite map_id, filter_app.
    rewrite storedTables_jobId. reflexivity. }
  split.
  - intro Old.
    assert (E : getExtractedTablesByJobId jobId
                  (fst (processJobBody getDocument performOCR randomUUID
                          dateNow jobId ocrLanguage options (store p)
                          (draws p)))
                = storedTables randomUUID dateNow jobId (draws p) tables).
    { unfold getExtractedTablesByJobId in *. rewrite V.
      rewrite jsstring_eqb_refl.
      assert (O : filter (fun table => jsstring_eqb (tbl_jobId table) jobId)
                         (mapValues (extractedTables (store p))) = []).
      { apply Permutation_nil. rewrite <- Old at 1. apply sortBy_perm. }
      rewrite O. cbn [app]. apply sortBy_already.
      apply (storedTables_sorted _ _ _ _ 0), Idx. }
    rewrite E. split; [reflexivity | apply storedTables_tables].
  - intros other N. unfold getExtractedTablesByJobId. rewrite V.
    rewrite (jsstring_eqb_neq jobId other)
      by (intro E; apply N; symmetry; exact E).
    rewrite app_nil_r. reflexivity.
Qed.

Lemma processJob_stores_tables_witness :
  map tbl_table
    (getExtractedTablesByJobId (lit "job-1")
       (store
          (snd (processJob (fun _ => None) (fun _ _ => OcrText []) natToString
                  (fun _ => 0%N) (lit "job-1") None (mkOptions None None)
                  (mkProcessor
                     (saveOriginalFile (lit "job-1")
                        (mkFile [] (lit "a.pdf") (lit "application/pdf") 0)
                        emptyStorage)
                     [] 0)))))
  = [fallbackTable []].
Proof.
  apply (processJob_stores_tables (fun _ => None) (fun _ _ => OcrText [])
           natToString (fun _ => 0%N) (lit "job-1") None (mkOptions None None)
           (mkProcessor
              (saveOriginalFile (lit "job-1")
                 (mkFile [] (lit "a.pdf") (lit "application/pdf") 0)
                 emptyStorage)
              [] 0)
           (mkFile [] (lit "a.pdf") (lit "application/pdf") 0)
           [fallbackTable []]).
  - reflexivity.
  - reflexivity.
  - reflexivity.
  - split.
    + repeat constructor. intros [].
    + intros i _ [].
  - reflexivity.
Defined.

(** X18.  A run that fails, the file missing or the OCR throwing, stores
    no table and draws no id or date. *)
Theorem processJob_failure_stores_nothing
    (getDocument : Buffer -> option (list (list Item)))
    (performOCR : Buffer -> jsstring -> OcrResult)
    (randomUUID : nat -> jsstring) (dateNow : nat -> Date)
    (jobId : jsstring) (ocrLanguage : option jsstring)
    (options : ProcessingOptions) (p : Processor) :
  setHas jobId (isProcessing p) = false ->
  (getOriginalFile jobId (store p) = None \/
   exists file,
     getOriginalFile jobId (store p) = Some file /\
     tablesFor getDocument performOCR file ocrLanguage options = None) ->
  let p' := snd (processJob getDocument performOCR randomUUID dateNow
                   jobId ocrLanguage options p) in
  extractedTables (store p') = extractedTables (store p) /\
  draws p' = draws p.
Proof.
  intros H C. cbv zeta. unfold processJob. rewrite H.
  cbn [snd store draws].
  pose proof (processJobBody_tables getDocument performOCR randomUUID dateNow
                jobId ocrLanguage options (store p) (draws p)) as B.
  cbv zeta in B.
  destruct C as [Gf | (file & Gf & Gt)]; rewrite Gf in B;
    [| rewrite Gt in B]; exact B.
Qed.

Lemma processJob_failure_stores_nothing_witness :
  extractedTables
    (store
       (snd (processJob (fun _ => None)
               (fun _ _ => OcrThrows (Some (lit "no worker"))) natToString
               (fun _ => 0%N) (lit "job-1") (Some (lit "eng"))
               (mkOptions None None)
               (mkProcessor
                  (saveOriginalFile (lit "job-1")
                     (mkFile [] (lit "a.pdf") (lit "application/pdf") 0)
                     emptyStorage)
                  [] 0))))
  = [].
Proof.
  apply (processJob_failure_stores_nothing (fun _ => None)
           (fun _ _ => OcrThrows (Some (lit "no worker"))) natToString
           (fun _ => 0%N) (lit "job-1") (Some (lit "eng"))
           (mkOptions None None)
           (mkProcessor
              (saveOriginalFile (lit "job-1")
                 (mkFile [] (lit "a.pdf") (lit "application/pdf") 0)
                 emptyStorage)
              [] 0)).
  - reflexivity.
  - right. exists (mkFile [] (lit "a.pdf") (lit "application/pdf") 0).
    split; reflexivity.
Defined.

(* ================================================================== *)
(** ** The reprocess route *)
(* ================================================================== *)

Lemma job_tables_deleted (id : jsstring) (s : MemStorage) :
  storageOk s ->
  filter (fun table => jsstring_eqb (tbl_jobId table) id)
         (mapValues
            (fold_left (fun m k => mapDelete k m)
                       (map tbl_id (getExtractedTablesByJobId id s))
                       (extractedTables s)))
  = [].
Proof.
  intros [J T F E KJ KT]. apply filter_nil.
  intros v Hv. apply in_map_iff in Hv as ([k v'] & Ev & Hin).
  simpl in Ev. subst v'.
  apply mapDeleteAll_In in Hin as [Hin N]. simpl in N.
  destruct (jsstring_eqb (tbl_jobId v) id) eqn:Ej; [| reflexivity].
  exfalso. apply N. rewrite <- (KT k v Hin). apply in_map.
  unfold getExtractedTablesByJobId. apply sortBy_In, filter_In.
  split; [| exact Ej]. apply (in_map snd) in Hin. exact Hin.
Qed.

Lemma other_tables_kept (id other : jsstring) (s : MemStorage) :
  storageOk s -> other <> id ->
  filter (fun table => jsstring_eqb (tbl_jobId table) other)
         (mapValues
            (fold_left (fun m k => mapDelete k m)
                       (map tbl_id (getExtractedTablesByJobId id s))
                       (extractedTables s)))
  = filter (fun table => jsstring_eqb (tbl_jobId table) other)
           (mapValues (extractedTables s)).
Proof.
  intros [J T F E KJ KT] N. apply filter_values_deleteAll.
  intros k v Hin Hj Hk.
  apply in_map_iff in Hk as (t & Et & Ht).
  unfold getExtractedTablesByJobId in Ht.
  apply sortBy_In, filter_In in Ht as [Ht Hjt].
  apply in_map_iff in Ht as ([k' t'] & Et' & Hin'). simpl in Et'. subst t'.
  pose proof (KT _ _ Hin') as Kt. rewrite Et in Kt. subst k'.
  pose proof (In_mapGet k v _ T Hin) as G1.
  pose proof (In_mapGet k t _ T Hin') as G2.
  rewrite G1 in G2. injection G2 as ->.
  apply jsstring_eqb_eq in Hj, Hjt. congruence.
Qed.

Lemma deleteExtractedTables_fold (tables : list ExtractedTable)
    (s : MemStorage) :
  fold_left (fun s table => snd (deleteExtractedTable (tbl_id table) s))
            tables s
  = mkStorage (processingJobs s)
              (fold_left (fun m k => mapDelete k m) (map tbl_id tables)
                         (extractedTables s))
              (originalFiles s) (excelFiles s).
Proof.
  revert s. induction tables as [|t tables IH]; intro s; simpl.
  - destruct s; reflexivity.
  - rewrite IH. reflexivity.
Qed.

Lemma deleteExcelFiles_fold (id : jsstring) (tables : list ExtractedTable)
    (s : MemStorage) :
  fold_left (fun s table => snd (deleteExcelFile id (Some (tbl_id table)) s))
            tables s
  = mkStorage (processingJobs s) (extractedTables s) (originalFiles s)
              (fold_left (fun m k => mapDelete k m)
                         (map (fun table => excelKey id (Some (tbl_id table)))
                              tables)
                         (excelFiles s)).
Proof.
  revert s. induction tables as [|t tables IH]; intro s.
  - destruct s; reflexivity.
  - cbn [fold_left map]. rewrite IH. reflexivity.
Qed.

(** X19.  The reprocess route on a known job: the job is back to "pending"
    with progress 0, no completion date and no error message; it has no
    table any more; the cached Excel file of the job and those of its
    tables are gone; the original file stays, so the job can be processed
    again.  No other job and no table of another job is touched. *)
Theorem reprocess_resets (id : jsstring) (s : MemStorage)
    (job : ProcessingJob) :
  storageOk s ->
  getProcessingJob id s = Some job ->
  exists s',
    reprocess id s = Some s' /\
    storageOk s' /\
    getProcessingJob id s'
    = Some (mkJob (job_id job) (job_filename job) statusPending
                  (job_uploadedAt job) None None 0%Q) /\
    getExtractedTablesByJobId id s' = [] /\
    getExcelFile id None s' = None /\
    (forall table,
        In table (getExtractedTablesByJobId id s) ->
        getExtractedTable (tbl_id table) s' = None /\
        getExcelFile id (Some (tbl_id table)) s' = None) /\
    originalFiles s' = originalFiles s /\
    (forall other,
        other <> id ->
        getProcessingJob other s' = getProcessingJob other s /\
        getExtractedTablesByJobId other s'
        = getExtractedTablesByJobId other s).
Proof.
  intros Ok G. unfold reprocess. rewrite G. cbv zeta.
  pose proof (job_tables_deleted id s Ok) as Gone.
  pose proof (fun other => other_tables_kept id other s Ok) as Kept.
  set (tables := getExtractedTablesByJobId id s) in *.
  rewrite deleteExcelFiles_fold.
  cbn [deleteExcelFile snd processingJobs extractedTables originalFiles
       excelFiles].
  rewrite deleteExtractedTables_fold.
  cbn [processingJobs extractedTables originalFiles excelFiles].
  unfold updateProcessingJob. cbn [processingJobs].
  unfold getProcessingJob in G. rewrite G. cbn [snd].
  eexists. split; [reflexivity |].
  pose proof Ok as [J T F E KJ KT].
  split.
  { constructor;
      cbn [processingJobs extractedTables originalFiles excelFiles].
    - apply mapSet_NoDup, J.
    - apply mapDeleteAll_NoDup, T.
    - exact F.
    - apply mapDeleteAll_NoDup, mapDelete_NoDup, E.
    - apply keyed_set; [| exact KJ]. apply mapGet_In in G.
      apply (KJ _ _ G).
    - apply keyed_deleteAll, KT. }
  unfold getProcessingJob, getExcelFile, getExtractedTable.
  cbn [processingJobs extractedTables originalFiles excelFiles].
  split; [rewrite mapGet_set_same; reflexivity |].
  split.
  { unfold getExtractedTablesByJobId. cbn [extractedTables].
    rewrite Gone. reflexivity. }
  split.
  { apply mapGet_None. intro Hk.
    apply in_map_iff in Hk as ([k v] & Ek & Hin). simpl in Ek. subst k.
    apply mapDeleteAll_In in Hin as [Hin _].
    apply mapDelete_In in Hin as [_ N]. apply N. reflexivity. }
  split.
  { intros table Ht. split.
    - apply mapGet_deleteAll_in, in_map, Ht.
    - apply mapGet_deleteAll_in.
      apply (in_map (fun table => excelKey id (Some (tbl_id table)))), Ht. }
  split; [reflexivity |].
  intros other N. split; [apply mapGet_set_other, N |].
  unfold getExtractedTablesByJobId. cbn [extractedTables].
  rewrite (Kept other N). reflexivity.
Qed.

Lemma reprocess_resets_witness :
  exists s',
    reprocess (lit "job-1")
      (snd (createExtractedTable (lit "t-1") 1%N (lit "job-1")
              (fallbackTable [])
              (snd (createProcessingJob (lit "job-1") 0%N
                      (mkInsertJob (lit "a.pdf") (lit "completed"))
                      emptyStorage)))) = Some s' /\
    getExtractedTablesByJobId (lit "job-1") s' = [].
Proof.
  destruct (reprocess_resets (lit "job-1")
              (snd (createExtractedTable (lit "t-1") 1%N (lit "job-1")
                      (fallbackTable [])
                      (snd (createProcessingJob (lit "job-1") 0%N
                              (mkInsertJob (lit "a.pdf") (lit "completed"))
                              emptyStorage))))
              (mkJob (lit "job-1") (lit "a.pdf") (lit "completed") 0%N None
                     None 0%Q))
    as (s' & R & _ & _ & T & _).
  - apply createExtractedTable_ok, createProcessingJob_ok, storageOk_empty.
  - reflexivity.
  - exists s'. split; [exact R | exact T].
Defined.

(* ================================================================== *)
(** ** The batch run *)
(* ================================================================== *)

Section ServerFacts.
Variable performOCR : Buffer -> jsstring -> OcrResult.
Variable randomUUID : nat -> jsstring.
Variable dateNow : nat -> Date.

Lemma server_body_job (jobId : jsstring) (ocrLanguage : option jsstring)
    (options : ProcessingOptions) (s : MemStorage) (n : nat)
    (job : ProcessingJob) :
  getProcessingJob jobId s = Some job ->
  exists job',
    getProcessingJob jobId
      (fst (Server.processJobBody performOCR randomUUID dateNow
              jobId ocrLanguage options s n)) = Some job' /\
    job_id job' = job_id job /\
    job_filename job' = job_filename job /\
    match getOriginalFile jobId s with
    | None =>
        job_status job' = statusFailed /\ job_progress job' = 0%Q /\
        job_errorMessage job' = Some (lit "Original PDF file not found")
    | Some file =>
        match performOCR (file_buffer file) (Server.languageOf ocrLanguage)
        with
        | OcrText _ =>
            job_status job' = statusCompleted /\
            job_progress job' = 100%Q /\
            job_errorMessage job' = job_errorMessage job
        | OcrThrows message =>
            job_status job' = statusFailed /\ job_progress job' = 0%Q /\
            job_errorMessage job' = Some (errorText message)
        end
    end.
Proof.
  intro G. unfold Server.processJobBody, getOriginalFile. cbv zeta.
  rewrite updateProcessingJob_files.
  destruct (mapGet jobId (originalFiles s)) as [file|].
  - destruct (performOCR (file_buffer file) (Server.languageOf ocrLanguage));
      cbn [fst snd];
      (eexists; split;
       [unfold updateProgress, failJob;
        repeat first [apply updateProcessingJob_get | rewrite saveTables_get];
        exact G
       | cbn; repeat split]).
  - eexists. split.
    + unfold failJob. repeat apply updateProcessingJob_get. exact G.
    + cbn. repeat split.
Qed.

Lemma server_body_tables (jobId : jsstring) (ocrLanguage : option jsstring)
    (options : ProcessingOptions) (s : MemStorage) (n : nat) :
  let body := Server.processJobBody performOCR randomUUID dateNow
                jobId ocrLanguage options s n in
  match getOriginalFile jobId s with
  | None => extractedTables (fst body) = extractedTables s
  | Some file =>
      match Server.tablesFor performOCR file ocrLanguage options with
      | Some tables =>
          freshIds randomUUID n (List.length tables) s ->
          extractedTables (fst body)
          = extractedTables s
            ++ map (fun t => (tbl_id t, t))
                   (storedTables randomUUID dateNow jobId n tables)
      | None => extractedTables (fst body) = extractedTables s
      end
  end.
Proof.
  unfold Server.processJobBody, Server.tablesFor, getOriginalFile. cbv zeta.
  rewrite updateProcessingJob_files.
  destruct (mapGet jobId (originalFiles s)) as [file|].
  - destruct (performOCR (file_buffer file) (Server.languageOf ocrLanguage));
      cbn [fst snd]; unfold updateProgress, failJob;
      rewrite ?updateProcessingJob_tables; try reflexivity.
    intro F. rewrite saveTables_tables;
      rewrite ?updateProcessingJob_tables; try reflexivity.
    eapply freshIds_tables; [| exact F].
    rewrite ?updateProcessingJob_tables. reflexivity.
  - cbn [fst]. unfold failJob. rewrite !updateProcessingJob_tables.
    reflexivity.
Qed.
End ServerFacts.

(** The tables of a job that had none, after [k] tables were appended to
    the map in the order of their detection. *)
Lemma appended_tables_read_back (randomUUID : nat -> jsstring)
    (dateNow : nat -> Date) (id : jsstring) (n : nat)
    (tables : list TableDetectionResult) (s s' : MemStorage) :
  getExtractedTablesByJobId id s = [] ->
  map tableIndex tables = seq 0 (List.length tables) ->
  extractedTables s'
  = extractedTables s
    ++ map (fun t => (tbl_id t, t))
           (storedTables randomUUID dateNow id n tables) ->
  getExtractedTablesByJobId id s'
  = storedTables randomUUID dateNow id n tables.
Proof.
  intros Old Idx Tb. unfold getExtractedTablesByJobId in *. rewrite Tb.
  unfold mapValues. rewrite map_app, map_map. cbn [snd].
  rewrite map_id, filter_app, storedTables_jobId, jsstring_eqb_refl.
  assert (O : filter (fun table => jsstring_eqb (tbl_jobId table) id)
                     (map snd (extractedTables s)) = []).
  { apply Permutation_nil. rewrite <- Old at 1. apply sortBy_perm. }
  rewrite O. cbn [app]. apply sortBy_already.
  apply (storedTables_sorted _ _ _ _ 0), Idx.
Qed.

Lemma storedTables_owner (randomUUID : nat -> jsstring)
    (dateNow : nat -> Date) (id : jsstring) (n : nat)
    (tables : list TableDetectionResult) :
  Forall (fun table => tbl_jobId table = id)
         (storedTables randomUUID dateNow id n tables).
Proof.
  revert n. induction tables as [|t tables IH]; intro n; simpl;
    constructor; [reflexivity | apply IH].
Qed.

(** X20.  [processPdfFile] of the batch run with the processor that has
    the layout detector, for a processor that is idle on the new id, with
    new ids for the tables and no table under the new id: the promise
    resolves with the id of the job; the job is "completed" with progress
    100 and keeps the file name; it has one or more tables, and
    [getJobWithTables] returns exactly the tables detected in the buffer,
    in their order. *)
Theorem processPdfFile_completes
    (getDocument : Buffer -> option (list (list Item)))
    (performOCR : Buffer -> jsstring -> OcrResult)
    (randomUUID : nat -> jsstring) (dateNow : nat -> Date)
    (filename : jsstring) (buffer : Buffer) (p : Processor) :
  let id := randomUUID (draws p) in
  let tables := batchTables getDocument buffer in
  let run := processPdfFile
               (processJob getDocument performOCR randomUUID dateNow)
               randomUUID dateNow filename buffer p in
  setHas id (isProcessing p) = false ->
  getExtractedTablesByJobId id (store p) = [] ->
  freshIds randomUUID (S (draws p)) (List.length tables) (store p) ->
  fst run = Some id /\
  isProcessing (snd run) = isProcessing p /\
  tables <> [] /\
  exists job stored,
    getJobWithTables id (store (snd run)) = Some (job, stored) /\
    job_id job = id /\
    job_filename job = filename /\
    job_status job = statusCompleted /\
    job_progress job = 100%Q /\
    job_errorMessage job = None /\
    map tbl_table stored = tables /\
    Forall (fun table => tbl_jobId table = id) stored.
Proof.
  cbv zeta. intros H Old F. unfold processPdfFile, processJob. cbv zeta.
  cbn [isProcessing store draws]. rewrite H. cbn [fst snd isProcessing store].
  set (id := randomUUID (draws p)) in *.
  set (file := mkFile buffer filename (lit "application/pdf")
                      (List.length buffer)).
  set (s := saveOriginalFile id file
              (snd (createProcessingJob id (dateNow (draws p))
                      (mkInsertJob filename statusPending) (store p)))).
  assert (Gj : getProcessingJob id s
               = Some (mkJob id filename statusPending (dateNow (draws p))
                             None None 0%Q)).
  { unfold s, getProcessingJob, saveOriginalFile, createProcessingJob.
    cbn [snd processingJobs]. apply mapGet_set_same. }
  assert (Gf : getOriginalFile id s = Some file).
  { unfold s, getOriginalFile, saveOriginalFile.
    cbn [originalFiles]. apply mapGet_set_same. }
  assert (Ts : extractedTables s = extractedTables (store p)) by reflexivity.
  assert (Gt : tablesFor getDocument performOCR file None
                 (mkOptions None None)
               = Some (batchTables getDocument buffer)) by reflexivity.
  pose proof (processJobBody_job getDocument performOCR randomUUID dateNow
                id None (mkOptions None None) s (S (draws p)) _ Gj)
    as (job' & G' & I1 & I2 & _ & M).
  rewrite Gf, Gt in M. destruct M as (M1 & M2 & _ & M4).
  pose proof (processJobBody_tables getDocument performOCR randomUUID dateNow
                id None (mkOptions None None) s (S (draws p))) as B.
  cbv zeta in B. rewrite Gf, Gt in B. destruct B as (Ne & Idx & _ & Tb).
  specialize (Tb (freshIds_tables _ _ _ _ _ Ts F)).
  split; [reflexivity |].
  split; [apply setDelete_setAdd, H |].
  split; [exact Ne |].
  exists job',
    (storedTables randomUUID dateNow id (S (draws p))
       (batchTables getDocument buffer)).
  split.
  { unfold getJobWithTables. rewrite G'. f_equal. f_equal.
    apply (appended_tables_read_back _ _ _ _ _ s); [| exact Idx | exact Tb].
    unfold getExtractedTablesByJobId in *. rewrite Ts. exact Old. }
  split; [exact I1 |]. split; [exact I2 |]. split; [exact M1 |].
  split; [exact M2 |]. split; [exact M4 |].
  split; [apply storedTables_tables | apply storedTables_owner].
Qed.

Lemma processPdfFile_completes_witness :
  fst (processPdfFile
         (processJob (fun _ => None) (fun _ _ => OcrText []) natToString
                     (fun _ => 0%N))
         natToString (fun _ => 0%N) (lit "a.pdf") []
         (mkProcessor emptyStorage [] 0))
  = Some (natToString 0).
Proof.
  apply (processPdfFile_completes (fun _ => None) (fun _ _ => OcrText [])
           natToString (fun _ => 0%N) (lit "a.pdf") []
           (mkProcessor emptyStorage [] 0)).
  - reflexivity.
  - reflexivity.
  - split.
    + repeat constructor. intros [].
    + intros i _ [].
Defined.

(** X21.  [processPdfFile] of the batch run with the processor of
    [server/pdf-processor.ts], under the same conditions: the promise
    resolves with the id of the job.  When the OCR of the buffer in "eng"
    returns a text, the job is "completed" with progress 100 and its
    tables are those the text-pattern detector finds in that text at
    threshold 70 and medium sensitivity, possibly none; when the OCR
    throws, the job is "failed" with the message thrown and has no
    table. *)
Theorem processPdfFile_server
    (performOCR : Buffer -> jsstring -> OcrResult)
    (randomUUID : nat -> jsstring) (dateNow : nat -> Date)
    (filename : jsstring) (buffer : Buffer) (p : Processor) :
  let id := randomUUID (draws p) in
  let run := processPdfFile
               (Server.processJob performOCR randomUUID dateNow)
               randomUUID dateNow filename buffer p in
  setHas id (isProcessing p) = false ->
  getExtractedTablesByJobId id (store p) = [] ->
  fst run = Some id /\
  isProcessing (snd run) = isProcessing p /\
  match performOCR buffer (lit "eng") with
  | OcrText ocrText =>
      let tables :=
        detectTables (combineTextSources [] ocrText) 70 medium in
      freshIds randomUUID (S (draws p)) (List.length tables) (store p) ->
      exists job stored,
        getJobWithTables id (store (snd run)) = Some (job, stored) /\
        job_filename job = filename /\
        job_status job = statusCompleted /\
        job_progress job = 100%Q /\
        map tbl_table stored = tables
  | OcrThrows message =>
      exists job,
        getJobWithTables id (store (snd run)) = Some (job, []) /\
        job_filename job = filename /\
        job_status job = statusFailed /\
        job_errorMessage job = Some (errorText message)
  end.
Proof.
  cbv zeta. intros H Old. unfold processPdfFile, Server.processJob. cbv zeta.
  cbn [isProcessing store draws]. rewrite H. cbn [fst snd isProcessing store].
  set (id := randomUUID (draws p)) in *.
  set (file := mkFile buffer filename (lit "application/pdf")
                      (List.length buffer)).
  set (s := saveOriginalFile id file
              (snd (createProcessingJob id (dateNow (draws p))
                      (mkInsertJob filename statusPending) (store p)))).
  assert (Gj : getProcessingJob id s
               = Some (mkJob id filename statusPending (dateNow (draws p))
                             None None 0%Q)).
  { unfold s, getProcessingJob, saveOriginalFile, createProcessingJob.
    cbn [snd processingJobs]. apply mapGet_set_same. }
  assert (Gf : getOriginalFile id s = Some file).
  { unfold s, getOriginalFile, saveOriginalFile.
    cbn [originalFiles]. apply mapGet_set_same. }
  assert (Ts : extractedTables s = extractedTables (store p)) by reflexivity.
  pose proof (server_body_job performOCR randomUUID dateNow
                id None (mkOptions None None) s (S (draws p)) _ Gj)
    as (job' & G' & _ & I2 & M).
  pose proof (server_body_tables performOCR randomUUID dateNow
                id None (mkOptions None None) s (S (draws p))) as B.
  cbv zeta in B. rewrite Gf in M, B. unfold Server.tablesFor in B.
  change (Server.languageOf None) with (lit "eng") in M, B.
  change (file_buffer file) with buffer in M, B.
  split; [reflexivity |].
  split; [apply setDelete_setAdd, H |].
  assert (Old' : getExtractedTablesByJobId id s = []).
  { unfold getExtractedTablesByJobId in *. rewrite Ts. exact Old. }
  destruct (performOCR buffer (lit "eng")) as [ocrText | message].
  - intro F. destruct M as (M1 & M2 & _).
    specialize (B (freshIds_tables _ _ _ _ _ Ts F)).
    exists job',
      (storedTables randomUUID dateNow id (S (draws p))
         (detectTables (combineTextSources [] ocrText) 70 medium)).
    split.
    { unfold getJobWithTables. rewrite G'. f_equal. f_equal.
      apply (appended_tables_read_back _ _ _ _ _ s);
        [exact Old' | apply detectLines_indices | exact B]. }
    split; [exact I2 |]. split; [exact M1 |]. split; [exact M2 |].
    apply storedTables_tables.
  - destruct M as (M1 & _ & M3). exists job'.
    split.
    { unfold getJobWithTables. rewrite G'. f_equal. f_equal.
      unfold getExtractedTablesByJobId in *. rewrite B, Ts. exact Old. }
    split; [exact I2 |]. split; [exact M1 | exact M3].
Qed.

Lemma processPdfFile_server_witness :
  fst (processPdfFile
         (Server.processJob (fun _ _ => OcrText (lit "x")) natToString
                            (fun _ => 0%N))
         natToString (fun _ => 0%N) (lit "a.pdf") []
         (mkProcessor emptyStorage [] 0))
  = Some (natToString 0).
Proof.
  apply (processPdfFile_server (fun _ _ => OcrText (lit "x")) natToString
           (fun _ => 0%N) (lit "a.pdf") [] (mkProcessor emptyStorage [] 0)).
  - reflexivity.
  - reflexivity.
Defined.

(* ================================================================== *)
(** ** The Excel generator *)
(* ================================================================== *)

Lemma widenColumns_length (row : list jsstring) (widths : list nat) :
  List.length (widenColumns row widths) = List.length widths.
Proof.
  revert widths. induction row as [|cell row IH]; intros [|w ws]; simpl;
    try reflexivity. rewrite IH. reflexivity.
Qed.

Lemma widenColumns_bounds (row : list jsstring) (widths : list nat) :
  Forall (fun w => 10 <= w <= 50) widths ->
  Forall (fun w => 10 <= w <= 50) (widenColumns row widths).
Proof.
  revert widths. induction row as [|cell row IH]; intros [|w ws] H; simpl;
    try exact H.
  inversion H as [|? ? Hw Hws]; subst. constructor; [lia | apply IH, Hws].
Qed.

Lemma widenColumns_grows (row : list jsstring) (widths : list nat)
    (c w : nat) :
  nth_error widths c = Some w ->
  exists w', nth_error (widenColumns row widths) c = Some w' /\ w <= w'.
Proof.
  revert widths c. induction row as [|cell row IH]; intros [|w0 ws] c H;
    simpl; try (exists w; split; [exact H | lia]).
  destruct c as [|c]; simpl in *.
  - injection H as ->. eexists. split; [reflexivity | lia].
  - apply IH, H.
Qed.

Lemma widenColumns_cell (row : list jsstring) (widths : list nat)
    (c : nat) (cell : jsstring) :
  nth_error row c = Some cell -> c < List.length widths ->
  exists w, nth_error (widenColumns row widths) c = Some w /\
            cellWidth cell <= w.
Proof.
  revert widths c. induction row as [|x row IH]; intros [|w0 ws] c H L;
    simpl in *; try lia; destruct c as [|c]; simpl in *; try discriminate.
  - injection H as ->. eexists. split; [reflexivity |].
    unfold cellWidth. lia.
  - apply IH; [exact H | lia].
Qed.

Lemma widenColumns_origin (row : list jsstring) (widths : list nat)
    (c w : nat) :
  nth_error (widenColumns row widths) c = Some w ->
  nth_error widths c = Some w \/
  exists cell, nth_error row c = Some cell /\ w = cellWidth cell.
Proof.
  revert widths c. induction row as [|x row IH]; intros [|w0 ws] c H;
    simpl in *; try (left; exact H).
  destruct c as [|c]; simpl in *.
  - injection H as <-. unfold cellWidth.
    destruct (Nat.max_spec w0 (Nat.min (List.length x + 2) 50))
      as [[_ ->] | [_ ->]]; [right; exists x; auto | left; reflexivity].
  - apply IH, H.
Qed.

Lemma maxCols_row (rows : list (list jsstring)) (row : list jsstring) :
  In row rows -> List.length row <= maxCols rows.
Proof.
  unfold maxCols. induction rows as [|r rows IH]; simpl; [intros [] |].
  intros [-> | H]; [lia |]. specialize (IH H). lia.
Qed.

Lemma widths_fold_length (rows : list (list jsstring)) (widths : list nat) :
  List.length (fold_left (fun ws row => widenColumns row ws) rows widths)
  = List.length widths.
Proof.
  revert widths. induction rows as [|r rs IH]; intro widths; simpl;
    [reflexivity |]. rewrite IH. apply widenColumns_length.
Qed.

Lemma widths_fold_bounds (rows : list (list jsstring)) (widths : list nat) :
  Forall (fun w => 10 <= w <= 50) widths ->
  Forall (fun w => 10 <= w <= 50)
         (fold_left (fun ws row => widenColumns row ws) rows widths).
Proof.
  revert widths. induction rows as [|r rs IH]; intros widths H; simpl;
    [exact H |]. apply IH, widenColumns_bounds, H.
Qed.

Lemma widths_fold_grows (rows : list (list jsstring)) (widths : list nat)
    (c w : nat) :
  nth_error widths c = Some w ->
  exists w',
    nth_error (fold_left (fun ws row => widenColumns row ws) rows widths) c
    = Some w' /\ w <= w'.
Proof.
  revert widths w. induction rows as [|r rs IH]; intros widths w H; simpl.
  - exists w. split; [exact H | lia].
  - destruct (widenColumns_grows r widths c w H) as (w1 & H1 & L1).
    destruct (IH _ _ H1) as (w2 & H2 & L2).
    exists w2. split; [exact H2 | lia].
Qed.

Lemma widths_fold_cell (rows : list (list jsstring)) (widths : list nat)
    (row : list jsstring) (c : nat) (cell : jsstring) :
  In row rows -> nth_error row c = Some cell -> c < List.length widths ->
  exists w,
    nth_error (fold_left (fun ws row => widenColumns row ws) rows widths) c
    = Some w /\ cellWidth cell <= w.
Proof.
  revert widths. induction rows as [|r rs IH]; intros widths Hin Hc L;
    simpl in *; [destruct Hin |].
  destruct Hin as [-> | Hin].
  - destruct (widenColumns_cell row widths c cell Hc L) as (w1 & H1 & L1).
    destruct (widths_fold_grows rs _ c w1 H1) as (w2 & H2 & L2).
    exists w2. split; [exact H2 | lia].
  - apply IH; [exact Hin | exact Hc |].
    rewrite widenColumns_length. exact L.
Qed.

Lemma widths_fold_origin (rows : list (list jsstring)) (widths : list nat)
    (c w : nat) :
  nth_error (fold_left (fun ws row => widenColumns row ws) rows widths) c
  = Some w ->
  nth_error widths c = Some w \/
  exists row cell,
    In row rows /\ nth_error row c = Some cell /\ w = cellWidth cell.
Proof.
  revert widths. induction rows as [|r rs IH]; intros widths H; simpl in *;
    [left; exact H |].
  destruct (IH _ H) as [H1 | (row & cell & Hin & Hc & E)].
  - destruct (widenColumns_origin r widths c w H1) as [H0 | (cell & Hc & E)];
      [left; exact H0 |].
    right. exists r, cell. auto.
  - right. exists row, cell. auto.
Qed.

(** X22.  [calculateColumnWidths] gives one width per column of the
    longest row; every width lies between 10 and 50; a column is wide
    enough for each of its cells, that is for the length of the cell and
    2, as far as the cap of 50 allows; and it is no wider than needed:
    a width is 10 or what one of the cells of the column asks for. *)
Theorem calculateColumnWidths_fits (rows : list (list jsstring)) :
  List.length (calculateColumnWidths rows) = maxCols rows /\
  Forall (fun w => 10 <= w <= 50) (calculateColumnWidths rows) /\
  (forall row c cell,
      In row rows -> nth_error row c = Some cell ->
      exists w, nth_error (calculateColumnWidths rows) c = Some w /\
                cellWidth cell <= w) /\
  (forall c w,
      nth_error (calculateColumnWidths rows) c = Some w ->
      w = 10 \/
      exists row cell,
        In row rows /\ nth_error row c = Some cell /\ w = cellWidth cell).
Proof.
  unfold calculateColumnWidths. destruct rows as [|r rs].
  - repeat split.
    + constructor.
    + intros row c cell [].
    + intros [|c] w H; discriminate.
  - set (rows := r :: rs). repeat split.
    + rewrite widths_fold_length. apply repeat_length.
    + apply widths_fold_bounds, Forall_forall. intros w H.
      apply repeat_spec in H. lia.
    + intros row c cell Hin Hc. apply (widths_fold_cell rows _ row);
        [exact Hin | exact Hc |].
      rewrite repeat_length.
      apply Nat.lt_le_trans with (List.length row);
        [| apply maxCols_row, Hin].
      apply nth_error_Some. rewrite Hc. discriminate.
    + intros c w H. apply widths_fold_origin in H as [H | H];
        [| right; exact H].
      left. apply nth_error_In, repeat_spec in H. exact H.
Qed.

Lemma calculateColumnWidths_fits_witness :
  exists w,
    nth_error (calculateColumnWidths
                 [[lit "Region"; lit "Q1"]; [lit "North America"; lit "7"]])
              0 = Some w /\
    cellWidth (lit "North America") <= w.
Proof.
  destruct (calculateColumnWidths_fits
              [[lit "Region"; lit "Q1"]; [lit "North America"; lit "7"]])
    as (_ & _ & C & _).
  apply (C [lit "North America"; lit "7"] 0 (lit "North America")).
  - right. left. reflexivity.
  - reflexivity.
Defined.

Lemma NoDup_map_injective {A B : Type} (f : A -> B) (l : list A) :
  (forall x y, f x = f y -> x = y) -> NoDup l -> NoDup (map f l).
Proof.
  intros I. induction 1 as [|a l Ha Hl IH]; simpl; constructor; [| exact IH].
  intro H. apply in_map_iff in H as (x & E & Hx). apply I in E. subst x.
  exact (Ha Hx).
Qed.

Lemma numbered_name_inj (prefix : jsstring) (i j : nat) :
  prefix ++ natToString (i + 1) = prefix ++ natToString (j + 1) -> i = j.
Proof.
  intro H. apply app_inv_head, natToString_inj in H. lia.
Qed.

(** X23.  The names made from numbers do not repeat: the generic headers
    "Column 1", "Column 2", ... of one table are pairwise distinct, and so
    are the sheet names "Table 1", "Table 2", ... of the tables of one
    run, which the workbook needs. *)
Theorem generated_names_distinct :
  (forall n, NoDup (genericHeaders n)) /\
  (forall pdf text options,
      NoDup (map sheetName (processJobTables pdf text options))).
Proof.
  split.
  - intro n. unfold genericHeaders.
    apply NoDup_map_injective; [| apply seq_NoDup].
    intros i j. unfold columnName. apply numbered_name_inj.
  - intros pdf text options.
    replace (map sheetName (processJobTables pdf text options))
      with (map (fun i => lit "Table " ++ natToString (i + 1))
                (map tableIndex (processJobTables pdf text options)))
      by (rewrite map_map; reflexivity).
    rewrite processJobTables_indices.
    apply NoDup_map_injective; [| apply seq_NoDup].
    intros i j. apply numbered_name_inj.
Qed.

(* ================================================================== *)
(** ** The cells of the tables are trimmed *)
(* ================================================================== *)

Lemma dropSpaces_headOk (s : jsstring) : headOk s -> dropSpaces s = s.
Proof. destruct s as [|c r]; simpl; [reflexivity |]. intros ->. reflexivity. Qed.

Lemma tight_trimmed (s : jsstring) : tight s -> trimmed s.
Proof.
  intros [A B]. unfold trimmed, trim.
  rewrite (dropSpaces_headOk s A), (dropSpaces_headOk (rev s) B).
  apply rev_involutive.
Qed.

Lemma dropSpaces_ok (s : jsstring) : headOk (dropSpaces s).
Proof.
  destruct (dropSpaces s) as [|c r] eqn:E; simpl; [exact I |].
  apply (dropSpaces_head _ _ _ E).
Qed.

Lemma trim_tight (s : jsstring) : tight (trim s).
Proof.
  unfold tight, trim. rewrite rev_involutive.
  split; [| apply dropSpaces_ok].
  pose proof (dropSpaces_ok s) as U.
  destruct (dropSpaces_suffix (rev (dropSpaces s))) as (p & E & _).
  destruct (rev (dropSpaces (rev (dropSpaces s)))) as [|c r] eqn:V;
    simpl; [exact I |].
  assert (R : dropSpaces s = (c :: r) ++ rev p).
  { rewrite <- V, <- rev_app_distr, <- E, rev_involutive. reflexivity. }
  rewrite R in U. exact U.
Qed.

Lemma trimmed_tight (s : jsstring) : trimmed s -> tight s.
Proof. intro H. rewrite <- H. apply trim_tight. Qed.

Lemma trimmed_trim (s : jsstring) : trimmed (trim s).
Proof. apply trim_idempotent. Qed.

Lemma tight_joined (a b : jsstring) :
  tight a -> tight b -> a <> [] -> b <> [] ->
  tight ((a ++ lit " ") ++ b).
Proof.
  intros [A1 A2] [B1 B2] Na Nb. split.
  - destruct a as [|c r]; [contradiction | exact A1].
  - rewrite rev_app_distr.
    destruct (rev b) as [|c r] eqn:E; [| exact B2].
    exfalso. apply Nb. rewrite <- (rev_involutive b), E. reflexivity.
Qed.

Lemma digit_no_space (c : code_unit) :
  Char.isDigit c = true -> Char.isSpace c = false.
Proof.
  unfold Char.isDigit, Char.isSpace. intro H.
  apply andb_true_iff in H as [A B]. apply N.leb_le in A, B.
  repeat (apply orb_false_iff; split); try (apply N.eqb_neq; lia).
  apply andb_false_iff. left. apply N.leb_gt. lia.
Qed.

Lemma natToString_nonempty (n : nat) : natToString n <> [].
Proof.
  unfold natToString, NilZero.string_of_uint.
  destruct (Nat.to_uint n); simpl; discriminate.
Qed.

Lemma columnName_trimmed (i : nat) : trimmed (columnName i).
Proof.
  apply tight_trimmed. unfold columnName. split; [reflexivity |].
  rewrite rev_app_distr.
  pose proof (natToString_digits (i + 1)) as D.
  pose proof (natToString_nonempty (i + 1)) as Ne.
  destruct (rev (natToString (i + 1))) as [|c r] eqn:E.
  - exfalso. apply Ne. rewrite <- (rev_involutive (natToString (i + 1))), E.
    reflexivity.
  - simpl. apply digit_no_space. rewrite Forall_forall in D. apply D.
    apply in_rev. rewrite E. left. reflexivity.
Qed.

Lemma genericHeaders_trimmed (n : nat) : Forall trimmed (genericHeaders n).
Proof.
  unfold genericHeaders. apply Forall_forall. intros h H.
  apply in_map_iff in H as (i & <- & _). apply columnName_trimmed.
Qed.

Lemma map_trim_trimmed (cells : list jsstring) :
  Forall trimmed (map trim cells).
Proof.
  apply Forall_forall. intros c H. apply in_map_iff in H as (x & <- & _).
  apply trimmed_trim.
Qed.

Lemma filter_Forall {A : Type} (P : A -> Prop) (f : A -> bool) (l : list A) :
  Forall P l -> Forall P (filter f l).
Proof.
  rewrite !Forall_forall. intros H x Hx. apply filter_In in Hx as [Hx _].
  apply H, Hx.
Qed.

Lemma splitTableLine_trimmed (line separator : jsstring) :
  Forall trimmed (splitTableLine line separator).
Proof.
  unfold splitTableLine.
  destruct (jsstring_eqb separator (lit "|"));
    [apply filter_Forall, map_trim_trimmed |].
  destruct (jsstring_eqb separator [Char.tab]);
    [apply map_trim_trimmed | apply filter_Forall, map_trim_trimmed].
Qed.

Lemma normalizeRow_trimmed (maxColumns : nat) (row : list jsstring) :
  Forall trimmed row -> Forall trimmed (normalizeRow maxColumns row).
Proof.
  intro H. unfold normalizeRow. rewrite padRow_closed.
  apply Forall_forall. intros c Hc. apply firstn_subset in Hc.
  apply in_app_or in Hc as [Hc | Hc].
  - rewrite Forall_forall in H. apply H, Hc.
  - apply repeat_spec in Hc. subst c. reflexivity.
Qed.

Lemma parseTable_trimmed (lines : list jsstring) (index : nat) (thr : Q)
    (t : TableDetectionResult) :
  parseTable lines index thr = Some t -> cellsTrimmed t.
Proof.
  unfold parseTable. cbv zeta.
  destruct (List.length lines <? 2); [discriminate |].
  set (validRows := filter _ _).
  assert (V : Forall (Forall trimmed) validRows).
  { apply filter_Forall, Forall_forall. intros row Hr.
    apply in_map_iff in Hr as (line & <- & _). apply splitTableLine_trimmed. }
  destruct (List.length validRows <? 2); [discriminate |].
  destruct (Num.ltb _ _); [discriminate |].
  intro H. injection H as <-. unfold cellsTrimmed.
  cbn [headers data]. split.
  - destruct (detectHeaders (hd [] validRows));
      [| apply genericHeaders_trimmed].
    destruct validRows as [|r rs]; [constructor |].
    inversion V; assumption.
  - apply Forall_forall. intros row Hr.
    apply in_map_iff in Hr as (r & <- & Hr). apply normalizeRow_trimmed.
    rewrite Forall_forall in V. apply V.
    destruct (detectHeaders (hd [] validRows)); [| exact Hr].
    destruct validRows as [|r0 rs]; [destruct Hr | right; exact Hr].
Qed.

Lemma accepted_trimmed (block : list jsstring) (index : nat) (thr : Q)
    (t : TableDetectionResult) :
  accepted block index thr = Some t -> cellsTrimmed t.
Proof.
  unfold accepted. destruct (parseTable block index thr) as [t0|] eqn:E;
    [| discriminate].
  destruct (Num.geb _ _); [| discriminate].
  intro H. injection H as <-. apply (parseTable_trimmed _ _ _ _ E).
Qed.

Lemma fold_left_invariant_In {A B : Type} (P : A -> Prop) (f : A -> B -> A)
    (l : list B) (a : A) :
  (forall a b, In b l -> P a -> P (f a b)) -> P a -> P (fold_left f l a).
Proof.
  revert a. induction l as [|b l IH]; intros a Hf Ha; simpl; [exact Ha |].
  apply IH.
  - intros a' b' Hb. apply Hf. right. exact Hb.
  - apply Hf; [left; reflexivity | exact Ha].
Qed.

Lemma placeItem_tight (columns : list Column) (ri : nat)
    (grid : list (list jsstring)) (it : Item) :
  hasContent (it_str it) = true ->
  Forall (Forall tight) grid ->
  Forall (Forall tight) (placeItem columns ri grid it).
Proof.
  intros Hc H. unfold placeItem. cbv zeta.
  apply setNth_Forall; [exact H |]. intro Hri.
  assert (R : Forall tight (nth ri grid [])).
  { rewrite Forall_forall in H. apply H, nth_In, Hri. }
  apply setNth_Forall; [exact R |]. intro Hci.
  set (old := nth (colIndex columns (it_x it)) (nth ri grid []) []).
  assert (O : tight old).
  { rewrite Forall_forall in R. apply R, nth_In, Hci. }
  assert (Nt : trim (it_str it) <> []).
  { unfold hasContent, nonEmpty in Hc. apply Nat.ltb_lt in Hc.
    intro E. rewrite E in Hc. simpl in Hc. lia. }
  destruct (nonEmpty old) eqn:En.
  - apply tight_joined; [exact O | apply trim_tight | | exact Nt].
    unfold nonEmpty in En. apply Nat.ltb_lt in En.
    intro E. rewrite E in En. simpl in En. lia.
  - apply trim_tight.
Qed.

Lemma buildGrid_tight (rows : list Row) (columns : list Column) :
  (forall r it, In r rows -> In it (row_items r) ->
                hasContent (it_str it) = true) ->
  Forall (Forall tight) (buildGrid rows columns).
Proof.
  intro Hc. unfold buildGrid. apply fold_left_invariant_In.
  - intros grid [ri r] Hin H. apply in_combine_r in Hin.
    apply fold_left_invariant_In; [| exact H].
    intros g it Hit. apply placeItem_tight, (Hc r it Hin Hit).
  - apply Forall_forall. intros row Hin.
    apply in_map_iff in Hin as (r & <- & _).
    apply Forall_forall. intros c Hcell. apply repeat_spec in Hcell.
    subst c. split; exact I.
Qed.

Lemma filterByIndex_In {A : Type} (keep : list bool) (r : list A) (x : A) :
  In x (filterByIndex keep r) -> In x r.
Proof.
  unfold filterByIndex. intro H.
  apply in_map_iff in H as ([i y] & <- & Hy).
  apply filter_In in Hy as [Hy _]. apply in_combine_r in Hy. exact Hy.
Qed.

Lemma cleanGrid_tight (grid : list (list jsstring)) :
  Forall (Forall tight) grid -> Forall (Forall tight) (cleanGrid grid).
Proof.
  intro H. unfold cleanGrid. cbv zeta. apply Forall_forall. intros row Hr.
  apply in_map_iff in Hr as (r & <- & Hr).
  apply filter_In in Hr as [Hr _].
  rewrite Forall_forall in H. specialize (H r Hr).
  apply Forall_forall. intros c Hc. apply filterByIndex_In in Hc.
  rewrite Forall_forall in H. apply H, Hc.
Qed.

Lemma layoutPage_trimmed (page : list Item) (counter : nat)
    (t : TableDetectionResult) :
  layoutPage page counter = Some t -> cellsTrimmed t.
Proof.
  unfold layoutPage.
  destruct (filter _ page) as [|i0 items] eqn:Ei; [discriminate |].
  cbv zeta.
  set (rows := sortRows (clusterRows (i0 :: items))).
  set (columns := columnsOf (bins (xPositions rows))).
  destruct (_ || _); [discriminate |].
  assert (G : Forall (Forall tight) (cleanGrid (buildGrid rows columns))).
  { apply cleanGrid_tight, buildGrid_tight. intros r it Hr Hit.
    assert (Hin : In it (i0 :: items)).
    { apply (Permutation_in it (clusterRows_perm (i0 :: items))).
      apply (Permutation_in it (sortRows_perm (clusterRows (i0 :: items)))).
      apply in_flat_map. exists r. split; [exact Hr | exact Hit]. }
    rewrite <- Ei in Hin. apply filter_In in Hin as [_ Hin]. exact Hin. }
  destruct (cleanGrid (buildGrid rows columns)) as [|headerRow rest] eqn:Ec;
    [discriminate |].
  intro H. injection H as <-. unfold cellsTrimmed. cbn [headers data].
  split.
  - destruct (layoutIsHeader headerRow); [| apply genericHeaders_trimmed].
    apply Forall_forall. intros h Hh.
    apply in_map_iff in Hh as (c & <- & Hc).
    destruct (nonEmpty c); [| reflexivity].
    apply tight_trimmed. inversion G as [|? ? Gh _]; subst.
    rewrite Forall_forall in Gh. apply Gh, Hc.
  - apply Forall_forall. intros row Hr.
    apply in_map_iff in Hr as (r & <- & _). apply map_trim_trimmed.
Qed.

(** X24.  No cell that [processJob] stores has white space at either end:
    every header and every data cell of a table of the layout detector, of
    the text-pattern detector and of the single-column fallback is equal to
    its own [trim]. *)
Theorem stored_cells_trimmed (pdf : option (list (list Item)))
    (text : jsstring) (options : ProcessingOptions)
    (t : TableDetectionResult) :
  In t (processJobTables pdf text options) -> cellsTrimmed t.
Proof.
  intro H. apply processJobTables_In in H as [H | [H | ->]].
  - apply detectTablesByLayout_In in H as (page & k & Hk).
    apply (layoutPage_trimmed _ _ _ Hk).
  - unfold detectTables in H.
    pose proof (detectLines_tables cellsTrimmed (thresholdOf options)
                  (sensitivityOf options)
                  (fun block index t => accepted_trimmed block index _ t)
                  (textLines text)) as F.
    rewrite Forall_forall in F. apply F, H.
  - unfold cellsTrimmed, fallbackTable. cbn [headers data]. split.
    + repeat constructor.
    + apply Forall_forall. intros row Hr.
      apply in_map_iff in Hr as (line & <- & Hl).
      constructor; [| constructor].
      unfold textLines in Hl. apply filter_In in Hl as [Hl _].
      apply in_map_iff in Hl as (x & <- & _). apply trimmed_trim.
Qed.

Lemma stored_cells_trimmed_witness :
  cellsTrimmed (fallbackTable (lit "  a  ")).
Proof.
  apply (stored_cells_trimmed None (lit "  a  ") (mkOptions None None)).
  left. reflexivity.
Defined.

(* ================================================================== *)
(** ** The fallback table *)
(* ================================================================== *)

(** Every text is its lines joined by line feeds. *)
Lemma join_split (text : jsstring) :
  join [Char.newline] (split Char.newline text) = text /\
  Forall oneLine (split Char.newline text).
Proof.
  induction text as [|c text [J F]]; simpl.
  - split; [reflexivity |]. repeat constructor. intros [].
  - destruct (N.eqb c Char.newline) eqn:E.
    + apply N.eqb_eq in E. subst c. split.
      * pose proof (split_nonempty Char.newline text) as Ne.
        destruct (split Char.newline text) as [|p ps]; [contradiction |].
        simpl in *. rewrite J. reflexivity.
      * constructor; [intros [] | exact F].
    + apply N.eqb_neq in E.
      destruct (split Char.newline text) as [|p ps].
      * split; [simpl in J; subst text; reflexivity |].
        repeat constructor. intros [H | []]. exact (E H).
      * split.
        -- rewrite <- J. destruct ps as [|p' ps]; reflexivity.
        -- apply Forall_cons_iff in F as [Fp Fps].
           constructor; [| exact Fps].
           intros [H | H]; [exact (E H) | exact (Fp H)].
Qed.

(** The lines the code keeps of a text given line by line. *)
Lemma textLines_join (lines : list jsstring) :
  Forall oneLine lines ->
  textLines (join [Char.newline] lines) = filter nonEmpty (map trim lines).
Proof.
  induction 1 as [|line lines Hl _ IH]; [reflexivity |].
  assert (One : textLines line = filter nonEmpty [trim line]).
  { unfold textLines. rewrite (split_without_sep _ _ Hl). reflexivity. }
  destruct lines as [|next lines]; [exact One |].
  change (join [Char.newline] (line :: next :: lines))
    with (line ++ Char.newline :: join [Char.newline] (next :: lines)).
  rewrite textLines_app, One, IH. cbn [map filter].
  destruct (nonEmpty (trim line)); reflexivity.
Qed.

Lemma trim_strippedOf (line : jsstring) : strippedOf line (trim line).
Proof.
  destruct (dropSpaces_suffix line) as (before & E1 & F1).
  destruct (dropSpaces_suffix (rev (dropSpaces line))) as (q & E2 & F2).
  exists before, (rev q). split; [| split; [exact F1 | split]].
  - rewrite E1 at 1. f_equal. unfold trim.
    rewrite <- rev_app_distr, <- E2, rev_involutive. reflexivity.
  - rewrite forallb_rev. exact F2.
  - apply trim_tight.
Qed.

Lemma trimmed_lines_nonBlank (lines : list jsstring) :
  nonBlankTrimmed lines (filter nonEmpty (map trim lines)).
Proof.
  induction lines as [|line lines IH]; [constructor |].
  cbn [map filter]. destruct (trim line) as [|c cell] eqn:E.
  - cbn [nonEmpty List.length Nat.ltb Nat.leb]. apply nbt_blank; [| exact IH].
    apply trim_nil, E.
  - cbn [nonEmpty List.length Nat.ltb Nat.leb]. apply nbt_line; [| | exact IH].
    + discriminate.
    + rewrite <- E. apply trim_strippedOf.
Qed.

(** C2.  When the layout detector and the text-pattern detector both come
    back empty, [processJob] stores exactly one table: headers [["Text"]],
    one row per non-blank trimmed line of the combined text, confidence 80
    and a bounding box of height [max(20, 20 * lines)].  The rows are given
    here without the code's own splitting and trimming: for the text that
    joins [lines] by line feeds there is one row for every line that is
    not all white space, in order, holding the line without the white
    space at its two ends.  Every text is such a join, the empty text
    included; and whatever the detectors return, the cascade never ends
    with an empty list. *)
Theorem fallback_when_nothing_detected
    (pdf : option (list (list Item))) (combinedText : jsstring)
    (options : ProcessingOptions) :
  (forall lines,
      combinedText = join [Char.newline] lines ->
      Forall oneLine lines ->
      detectTablesByLayout pdf = [] ->
      detectTables combinedText (thresholdOf options) (sensitivityOf options)
      = [] ->
      exists cells,
        nonBlankTrimmed lines cells /\
        processJobTables pdf combinedText options
        = [mkTable 0 [lit "Text"] (map (fun cell => [cell]) cells) (Fin 80)
             (mkBox 0 0 100
                    (Qnat (Nat.max 20 (20 * List.length cells))))]) /\
  (exists lines,
      combinedText = join [Char.newline] lines /\ Forall oneLine lines) /\
  processJobTables pdf combinedText options <> [].
Proof.
  split; [| split].
  - intros lines -> One L D.
    exists (filter nonEmpty (map trim lines)).
    split; [apply trimmed_lines_nonBlank |].
    unfold processJobTables. rewrite L, D. unfold fallbackTable. cbv zeta.
    rewrite (textLines_join lines One), (Nat.mul_comm _ 20). reflexivity.
  - exists (split Char.newline combinedText).
    destruct (join_split combinedText) as [J F].
    split; [symmetry; exact J | exact F].
  - unfold processJobTables.
    destruct (detectTablesByLayout pdf); [| discriminate].
    destruct (detectTables _ _ _); discriminate.
Qed.

Lemma fallback_when_nothing_detected_witness :
  processJobTables None
    (join [Char.newline]
          [lit "  plain prose "; []; [Char.tab; Char.space]; lit "more"])
    (mkOptions None None)
  = [mkTable 0 [lit "Text"] [[lit "plain prose"]; [lit "more"]] (Fin 80)
       (mkBox 0 0 100 (Qnat 40))].
Proof.
  destruct (fallback_when_nothing_detected None
              (join [Char.newline]
                    [lit "  plain prose "; []; [Char.tab; Char.space];
                     lit "more"])
              (mkOptions None None)) as (H & _ & _).
  destruct (H [lit "  plain prose "; []; [Char.tab; Char.space]; lit "more"])
    as (cells & N & E).
  - reflexivity.
  - repeat constructor; intro I; vm_compute in I; intuition discriminate.
  - reflexivity.
  - reflexivity.
  - assert (C : cells = [lit "plain prose"; lit "more"]).
    { pose proof E as E'. vm_compute in E'. injection E' as E1 _.
      destruct cells as [|c1 [|c2 [|c3 cells]]]; try discriminate E1.
      injection E1 as E1 E2. subst c1 c2. reflexivity. }
    rewrite E, C. reflexivity.
Defined.
